(** * nano-bge: the BGE-M3 forward pass (src/nano_embeddings/bge/m3/model.py)

    A shallow embedding of the five classes of [model.py] and of the
    torch primitives they call, followed by the properties of the forward
    pass.

    Representation.
    - A tensor is a nested list, outermost axis first: a (B,T,E) tensor is
      a [list (list (list F))].  Tensors are rectangular; an axis of size
      zero hides the sizes of the axes below it.  The fault that the
      attention block raises on a tensor without elements, at its
      [view(.., -1)], is decided from the number of elements.
    - Scalars are abstract ([Scalar]): the code computes on floats, the
      model on any carrier with the same operations.  The few facts of
      floating-point arithmetic a proof needs are collected in
      [FloatLaws]; they are proved of Rocq's binary64 floats, which also
      serve to run the two heads on values that overflow.
    - A raised exception is an [Err] result; the random generator that
      dropout draws from is threaded explicitly ([rnd]).
    - [BgeM3] keeps its attributes in a dictionary, as a Python object
      does: reading an attribute that was never assigned is an
      [AttributeError]. *)

From Stdlib Require Import ZArith Lia.
From Stdlib Require Floats Uint63.
From stdpp Require Import base option list gmap strings.

Local Open Scope string_scope.
Local Open Scope Z_scope.

(** ** Exceptions and results *)

Inductive exn : Type :=
  | IndexError
  | AttributeError (name : string)
  | TypeError
  | ZeroDivisionError
  | RuntimeError.

Inductive result (A : Type) : Type :=
  | Ok (a : A)
  | Err (e : exn).
Arguments Ok {A} a.
Arguments Err {A} e.

Definition is_Ok {A} (r : result A) : Prop := ∃ a, r = Ok a.

#[global] Instance result_ret : MRet result := λ A a, Ok a.
#[global] Instance result_bind : MBind result := λ A B f r,
  match r with Ok a => f a | Err e => Err e end.
#[global] Instance result_fmap : FMap result := λ A B f r,
  match r with Ok a => Ok (f a) | Err e => Err e end.

(** A computation that may raise and may draw from the generator [G]:
    the generator state survives an exception. *)
Definition rnd (G A : Type) : Type := G → result A * G.

Definition rnd_ret {G A} (a : A) : rnd G A := λ g, (Ok a, g).
Definition rnd_bind {G A B} (m : rnd G A) (k : A → rnd G B) : rnd G B :=
  λ g, match m g with
       | (Ok a, g') => k a g'
       | (Err e, g') => (Err e, g')
       end.
Definition lift {G A} (r : result A) : rnd G A := λ g, (r, g).

Declare Scope rnd_scope.
Delimit Scope rnd_scope with rnd.
Notation "x ⇐ m ;; k" := (rnd_bind m (λ x, k))
  (at level 100, m at next level, right associativity) : rnd_scope.

Fixpoint rnd_mapM {G A B} (f : A → rnd G B) (l : list A) : rnd G (list B) :=
  match l with
  | [] => rnd_ret []
  | x :: l' => (y ⇐ f x ;; ys ⇐ rnd_mapM f l' ;; rnd_ret (y :: ys))%rnd
  end.

Fixpoint rnd_foldM {G A B} (f : B → A → rnd G B) (l : list A) (b : B) : rnd G B :=
  match l with
  | [] => rnd_ret b
  | x :: l' => (b' ⇐ f b x ;; rnd_foldM f l' b')%rnd
  end.

(** ** Scalars *)

Class Scalar (F : Type) : Type := {
  fzero : F;
  fone : F;
  fadd : F → F → F;
  fsub : F → F → F;
  fmul : F → F → F;
  fdiv : F → F → F;
  fsqrt : F → F;
  (* x <= y *)
  fleb : F → F → bool;
  (* int -> float conversion: [.float()] on an integer tensor, [n ** 0.5] *)
  of_Z : Z → F
}.

(** The two functions of the encoder that are no arithmetic: the
    sparse and the multi-vector head use neither. *)
Class Transcendental (F : Type) : Type := {
  fexp : F → F;
  (* torch.nn.functional.gelu, element-wise *)
  fgelu : F → F
}.

(** [x == y]: on floats, [x <= y] and [y <= x] *)
Definition feqb `{Scalar F} (x y : F) : bool := fleb x y && fleb y x.

(** [torch.isfinite]: neither an infinity nor NaN.  The code never calls
    it; statements about values that have not overflowed do. *)
Class IsFinite (F : Type) : Type := isfinite : F → bool.

(** The facts about scalars that the proofs below rely on, each a fact of
    IEEE-754 arithmetic in every format.  Zero times a finite number is a
    zero of either sign, which [==] does not tell apart; an infinity or a
    NaN times zero is NaN, and NaN is neither above nor below zero. *)
Class FloatLaws (F : Type) `{Scalar F} `{IsFinite F} : Prop := {
  isfinite_0 : isfinite (fzero : F) = true;
  fleb_0_0 : fleb (fzero : F) fzero = true;
  fleb_0_pos : ∀ x : F,
    isfinite x = true → fleb x fzero = false → fleb fzero x = true;
  fmul_0_r : ∀ x : F, isfinite x = true → feqb (fmul x fzero) fzero = true;
  fmul_1_r : ∀ x : F, fmul x fone = x
}.

(** The generator behind [nn.Dropout]: [draw q g] is a Bernoulli draw that
    succeeds with probability [q], and the advanced generator. *)
Class Generator (G F : Type) : Type := {
  draw : F → G → bool * G
}.

(** Element types that [.float()] accepts. *)
Class ToFloat (A F : Type) : Type := to_float : A → F.
#[global] Instance bool_to_float `{Scalar F} : ToFloat bool F :=
  λ b, if b then fone else fzero.
#[global] Instance Z_to_float `{Scalar F} : ToFloat Z F := of_Z.

(** ** torch primitives *)

Module torch.
Section ops.
Context {F : Type} `{Scalar F} `{Tr : Transcendental F}.

Definition relu (x : F) : F := if fleb x fzero then fzero else x.

(* the larger of two entries as [torch.max] takes it: a NaN, the one
   value that is not [<=] itself, wins over every number *)
Definition fmax (a b : F) : F :=
  if fleb b b then if fleb a b then b else a else b.

Definition vsum (xs : list F) : F := foldr fadd fzero xs.
Definition dot (xs ys : list F) : F := vsum (zip_with fmul xs ys).

Definition map2 {A B} (f : A → B) (x : list (list A)) : list (list B) :=
  fmap (M := list) (fmap (M := list) f) x.
Definition map3 {A B} (f : A → B) (x : list (list (list A)))
  : list (list (list B)) := fmap (M := list) (map2 f) x.

(** [x.size(1)] of a two-axis tensor *)
Definition size1 {A} (x : list (list A)) : nat :=
  match x with [] => 0%nat | r :: _ => length r end.

Definition arange (n : nat) : list Z := Z.of_nat <$> seq 0 n.
Definition zeros (n : nat) : list F := replicate n fzero.
Definition zeros_like (x : list (list Z)) : list (list Z) := map2 (λ _, 0) x.

(** Binary element-wise operators broadcast an axis of size one. *)
Definition broadcast {A B C} (f : A → B → result C)
    (xs : list A) (ys : list B) : result (list C) :=
  if decide (length xs = length ys) then mapM (λ p, f p.1 p.2) (zip xs ys)
  else match xs, ys with
       | [x], _ => mapM (f x) ys
       | _, [y] => mapM (λ x, f x y) xs
       | _, _ => Err RuntimeError
       end.

Definition lift2 (f : F → F → F) (a b : F) : result F := Ok (f a b).
Definition add3 := broadcast (broadcast (broadcast (lift2 fadd))).
Definition mul3 := broadcast (broadcast (broadcast (lift2 fmul))).

(** [x[:, 0, :]]: index 0 of axis 1 *)
Definition select0 {A} (x : list (list A)) : result (list A) :=
  mapM (λ m, match m with [] => Err IndexError | v :: _ => Ok v end) x.

(** [x[:, 1:]] *)
Definition tail1 {A} (x : list (list A)) : list (list A) := drop 1 <$> x.

(** [x[:, :, None]] and [x.unsqueeze(-1)] *)
Definition unsqueeze_last {A} (x : list (list A)) : list (list (list A)) :=
  map2 (λ a, [a]) x.

(** *** nn.Embedding *)
Record Embedding := { emb_weight : list (list F) }.

Definition mk_Embedding (num dim : nat) (w : nat → nat → F) : Embedding :=
  {| emb_weight := (λ i, w i <$> seq 0 dim) <$> seq 0 num |}.

Definition embedding_row (e : Embedding) (i : Z) : result (list F) :=
  if decide (0 ≤ i) then
    match emb_weight e !! Z.to_nat i with
    | Some row => Ok row
    | None => Err IndexError
    end
  else Err IndexError.

Definition Embedding_forward (e : Embedding) (ids : list (list Z))
  : result (list (list (list F))) :=
  mapM (mapM (embedding_row e)) ids.

(** *** nn.Linear: [x W^T + b] along the last axis *)
Record Linear := {
  in_features : nat;
  out_features : nat;
  lin_weight : list (list F);
  lin_bias : list F
}.

Definition mk_Linear (n_in n_out : nat) (w : nat → nat → F) (b : nat → F)
  : Linear :=
  {| in_features := n_in; out_features := n_out;
     lin_weight := (λ o, w o <$> seq 0 n_in) <$> seq 0 n_out;
     lin_bias := b <$> seq 0 n_out |}.

Definition affine (l : Linear) (x : list F) : list F :=
  zip_with fadd ((λ row, dot row x) <$> lin_weight l) (lin_bias l).

Definition linear_vec (l : Linear) (x : list F) : result (list F) :=
  if decide (length x = in_features l) then Ok (affine l x)
  else Err RuntimeError.

Definition Linear_forward (l : Linear) (x : list (list (list F)))
  : result (list (list (list F))) :=
  mapM (mapM (linear_vec l)) x.

(** *** nn.LayerNorm over the last axis, with scale and shift *)
Record LayerNorm := {
  normalized_shape : nat;
  ln_weight : list F;
  ln_bias : list F;
  ln_eps : F
}.

(* torch initialises the scale to one and the shift to zero *)
Definition mk_LayerNorm (dim : nat) (eps : F) : LayerNorm :=
  {| normalized_shape := dim; ln_weight := replicate dim fone;
     ln_bias := replicate dim fzero; ln_eps := eps |}.

Definition mean (xs : list F) : F :=
  fdiv (vsum xs) (of_Z (Z.of_nat (length xs))).

Definition normalize (ln : LayerNorm) (x : list F) : list F :=
  let mu := mean x in
  let centred := (λ a, fsub a mu) <$> x in
  let var := mean ((λ c, fmul c c) <$> centred) in
  let sd := fsqrt (fadd var (ln_eps ln)) in
  zip_with fadd
    (zip_with fmul ((λ c, fdiv c sd) <$> centred) (ln_weight ln))
    (ln_bias ln).

Definition layer_norm_vec (ln : LayerNorm) (x : list F) : result (list F) :=
  if decide (length x = normalized_shape ln) then Ok (normalize ln x)
  else Err RuntimeError.

Definition LayerNorm_forward (ln : LayerNorm) (x : list (list (list F)))
  : result (list (list (list F))) :=
  mapM (mapM (layer_norm_vec ln)) x.

(** *** softmax over the last axis *)
Definition softmax (xs : list F) : list F :=
  let es := fexp <$> xs in
  (λ e, fdiv e (vsum es)) <$> es.

(** *** [view] and [transpose] as the attention block uses them *)

(* split the last axis into [n] chunks of [hd] entries *)
Fixpoint chunks (n hd : nat) (v : list F) : list (list F) :=
  match n with
  | O => []
  | S n' => take hd v :: chunks n' hd (drop hd v)
  end.

(* [.view(B, T, n, hd)] of a (B,T,A) tensor: needs n * hd = A *)
Definition view_heads (n hd : nat) (v : list F) : result (list (list F)) :=
  if decide (length v = (n * hd)%nat) then Ok (chunks n hd v)
  else Err RuntimeError.

(* exchange the two axes of an (r, cols) tensor; entries may be tensors *)
Definition column {A} (c : nat) (m : list (list A)) : list A :=
  omap (λ row : list A, row !! c) m.
Definition transpose {A} (cols : nat) (m : list (list A)) : list (list A) :=
  (λ c, column c m) <$> seq 0 cols.

(* [.view(.., -1)]: the size that is left out cannot be inferred for a
   tensor of [numel = 0] elements *)
Definition view_infer {A} (numel : nat) (x : A) : result A :=
  if decide (numel = 0%nat) then Err RuntimeError else Ok x.

(* [torch.matmul] of an (r, k) by a (k, cols) matrix *)
Definition matmul (cols : nat) (a b : list (list F)) : list (list F) :=
  (λ ai, (λ c, dot ai (column c b)) <$> seq 0 cols) <$> a.

(** *** torch.scatter along the last axis *)
Fixpoint scatter_row (row : list F) (index : list Z) (src : list F)
  : result (list F) :=
  match index with
  | [] => Ok row
  | i :: index' =>
      match src with
      | [] => Err RuntimeError
      | s :: src' =>
          if decide (0 ≤ i < Z.of_nat (length row)) then
            scatter_row (<[Z.to_nat i := s]> row) index' src'
          else Err RuntimeError
      end
  end.

Fixpoint scatter_axis {X I W} (f : X → I → W → result X)
    (self : list X) (index : list I) (src : list W) : result (list X) :=
  match index with
  | [] => Ok self
  | i :: index' =>
      match self, src with
      | x :: self', s :: src' =>
          x' ← f x i s;
          rest ← scatter_axis f self' index' src';
          Ok (x' :: rest)
      | _, _ => Err RuntimeError
      end
  end.

Definition scatter (self : list (list (list F)))
    (index : list (list (list Z))) (src : list (list (list F)))
  : result (list (list (list F))) :=
  scatter_axis (scatter_axis scatter_row) self index src.

(** *** [torch.max(x, dim=1).values] of a (B,T,V) tensor *)
Definition max_rows (rows : list (list F)) : result (list F) :=
  match rows with
  | [] => Err IndexError
  | r :: rs => Ok (foldl (zip_with fmax) r rs)
  end.

Definition max_dim1 (x : list (list (list F))) : result (list (list F)) :=
  mapM max_rows x.

(** *** Python index normalisation for an axis of size [n] *)
Definition norm_index (n : nat) (i : Z) : result nat :=
  if decide (0 ≤ i < Z.of_nat n) then Ok (Z.to_nat i)
  else if decide (- Z.of_nat n ≤ i < 0) then Ok (Z.to_nat (i + Z.of_nat n))
  else Err IndexError.

(** *** nn.Dropout *)
Record Dropout := { drop_p : F; training : bool }.

Section dropout.
Context {G : Type} `{Generator G F}.

Definition dropout_elem (p : F) (x : F) : rnd G F := λ g,
  let (keep, g') := draw (fsub fone p) g in
  (Ok (fmul x (if keep then fdiv fone (fsub fone p) else fzero)), g').

(* Out of training mode and for [p = 0] the input is returned as it is,
   and for [p = 1] it is multiplied by zero: nothing is drawn in these
   cases.  Otherwise every entry has its own draw. *)
Definition Dropout_forward (d : Dropout) (x : list (list (list F)))
  : rnd G (list (list (list F))) :=
  let p := drop_p d in
  if negb (training d) || feqb p fzero then rnd_ret x
  else if feqb p fone then rnd_ret (map3 (λ v, fmul v fzero) x)
  else rnd_mapM (rnd_mapM (rnd_mapM (dropout_elem p))) x.
End dropout.
End ops.
#[global] Arguments Embedding F : clear implicits.
#[global] Arguments Linear F : clear implicits.
#[global] Arguments LayerNorm F : clear implicits.
#[global] Arguments Dropout F : clear implicits.
End torch.

(** ** The configuration and the tokenizer *)

Module Config.
(** Modelled from the spec: [BgeConfig] is declared in config.py, which is
    not among the sources.  The record has the fields model.py reads:
    vocabulary size, embedding dimension, position-table size, attention
    dimension, attention-output dimension, hidden size, number of heads,
    number of layers, three normalization epsilons, dropout probability. *)
Record BgeConfig (F : Type) : Type := {
  word_size : nat;
  embed_dim : nat;
  position_size : nat;
  layer_norm_eps : F;
  attn_dim : nat;
  attn_output_dim : nat;
  attn_layer_norm_eps : F;
  num_heads : nat;
  hidden_size : nat;
  ffn_layer_norm_eps : F;
  dropout_prob : F;
  num_of_attn_layers : nat
}.
Arguments word_size {F} _.
Arguments embed_dim {F} _.
Arguments position_size {F} _.
Arguments layer_norm_eps {F} _.
Arguments attn_dim {F} _.
Arguments attn_output_dim {F} _.
Arguments attn_layer_norm_eps {F} _.
Arguments num_heads {F} _.
Arguments hidden_size {F} _.
Arguments ffn_layer_norm_eps {F} _.
Arguments dropout_prob {F} _.
Arguments num_of_attn_layers {F} _.
End Config.
Abbreviation BgeConfig := Config.BgeConfig.

(** Modelled from the spec: the tokenizer is an external collaborator that
    provides the four reserved ids as plain integers. *)
Record Tokenizer : Type := {
  cls_token_id : Z;
  eos_token_id : Z;
  pad_token_id : Z;
  unk_token_id : Z
}.

(** The values torch draws for a freshly constructed parameter: the entry
    at (row, column) of parameter [name] of layer [layer]. *)
Definition initializer (F : Type) : Type := string → nat → nat → nat → F.

(** ** class BgeM3Embedding *)

Module BgeM3Embedding.
Section cls.
Context {F : Type} `{Scalar F} `{Tr : Transcendental F}.

Record t : Type := {
  num_of_words : nat;
  embed_dim : nat;
  position_embed_dim : nat;
  layer_norm_eps : F;
  word_embedding : torch.Embedding F;
  position_embedding : torch.Embedding F;
  token_type_embedding : torch.Embedding F;
  LayerNorm : torch.LayerNorm F
}.

Definition __init__ (config : BgeConfig F) (init : initializer F) : t :=
  let num_of_words := config.(Config.word_size) in
  let embed_dim := config.(Config.embed_dim) in
  let position_embed_dim := config.(Config.position_size) in
  let layer_norm_eps := config.(Config.layer_norm_eps) in
  {| num_of_words := num_of_words;
     embed_dim := embed_dim;
     position_embed_dim := position_embed_dim;
     layer_norm_eps := layer_norm_eps;
     word_embedding :=
       torch.mk_Embedding num_of_words embed_dim (init "word_embedding" 0%nat);
     position_embedding :=
       torch.mk_Embedding position_embed_dim embed_dim
         (init "position_embedding" 0%nat);
     token_type_embedding :=
       torch.mk_Embedding 1 embed_dim (init "token_type_embedding" 0%nat);
     LayerNorm := torch.mk_LayerNorm embed_dim layer_norm_eps |}.

Definition forward (self : t) (input_ids : list (list Z))
    (token_type_ids : option (list (list Z)))
  : result (list (list (list F))) :=
  (* word embedding *)
  word_embed ← torch.Embedding_forward self.(word_embedding) input_ids;
  (* position embedding *)
  let position_ids := [torch.arange (torch.size1 input_ids)] in
  position_embed ← torch.Embedding_forward self.(position_embedding) position_ids;
  (* token type embedding *)
  let token_type_ids :=
    match token_type_ids with
    | None => torch.zeros_like input_ids
    | Some ids => ids
    end in
  token_type_embed ←
    torch.Embedding_forward self.(token_type_embedding) token_type_ids;
  (* sum *)
  s ← torch.add3 word_embed position_embed;
  embed ← torch.add3 s token_type_embed;
  (* LayerNorm *)
  torch.LayerNorm_forward self.(LayerNorm) embed.

End cls.
#[global] Arguments t F : clear implicits.
End BgeM3Embedding.

(** ** class MultiHeadSelfAttention *)

Module MultiHeadSelfAttention.
Section cls.
Context {F : Type} `{Scalar F} `{Tr : Transcendental F}.

Record t : Type := {
  embed_dim : nat;
  attn_dim : nat;
  attn_output_dim : nat;
  attn_layer_norm_eps : F;
  num_heads : nat;
  q : torch.Linear F;
  k : torch.Linear F;
  v : torch.Linear F;
  o : torch.Linear F;
  LayerNorm : torch.LayerNorm F
}.

Definition __init__ (config : BgeConfig F) (init : initializer F) (layer : nat)
  : t :=
  let embed_dim := config.(Config.embed_dim) in
  let attn_dim := config.(Config.attn_dim) in
  let attn_output_dim := config.(Config.attn_output_dim) in
  let attn_layer_norm_eps := config.(Config.attn_layer_norm_eps) in
  {| embed_dim := embed_dim;
     attn_dim := attn_dim;
     attn_output_dim := attn_output_dim;
     attn_layer_norm_eps := attn_layer_norm_eps;
     num_heads := config.(Config.num_heads);
     q := torch.mk_Linear embed_dim attn_dim
            (init "q.weight" layer) (init "q.bias" layer 0%nat);
     k := torch.mk_Linear embed_dim attn_dim
            (init "k.weight" layer) (init "k.bias" layer 0%nat);
     v := torch.mk_Linear embed_dim attn_dim
            (init "v.weight" layer) (init "v.bias" layer 0%nat);
     o := torch.mk_Linear attn_dim attn_output_dim
            (init "o.weight" layer) (init "o.bias" layer 0%nat);
     LayerNorm := torch.mk_LayerNorm attn_output_dim attn_layer_norm_eps |}.

(** [attn_dim // num_heads] *)
Definition floordiv (a b : nat) : result nat :=
  if decide (b = 0%nat) then Err ZeroDivisionError else Ok (a / b)%nat.

(** [lin(x).view(batch_size, seq_length, num_heads, head_dim).transpose(1, 2)] *)
Definition project (lin : torch.Linear F) (num_heads head_dim : nat)
    (x : list (list (list F))) : result (list (list (list (list F)))) :=
  y ← torch.Linear_forward lin x;
  yv ← mapM (mapM (torch.view_heads num_heads head_dim)) y;
  Ok (torch.transpose num_heads <$> yv).

(** One head of one batch entry: scaled dot-product attention. *)
Definition attend (seq_length head_dim : nat) (qh kh vh : list (list F))
  : list (list F) :=
  let scale := fsqrt (of_Z (Z.of_nat head_dim)) in
  let attn :=
    torch.map2 (λ a, fdiv a scale)
      (torch.matmul seq_length qh (torch.transpose head_dim kh)) in
  let attn := torch.softmax <$> attn in
  torch.matmul head_dim attn vh.

Definition attend_batch (seq_length head_dim : nat)
    (qkv : list (list (list F)) * list (list (list F)) * list (list (list F)))
  : list (list F) :=
  let '(qb, kb, vb) := qkv in
  let heads :=
    (λ h : list (list F) * list (list F) * list (list F),
       attend seq_length head_dim h.1.1 h.1.2 h.2) <$> zip (zip qb kb) vb in
  (* .transpose(1, 2).contiguous().view(batch_size, seq_length, -1) *)
  (concat (A := F)) <$> torch.transpose seq_length heads.

Definition forward (self : t) (x : list (list (list F)))
  : result (list (list (list F))) :=
  let num_heads := self.(num_heads) in
  let attn_dim := self.(attn_dim) in
  let batch_size := length x in
  let seq_length := torch.size1 x in
  head_dim ← floordiv attn_dim num_heads;
  (* Linear projections *)
  q ← project self.(q) num_heads head_dim x;
  k ← project self.(k) num_heads head_dim x;
  v ← project self.(v) num_heads head_dim x;
  (* Scaled dot-product attention and attention output *)
  let out := attend_batch seq_length head_dim <$> zip (zip q k) v in
  out ← torch.view_infer (batch_size * seq_length * (num_heads * head_dim)) out;
  out ← torch.Linear_forward self.(o) out;
  (* LayerNorm *)
  torch.LayerNorm_forward self.(LayerNorm) out.

End cls.
#[global] Arguments t F : clear implicits.
End MultiHeadSelfAttention.

(** ** class FFN *)

Module FFN.
Section cls.
Context {F G : Type} `{Scalar F} `{Tr : Transcendental F} `{Generator G F}.

Record t : Type := {
  attn_output_dim : nat;
  hidden_size : nat;
  ffn_layer_norm_eps : F;
  dropout_prob : F;
  fc1 : torch.Linear F;
  fc2 : torch.Linear F;
  gelu : F → F;
  output_dropout : torch.Dropout F;
  LayerNorm : torch.LayerNorm F
}.

Definition __init__ (config : BgeConfig F) (init : initializer F) (layer : nat)
  : t :=
  let attn_output_dim := config.(Config.attn_output_dim) in
  let hidden_size := config.(Config.hidden_size) in
  let ffn_layer_norm_eps := config.(Config.ffn_layer_norm_eps) in
  let dropout_prob := config.(Config.dropout_prob) in
  {| attn_output_dim := attn_output_dim;
     hidden_size := hidden_size;
     ffn_layer_norm_eps := ffn_layer_norm_eps;
     dropout_prob := dropout_prob;
     fc1 := torch.mk_Linear attn_output_dim hidden_size
              (init "fc1.weight" layer) (init "fc1.bias" layer 0%nat);
     fc2 := torch.mk_Linear hidden_size attn_output_dim
              (init "fc2.weight" layer) (init "fc2.bias" layer 0%nat);
     gelu := fgelu;
     (* a module is constructed in training mode *)
     output_dropout := {| torch.drop_p := dropout_prob; torch.training := true |};
     LayerNorm := torch.mk_LayerNorm attn_output_dim ffn_layer_norm_eps |}.

Definition forward (self : t) (x : list (list (list F)))
  : rnd G (list (list (list F))) :=
  (* FFN *)
  (out ⇐ lift (torch.map3 torch.relu <$> torch.Linear_forward self.(fc1) x) ;;
   let out := torch.map3 self.(gelu) out in
   out ⇐ lift (torch.Linear_forward self.(fc2) out) ;;
   (* Residual connection *)
   out ⇐ lift (torch.add3 out x) ;;
   (* Dropout *)
   out ⇐ torch.Dropout_forward self.(output_dropout) out ;;
   (* LayerNorm *)
   lift (torch.LayerNorm_forward self.(LayerNorm) out))%rnd.

End cls.
#[global] Arguments t F : clear implicits.
End FFN.

(** ** class BgeAttention *)

Module BgeAttention.
Section cls.
Context {F G : Type} `{Scalar F} `{Tr : Transcendental F} `{Generator G F}.

Record t : Type := {
  attention : MultiHeadSelfAttention.t F;
  ffn : FFN.t F
}.

Definition __init__ (config : BgeConfig F) (init : initializer F) (layer : nat)
  : t :=
  {| attention := MultiHeadSelfAttention.__init__ config init layer;
     ffn := FFN.__init__ config init layer |}.

Definition forward (self : t) (x : list (list (list F)))
  : rnd G (list (list (list F))) :=
  (* Attention *)
  (out ⇐ lift (MultiHeadSelfAttention.forward self.(attention) x) ;;
   (* FFN *)
   FFN.forward self.(ffn) out)%rnd.

End cls.
#[global] Arguments t F : clear implicits.
End BgeAttention.

(** ** class BgeM3 *)

Module BgeM3.
Section cls.
Context {F G : Type} `{Scalar F} `{Tr : Transcendental F} `{Generator G F}.

(** What an attribute of a [BgeM3] object may hold. *)
Inductive value : Type :=
  | VConfig (c : BgeConfig F)
  | VInt (n : Z)
  | VEmbedding (m : BgeM3Embedding.t F)
  | VModuleList (ms : list (BgeAttention.t F))
  | VLinear (m : torch.Linear F)
  | VTokenizer (tk : Tokenizer).

(** The object: its attribute dictionary. *)
Abbreviation t := (gmap string value).

Definition getattr (self : t) (name : string) : result value :=
  match self !! name with
  | Some v => Ok v
  | None => Err (AttributeError name)
  end.

(** [self.name = v] *)
Definition setattr (self : t) (name : string) (v : value) : t :=
  <[name := v]> self.

Definition as_embedding (v : value) : result (BgeM3Embedding.t F) :=
  match v with VEmbedding m => Ok m | _ => Err TypeError end.
Definition as_module_list (v : value) : result (list (BgeAttention.t F)) :=
  match v with VModuleList ms => Ok ms | _ => Err TypeError end.
Definition as_linear (v : value) : result (torch.Linear F) :=
  match v with VLinear m => Ok m | _ => Err TypeError end.
(* a size handed to [torch.zeros] *)
Definition as_size (v : value) : result nat :=
  match v with
  | VInt n => if decide (0 ≤ n) then Ok (Z.to_nat n) else Err RuntimeError
  | _ => Err TypeError
  end.
(* an object the four token ids can be read from *)
Definition as_tokenizer (v : value) : result Tokenizer :=
  match v with
  | VTokenizer tk => Ok tk
  | _ => Err (AttributeError "cls_token_id")
  end.

Definition __init__ (config : BgeConfig F) (init : initializer F) : t :=
  let self : t := ∅ in
  (* Save the config *)
  let self := setattr self "config" (VConfig config) in
  let num_of_attn_layers := config.(Config.num_of_attn_layers) in
  let self :=
    setattr self "num_of_attn_layers" (VInt (Z.of_nat num_of_attn_layers)) in
  (* Embedding *)
  let self :=
    setattr self "embedding" (VEmbedding (BgeM3Embedding.__init__ config init)) in
  (* Attention *)
  let self :=
    setattr self "attentions"
      (VModuleList (BgeAttention.__init__ config init <$> seq 0 num_of_attn_layers)) in
  (* sparse retriever, colbert retriever *)
  let self :=
    setattr self "sparse_linear"
      (VLinear (torch.mk_Linear config.(Config.embed_dim) config.(Config.word_size)
                  (init "sparse_linear.weight" 0%nat)
                  (init "sparse_linear.bias" 0%nat 0%nat))) in
  let self :=
    setattr self "colbert_linear"
      (VLinear (torch.mk_Linear config.(Config.embed_dim) config.(Config.embed_dim)
                  (init "colbert_linear.weight" 0%nat)
                  (init "colbert_linear.bias" 0%nat 0%nat))) in
  self.

(** The scatter step of the sparse head: [torch.zeros(B, T, vocab_size)]
    followed by [torch.scatter(.., dim=-1, index=input_ids.unsqueeze(-1),
    src=token_weights)]. *)
Definition scatter_step (vocab_size : nat) (input_ids : list (list Z))
    (token_weights : list (list (list F))) : result (list (list (list F))) :=
  let sparse_embedding :=
    replicate (length input_ids)
      (replicate (torch.size1 input_ids) (torch.zeros vocab_size)) in
  torch.scatter sparse_embedding (torch.unsqueeze_last input_ids) token_weights.

(** [x[:, unused_tokens] *= 0.] on one row of [x]: the selected entries
    are read, multiplied by zero and written back. *)
Definition mul_zero_at (unused_tokens : list nat) (row : list F) : list F :=
  foldl (λ r i, <[i := fmul (default fzero (row !! i)) fzero]> r)
        row unused_tokens.

Definition unused_tokens (tokenizer : Tokenizer) : list Z :=
  [tokenizer.(cls_token_id); tokenizer.(eos_token_id);
   tokenizer.(pad_token_id); tokenizer.(unk_token_id)].

Definition _sparse_embedding (self : t) (hidden_state : list (list (list F)))
    (input_ids : list (list Z)) (return_embedding : bool)
  : result (list (list (list F)) + list (list F)) :=
  sparse_linear ← getattr self "sparse_linear" ≫= as_linear;
  token_weights ←
    torch.map3 torch.relu <$> torch.Linear_forward sparse_linear hidden_state;
  if negb return_embedding then Ok (inl token_weights)
  else
    vocab_size ← getattr self "vocab_size" ≫= as_size;
    sparse_embedding ← scatter_step vocab_size input_ids token_weights;
    tokenizer ← getattr self "tokenizer" ≫= as_tokenizer;
    let unused_tokens := unused_tokens tokenizer in
    sparse_embedding ← torch.max_dim1 sparse_embedding;
    unused ← mapM (torch.norm_index vocab_size) unused_tokens;
    Ok (inr (fmap (M := list) (mul_zero_at unused) sparse_embedding)).

Definition _colbert_embedding {A} `{ToFloat A F} (self : t)
    (last_hidden_state : list (list (list F))) (mask : list (list A))
  : result (list (list (list F))) :=
  colbert_linear ← getattr self "colbert_linear" ≫= as_linear;
  colbert_vecs ←
    torch.Linear_forward colbert_linear (torch.tail1 last_hidden_state);
  torch.mul3 colbert_vecs
    (torch.map3 to_float (torch.unsqueeze_last (torch.tail1 mask))).

(** The encoder: the embedding followed by the attention layers.  This is
    [forward] up to the line before the pooling. *)
Definition encode (self : t) (input_ids : list (list Z))
    (token_type_ids : option (list (list Z)))
  : rnd G (list (list (list F))) :=
  (* Embedding *)
  (embedding ⇐ lift (getattr self "embedding" ≫= as_embedding) ;;
   embed ⇐ lift (BgeM3Embedding.forward embedding input_ids token_type_ids) ;;
   let out := embed in
   (* Attention *)
   attentions ⇐ lift (getattr self "attentions" ≫= as_module_list) ;;
   rnd_foldM (λ out attention, BgeAttention.forward attention out)
             attentions out)%rnd.

Definition forward (self : t) (input_ids : list (list Z))
    (token_type_ids : option (list (list Z)))
  : rnd G (list (list F) * (list (list (list F)) + list (list F))
           * list (list (list F))) :=
  (out ⇐ encode self input_ids token_type_ids ;;
   (* pooling (explicit pooling) *)
   dense_retrieval_vec ⇐ lift (torch.select0 out) ;;
   (* sparse retrieval *)
   sparse_retrieval_vec ⇐ lift (_sparse_embedding self out input_ids true) ;;
   (* colbert retrieval *)
   colbert_retrieval_vec ⇐ lift (_colbert_embedding self out input_ids) ;;
   rnd_ret (dense_retrieval_vec, sparse_retrieval_vec, colbert_retrieval_vec))%rnd.

Definition init_model_from_config (config : BgeConfig F) (init : initializer F)
  : t := __init__ config init.

(** [nn.Module.eval()]: every submodule leaves training mode. *)
Definition eval_layer (l : BgeAttention.t F) : BgeAttention.t F :=
  let f := l.(BgeAttention.ffn) in
  {| BgeAttention.attention := l.(BgeAttention.attention);
     BgeAttention.ffn :=
       {| FFN.attn_output_dim := f.(FFN.attn_output_dim);
          FFN.hidden_size := f.(FFN.hidden_size);
          FFN.ffn_layer_norm_eps := f.(FFN.ffn_layer_norm_eps);
          FFN.dropout_prob := f.(FFN.dropout_prob);
          FFN.fc1 := f.(FFN.fc1);
          FFN.fc2 := f.(FFN.fc2);
          FFN.gelu := f.(FFN.gelu);
          FFN.output_dropout :=
            {| torch.drop_p := torch.drop_p f.(FFN.output_dropout);
               torch.training := false |};
          FFN.LayerNorm := f.(FFN.LayerNorm) |} |}.

Definition eval_value (v : value) : value :=
  match v with
  | VModuleList ms => VModuleList (eval_layer <$> ms)
  | _ => v
  end.

Definition eval (self : t) : t := eval_value <$> self.

End cls.
#[global] Arguments value F : clear implicits.
End BgeM3.

(** ** Shape predicates *)

Section shapes.
Context {F : Type} `{Scalar F} `{Tr : Transcendental F}.

(** a (B,T,E) tensor with last axis of size [e]; axis 1 of size [t_len] *)
Definition shape3 {A} (t_len e : nat) (x : list (list (list A))) : Prop :=
  Forall (λ m, length m = t_len ∧ Forall (λ v : list A, length v = e) m) x.

Definition shape2 {A} (t_len : nat) (x : list (list A)) : Prop :=
  Forall (λ r : list A, length r = t_len) x.

(** the weight and the bias of a linear map have [out_features] rows *)
Definition wf_Linear (l : torch.Linear F) : Prop :=
  length (torch.lin_weight l) = torch.out_features l ∧
  length (torch.lin_bias l) = torch.out_features l.

Definition wf_LayerNorm (ln : torch.LayerNorm F) : Prop :=
  length (torch.ln_weight ln) = torch.normalized_shape ln ∧
  length (torch.ln_bias ln) = torch.normalized_shape ln.

(** [x >= 0] *)
Definition nonneg (x : F) : Prop := fleb fzero x = true.

(** [x == 0] *)
Definition is_zero (x : F) : Prop := feqb x fzero = true.

(** the four vocabulary slots that the sparse head multiplies by zero *)
Definition reserved_ids (tk : Tokenizer) : list Z :=
  [tk.(cls_token_id); tk.(eos_token_id); tk.(pad_token_id);
   tk.(unk_token_id)].

(** a row of [v] entries, each of which satisfies [P] *)
Definition row_of (P : F → Prop) (v : nat) (row : list F) : Prop :=
  length row = v ∧ Forall P row.

(** the (B,T,V) tensor of rectified weights the sparse head starts from *)
Definition token_weights_of (sl : torch.Linear F)
    (hidden_state : list (list (list F))) : list (list (list F)) :=
  torch.map2 (λ v, torch.relu <$> torch.affine sl v) hidden_state.

(** the (n, T, hd) heads that a projection yields for one batch entry *)
Definition heads_of (lin : torch.Linear F) (n hd : nat) (m : list (list F))
  : list (list (list F)) :=
  torch.transpose n ((λ v, torch.chunks n hd (torch.affine lin v)) <$> m).

(** the feed-forward block maps dimension [o] to [h] and back *)
Definition wf_FFN (o h : nat) (self : FFN.t F) : Prop :=
  wf_Linear self.(FFN.fc1) ∧ wf_Linear self.(FFN.fc2) ∧
  torch.in_features self.(FFN.fc1) = o ∧
  torch.out_features self.(FFN.fc1) = h ∧
  torch.in_features self.(FFN.fc2) = h ∧
  torch.out_features self.(FFN.fc2) = o ∧
  self.(FFN.gelu) = fgelu.

(** What the position-wise block computes at one position, before dropout
    and normalization: projection, ReLU, GELU, projection, residual. *)
Definition ffn_residual (self : FFN.t F) (x : list F) : list F :=
  let h := torch.affine self.(FFN.fc1) x in
  let r := torch.relu <$> h in
  let g := fgelu <$> r in
  let o := torch.affine self.(FFN.fc2) g in
  zip_with fadd o x.

(** an embedding table of [num] rows of [dim] entries *)
Definition wf_Embedding (num dim : nat) (e : torch.Embedding F) : Prop :=
  length (torch.emb_weight e) = num ∧
  Forall (λ row, length row = dim) (torch.emb_weight e).

(** a linear map from dimension [n_in] to dimension [n_out] *)
Definition linear_maps (n_in n_out : nat) (l : torch.Linear F) : Prop :=
  wf_Linear l ∧ torch.in_features l = n_in ∧ torch.out_features l = n_out.

(** a normalization layer over vectors of [dim] entries *)
Definition norm_over (dim : nat) (ln : torch.LayerNorm F) : Prop :=
  wf_LayerNorm ln ∧ torch.normalized_shape ln = dim.

Definition wf_BgeM3Embedding (config : BgeConfig F) (m : BgeM3Embedding.t F)
  : Prop :=
  wf_Embedding config.(Config.word_size) config.(Config.embed_dim)
    m.(BgeM3Embedding.word_embedding) ∧
  wf_Embedding config.(Config.position_size) config.(Config.embed_dim)
    m.(BgeM3Embedding.position_embedding) ∧
  wf_Embedding 1 config.(Config.embed_dim)
    m.(BgeM3Embedding.token_type_embedding) ∧
  norm_over config.(Config.embed_dim) m.(BgeM3Embedding.LayerNorm).

Definition wf_MultiHeadSelfAttention (config : BgeConfig F)
    (m : MultiHeadSelfAttention.t F) : Prop :=
  m.(MultiHeadSelfAttention.attn_dim) = config.(Config.attn_dim) ∧
  m.(MultiHeadSelfAttention.num_heads) = config.(Config.num_heads) ∧
  linear_maps config.(Config.embed_dim) config.(Config.attn_dim)
    m.(MultiHeadSelfAttention.q) ∧
  linear_maps config.(Config.embed_dim) config.(Config.attn_dim)
    m.(MultiHeadSelfAttention.k) ∧
  linear_maps config.(Config.embed_dim) config.(Config.attn_dim)
    m.(MultiHeadSelfAttention.v) ∧
  linear_maps config.(Config.attn_dim) config.(Config.attn_output_dim)
    m.(MultiHeadSelfAttention.o) ∧
  norm_over config.(Config.attn_output_dim) m.(MultiHeadSelfAttention.LayerNorm).

Definition wf_BgeAttention (config : BgeConfig F) (l : BgeAttention.t F)
  : Prop :=
  wf_MultiHeadSelfAttention config l.(BgeAttention.attention) ∧
  wf_FFN config.(Config.attn_output_dim) config.(Config.hidden_size)
    l.(BgeAttention.ffn) ∧
  norm_over config.(Config.attn_output_dim) l.(BgeAttention.ffn).(FFN.LayerNorm).

(** The parameters of the model have the shapes the configuration asks
    for.  A constructed model has them, and keeps them under training,
    [eval()] and the assignment of further attributes. *)
Definition wf_BgeM3 (config : BgeConfig F)
    (self : gmap string (BgeM3.value F)) : Prop :=
  ∃ emb ms sl cl,
    self !! "embedding" = Some (BgeM3.VEmbedding emb) ∧
    self !! "attentions" = Some (BgeM3.VModuleList ms) ∧
    self !! "sparse_linear" = Some (BgeM3.VLinear sl) ∧
    self !! "colbert_linear" = Some (BgeM3.VLinear cl) ∧
    wf_BgeM3Embedding config emb ∧
    Forall (wf_BgeAttention config) ms ∧
    linear_maps config.(Config.embed_dim) config.(Config.word_size) sl ∧
    linear_maps config.(Config.embed_dim) config.(Config.embed_dim) cl.

(** The preconditions on a configuration that the code does not check:
    the heads divide the attention dimension, the attention output has
    the dimension of the embedding, which the next layer and the two
    projecting heads consume, and the vocabulary is not empty. *)
Definition valid_config (config : BgeConfig F) : Prop :=
  (0 < config.(Config.num_heads))%nat ∧
  config.(Config.attn_dim)
    = (config.(Config.num_heads)
       * (config.(Config.attn_dim) / config.(Config.num_heads)))%nat ∧
  config.(Config.attn_output_dim) = config.(Config.embed_dim) ∧
  (0 < config.(Config.word_size))%nat.

(** A (B,T) batch of token ids within the vocabulary, no longer than the
    position table, with at least one position; the type ids are absent
    or a (B,T) tensor of zeros. *)
Definition valid_input (config : BgeConfig F) (t_len : nat)
    (input_ids : list (list Z)) (token_type_ids : option (list (list Z)))
  : Prop :=
  (0 < t_len ≤ config.(Config.position_size))%nat ∧
  shape2 t_len input_ids ∧
  Forall (Forall (λ i, 0 ≤ i < Z.of_nat config.(Config.word_size))) input_ids ∧
  (token_type_ids = None ∨ token_type_ids = Some (torch.zeros_like input_ids)).

(** every dropout layer of the model is out of training mode *)
Definition inference_mode (self : gmap string (BgeM3.value F)) : Prop :=
  ∀ ms, self !! "attentions" = Some (BgeM3.VModuleList ms) →
    Forall (λ l, torch.training l.(BgeAttention.ffn).(FFN.output_dropout) = false) ms.

(** a computation that neither reads nor advances the generator *)
Definition generator_free {G A} (m : rnd G A) : Prop :=
  ∃ r, ∀ g, m g = (r, g).

End shapes.

(** ** What the encoder computes for one entry of a batch

    The forward passes of the composer, of the attention block and of an
    encoder layer work on a whole batch; the functions below are what
    they compute for one batch entry, with dropout off.  They serve to
    state that the encoder is a map over the batch. *)

Section entries.
Context {F : Type} `{Scalar F} `{Tr : Transcendental F}.

(** what the composer returns at position [t] for the token id [i] *)
Definition composer_row (emb : BgeM3Embedding.t F) (t : nat) (i : Z) : list F :=
  let w := default [] (torch.emb_weight emb.(BgeM3Embedding.word_embedding)
                         !! Z.to_nat i) in
  let p := default [] (torch.emb_weight emb.(BgeM3Embedding.position_embedding)
                         !! t) in
  let ty := default [] (torch.emb_weight emb.(BgeM3Embedding.token_type_embedding)
                         !! 0%nat) in
  torch.normalize emb.(BgeM3Embedding.LayerNorm)
    (zip_with fadd (zip_with fadd w p) ty).

(** what the composer returns for one sequence of the batch *)
Definition composer_entry (emb : BgeM3Embedding.t F) (r : list Z)
  : list (list F) := imap (composer_row emb) r.

(** what the block returns for one batch entry of [t_len] positions *)
Definition attention_entry (m : MultiHeadSelfAttention.t F) (t_len : nat)
    (b : list (list F)) : list (list F) :=
  let n := m.(MultiHeadSelfAttention.num_heads) in
  let hd := (m.(MultiHeadSelfAttention.attn_dim) / n)%nat in
  (λ v, torch.normalize m.(MultiHeadSelfAttention.LayerNorm)
          (torch.affine m.(MultiHeadSelfAttention.o) v))
  <$> MultiHeadSelfAttention.attend_batch t_len hd
        (heads_of m.(MultiHeadSelfAttention.q) n hd b,
         heads_of m.(MultiHeadSelfAttention.k) n hd b,
         heads_of m.(MultiHeadSelfAttention.v) n hd b).

(** what an encoder layer returns for one batch entry, dropout off *)
Definition layer_entry (l : BgeAttention.t F) (t_len : nat)
    (b : list (list F)) : list (list F) :=
  (λ v, torch.normalize l.(BgeAttention.ffn).(FFN.LayerNorm)
          (ffn_residual l.(BgeAttention.ffn) v))
  <$> attention_entry l.(BgeAttention.attention) t_len b.

(** what the encoder returns for one sequence of token ids, dropout off *)
Definition encoder_entry (emb : BgeM3Embedding.t F)
    (ms : list (BgeAttention.t F)) (t_len : nat) (r : list Z)
  : list (list F) :=
  foldl (λ b l, layer_entry l t_len b) (composer_entry emb r) ms.

End entries.

(** ** A small concrete model

    Integers stand for scalars, so that the model runs inside Rocq; the
    integer square root, quotient and power of two stand for [sqrt],
    division and [exp].  What the two heads compute on the integer
    tensors below (sums, products, comparisons, the int-to-float cast) is
    what they compute on the same values as floats; a value that has
    passed through the encoder is a value of this integer model only. *)

Module Small.

#[global] Instance Z_scalar : Scalar Z := {|
  fzero := 0; fone := 1;
  fadd := Z.add; fsub := Z.sub; fmul := Z.mul; fdiv := Z.div;
  fsqrt := Z.sqrt;
  fleb := Z.leb; of_Z := λ z, z
|}.

#[global] Instance Z_transcendental : Transcendental Z := {|
  fexp := Z.pow 2; fgelu := λ x, x
|}.

(* every integer is finite *)
#[global] Instance Z_isfinite : IsFinite Z := λ _, true.

(* the generator is a counter; every other draw keeps the entry *)
#[global] Instance counter : Generator nat Z := {|
  draw := λ _ g, (Nat.even g, S g)
|}.

Definition config : BgeConfig Z := {|
  Config.word_size := 4;
  Config.embed_dim := 2;
  Config.position_size := 4;
  Config.layer_norm_eps := 1;
  Config.attn_dim := 2;
  Config.attn_output_dim := 2;
  Config.attn_layer_norm_eps := 1;
  Config.num_heads := 1;
  Config.hidden_size := 3;
  Config.ffn_layer_norm_eps := 1;
  Config.dropout_prob := 0;
  Config.num_of_attn_layers := 1
|}.

Definition init : initializer Z := λ _ _ i j, Z.of_nat (i + 2 * j + 1).

(** the model as constructed *)
Definition model : gmap string (BgeM3.value Z) := BgeM3.__init__ config init.

Definition tokenizer : Tokenizer :=
  {| cls_token_id := 0; eos_token_id := 2; pad_token_id := 1; unk_token_id := 3 |}.

(** the model after [model.vocab_size = 4; model.tokenizer = tokenizer] *)
Definition patched : gmap string (BgeM3.value Z) :=
  BgeM3.setattr (BgeM3.setattr model "vocab_size" (BgeM3.VInt 4))
    "tokenizer" (BgeM3.VTokenizer tokenizer).

(** the identity as a linear map of dimension two *)
Definition id_linear : torch.Linear Z :=
  {| torch.in_features := 2; torch.out_features := 2;
     torch.lin_weight := [[1; 0]; [0; 1]]; torch.lin_bias := [0; 0] |}.

(** a tokenizer whose reserved ids all are 0 *)
Definition zero_tokenizer : Tokenizer :=
  {| cls_token_id := 0; eos_token_id := 0; pad_token_id := 0;
     unk_token_id := 0 |}.

(** an object holding only the heads' attributes *)
Definition heads : gmap string (BgeM3.value Z) :=
  BgeM3.setattr
    (BgeM3.setattr
       (BgeM3.setattr
          (BgeM3.setattr ∅ "sparse_linear" (BgeM3.VLinear id_linear))
          "colbert_linear" (BgeM3.VLinear id_linear))
       "vocab_size" (BgeM3.VInt 2))
    "tokenizer" (BgeM3.VTokenizer zero_tokenizer).

End Small.

(** ** Further concrete inputs *)

Module Cases.

(** two heads over an attention dimension of three *)
Definition uneven_config : BgeConfig Z := {|
  Config.word_size := 4;
  Config.embed_dim := 2;
  Config.position_size := 4;
  Config.layer_norm_eps := 1;
  Config.attn_dim := 3;
  Config.attn_output_dim := 2;
  Config.attn_layer_norm_eps := 1;
  Config.num_heads := 2;
  Config.hidden_size := 3;
  Config.ffn_layer_norm_eps := 1;
  Config.dropout_prob := 0;
  Config.num_of_attn_layers := 1
|}.


(** an object with the sparse projection and [vocab_size], no tokenizer *)
Definition no_tokenizer : gmap string (BgeM3.value Z) :=
  BgeM3.setattr
    (BgeM3.setattr ∅ "sparse_linear" (BgeM3.VLinear Small.id_linear))
    "vocab_size" (BgeM3.VInt 2).

End Cases.

(** ** The two heads on floats

    Rocq's primitive floats are the IEEE-754 binary64 numbers, the format
    of a torch tensor of dtype float64 (the default dtype is binary32,
    with the same special values and the same rules for them).  They have
    sums, products, quotients, square roots and comparisons, which is all
    the sparse and the multi-vector head use. *)

Module Binary64.
Import PrimFloat.

#[global] Instance float_scalar : Scalar float := {|
  fzero := 0%float; fone := 1%float;
  fadd := add; fsub := sub; fmul := mul; fdiv := div;
  fsqrt := sqrt;
  fleb := leb;
  (* exact up to 2^53, rounded to nearest beyond *)
  of_Z := λ z, if (z <? 0)%Z then opp (of_uint63 (Uint63.of_Z (- z)))
               else of_uint63 (Uint63.of_Z z)
|}.

#[global] Instance float_isfinite : IsFinite float := is_finite.

(** a projection with one large weight, 2^600: [x, y] goes to
    [2^600 x, y] *)
Definition steep_linear : torch.Linear float :=
  {| torch.in_features := 2; torch.out_features := 2;
     torch.lin_weight := [[0x1p600; 0]; [0; 1]]%float;
     torch.lin_bias := [0; 0]%float |}.

(** an object holding the heads' attributes; the reserved ids all are 0 *)
Definition heads : gmap string (BgeM3.value float) :=
  BgeM3.setattr
    (BgeM3.setattr
       (BgeM3.setattr
          (BgeM3.setattr ∅ "sparse_linear" (BgeM3.VLinear steep_linear))
          "colbert_linear" (BgeM3.VLinear steep_linear))
       "vocab_size" (BgeM3.VInt 2))
    "tokenizer" (BgeM3.VTokenizer Small.zero_tokenizer).

(** hidden states of one sequence: a modest one, and one whose projection
    overflows (2^600 * 2^600 is beyond the largest float) *)
Definition modest1 : list (list (list float)) := [[[3; -2]]]%float.
Definition large1 : list (list (list float)) := [[[0x1p600; 0]]]%float.
Definition modest2 : list (list (list float)) := [[[9; 9]; [1; 2]]]%float.
Definition large2 : list (list (list float)) := [[[0; 0]; [0x1p600; 0]]]%float.

End Binary64.

(** * Properties *)

(** ** The two monads *)

Section monad_facts.
Context {A B : Type}.

Lemma mapM_Ok_fmap (f : A → result B) (g : A → B) (l : list A) :
  (∀ x, x ∈ l → f x = Ok (g x)) → mapM f l = Ok (g <$> l).
Proof.
  induction l as [|x l IH]; intros Hf; [done|].
  cbn. rewrite (Hf x) by left. cbn.
  rewrite IH; [done|]. intros y Hy. apply Hf. by right.
Qed.

Lemma mapM_Ok_inv (f : A → result B) (l : list A) (l' : list B) :
  mapM f l = Ok l' → Forall2 (λ x y, f x = Ok y) l l'.
Proof.
  revert l'. induction l as [|x l IH]; intros l' Hm; cbn in Hm.
  - injection Hm as <-. constructor.
  - destruct (f x) as [y|e] eqn:Hx; cbn in Hm; [|done].
    destruct (mapM f l) as [ys|e] eqn:Hl; cbn in Hm; [|done].
    injection Hm as <-. constructor; [done|]. by apply IH.
Qed.

Lemma mapM_Ok_Forall (f : A → result B) (Q : B → Prop) (l : list A) :
  Forall (λ a, ∃ b, f a = Ok b ∧ Q b) l →
  ∃ l', mapM f l = Ok l' ∧ length l' = length l ∧ Forall Q l'.
Proof.
  induction 1 as [|a l (b & Hb & HQ) _ (l' & Hl' & Hlen & HQl)].
  - exists []. by repeat split.
  - exists (b :: l'). cbn. rewrite Hb. cbn. rewrite Hl'. cbn.
    repeat split; [by f_equal | by constructor].
Qed.

End monad_facts.

Section rnd_facts.
Context {G : Type}.

Lemma generator_free_ret {A} (a : A) : generator_free (G := G) (rnd_ret a).
Proof. by exists (Ok a). Qed.

Lemma generator_free_lift {A} (r : result A) : generator_free (G := G) (lift r).
Proof. by exists r. Qed.

Lemma generator_free_bind {A B} (m : rnd G A) (k : A → rnd G B) :
  generator_free m → (∀ a, generator_free (k a)) →
  generator_free (rnd_bind m k).
Proof.
  intros [r Hm] Hk. destruct r as [a|e].
  - destruct (Hk a) as [r' Hr']. exists r'. intros g.
    unfold rnd_bind. by rewrite Hm.
  - exists (Err e). intros g. unfold rnd_bind. by rewrite Hm.
Qed.

Lemma generator_free_foldM {A B} (f : B → A → rnd G B) (l : list A) (b : B) :
  Forall (λ x, ∀ b', generator_free (f b' x)) l →
  generator_free (rnd_foldM f l b).
Proof.
  intros Hl. revert b. induction Hl as [|x l Hx Hl IH]; intros b; cbn.
  - apply generator_free_ret.
  - apply generator_free_bind; [apply Hx | apply IH].
Qed.

End rnd_facts.

Lemma rnd_bind_lift_Ok {G A B} (a : A) (k : A → rnd G B) (g : G) :
  rnd_bind (lift (Ok a)) k g = k a g.
Proof. reflexivity. Qed.

Lemma generator_free_bind_lift {G A B} (r : result A) (k : A → rnd G B) :
  (∀ a, r = Ok a → generator_free (k a)) →
  generator_free (rnd_bind (lift r) k).
Proof.
  intros Hk. destruct r as [a|e].
  - destruct (Hk a eq_refl) as [r' Hr']. by exists r'.
  - by exists (Err e).
Qed.

(** ** Attributes of a constructed model *)

Section attributes.
Context {F G : Type} `{Scalar F} `{Tr : Transcendental F} `{Generator G F}.
Implicit Types self : gmap string (BgeM3.value F).

Lemma init_lacks_vocab_size (config : BgeConfig F) (init : initializer F) :
  BgeM3.__init__ config init !! "vocab_size" = None.
Proof. unfold BgeM3.__init__, BgeM3.setattr. by simplify_map_eq. Qed.

Lemma init_lacks_tokenizer (config : BgeConfig F) (init : initializer F) :
  BgeM3.__init__ config init !! "tokenizer" = None.
Proof. unfold BgeM3.__init__, BgeM3.setattr. by simplify_map_eq. Qed.

(** Without [vocab_size] the sparse head stops at [torch.zeros]: it returns
    what the projection raised, or the attribute fault. *)
Lemma sparse_embedding_without_vocab_size self hidden_state input_ids :
  self !! "vocab_size" = None →
  (∃ tw, BgeM3._sparse_embedding self hidden_state input_ids false = Ok tw ∧
         BgeM3._sparse_embedding self hidden_state input_ids true
         = Err (AttributeError "vocab_size"))
  ∨ (∃ e, BgeM3._sparse_embedding self hidden_state input_ids false = Err e ∧
          BgeM3._sparse_embedding self hidden_state input_ids true = Err e).
Proof.
  intros Hv. unfold BgeM3._sparse_embedding.
  destruct (BgeM3.getattr self "sparse_linear" ≫= BgeM3.as_linear) as [sl|e];
    cbn; [|right; by exists e].
  destruct (torch.Linear_forward sl hidden_state) as [tw|e]; cbn;
    [|right; by exists e].
  left. eexists. split; [done|].
  unfold BgeM3.getattr. by rewrite Hv.
Qed.

Lemma forward_unfold self input_ids token_type_ids (g g' : G) out :
  BgeM3.encode self input_ids token_type_ids g = (Ok out, g') →
  BgeM3.forward self input_ids token_type_ids g =
    (dense ← torch.select0 out;
     sparse ← BgeM3._sparse_embedding self out input_ids true;
     colbert ← BgeM3._colbert_embedding self out input_ids;
     Ok (dense, sparse, colbert), g').
Proof.
  intros He. unfold BgeM3.forward, rnd_bind at 1. rewrite He.
  unfold rnd_bind, lift, rnd_ret.
  destruct (torch.select0 out) as [d|e]; cbn; [|done].
  destruct (BgeM3._sparse_embedding self out input_ids true) as [s|e]; cbn; [|done].
  by destruct (BgeM3._colbert_embedding self out input_ids) as [c|e].
Qed.

Lemma forward_encode_Err self input_ids token_type_ids (g g' : G) e :
  BgeM3.encode self input_ids token_type_ids g = (Err e, g') →
  BgeM3.forward self input_ids token_type_ids g = (Err e, g').
Proof. intros He. unfold BgeM3.forward, rnd_bind at 1. by rewrite He. Qed.

End attributes.

(** ** The forward pass of a constructed model *)

Section constructed.
Context {F G : Type} `{Scalar F} `{Tr : Transcendental F} `{Generator G F}.
Implicit Types self : gmap string (BgeM3.value F).

Lemma forward_without_vocab_size self input_ids token_type_ids (g : G) :
  self !! "vocab_size" = None →
  ¬ is_Ok (BgeM3.forward self input_ids token_type_ids g).1.
Proof.
  intros Hv [res Hres].
  destruct (BgeM3.encode self input_ids token_type_ids g) as [[out|e] g'] eqn:He.
  - rewrite (forward_unfold _ _ _ _ _ _ He) in Hres. cbn in Hres.
    destruct (torch.select0 out) as [d|e]; cbn in Hres; [|done].
    destruct (sparse_embedding_without_vocab_size self out input_ids Hv)
      as [(tw & _ & Hs)|(e & _ & Hs)]; by rewrite Hs in Hres.
  - by rewrite (forward_encode_Err _ _ _ _ _ _ He) in Hres.
Qed.

(** C2. Every call of [forward] on a constructed model that reaches the
    sparse head (the encoder returned [out], the pooling line passed and
    the sparse projection of [out] is well-shaped) raises
    [AttributeError] for [vocab_size]; no call at all returns a result.
    The sparse head reads [self.vocab_size] and [self.tokenizer], and
    [__init__] assigns neither. *)
Theorem forward_raises_attribute_fault
    (config : BgeConfig F) (init : initializer F)
    input_ids token_type_ids (g g' : G) out :
  let self := BgeM3.__init__ config init in
  BgeM3.encode self input_ids token_type_ids g = (Ok out, g') →
  is_Ok (torch.select0 out) →
  is_Ok (BgeM3._sparse_embedding self out input_ids false) →
  self !! "vocab_size" = None ∧ self !! "tokenizer" = None ∧
  BgeM3.forward self input_ids token_type_ids g
    = (Err (AttributeError "vocab_size"), g') ∧
  (∀ ids tys (g0 : G), ¬ is_Ok (BgeM3.forward self ids tys g0).1).
Proof.
  intros self He [d Hd] [tw Htw]. subst self.
  pose proof (init_lacks_vocab_size config init) as Hv.
  split; [done|]. split; [apply init_lacks_tokenizer|]. split.
  - rewrite (forward_unfold _ _ _ _ _ _ He), Hd. cbn.
    destruct (sparse_embedding_without_vocab_size _ out input_ids Hv)
      as [(tw' & _ & Hs)|(e & Hs & _)].
    + by rewrite Hs.
    + by rewrite Hs in Htw.
  - intros ids tys g0. by apply forward_without_vocab_size.
Qed.

(** a tensor of zeros of the shape of [x] is [zeros_like x] *)
Lemma zeros_like_unique (x y : list (list Z)) :
  Forall2 (λ r t, length t = length r) x y →
  Forall (Forall (λ i, i = 0)) y →
  y = torch.zeros_like x.
Proof.
  intros Hshape. induction Hshape as [|r t x y Hlen _ IH]; intros Hzero; [done|].
  apply Forall_cons in Hzero as [Ht Hy]. cbn. f_equal; [|by apply IH].
  clear IH Hy. revert t Hlen Ht.
  induction r as [|a r IH]; intros [|b t] Hlen Ht; try done.
  apply Forall_cons in Ht as [-> Ht]. cbn. f_equal. apply IH; [|done].
  by injection Hlen.
Qed.

(** C10. With the type ids absent, the embedding composer, and with it the
    whole forward pass, computes what it computes on any explicit type-id
    tensor that has the shape of the token ids and holds zeros only. *)
Theorem absent_type_ids_are_zeros (emb : BgeM3Embedding.t F) self
    (input_ids token_type_ids : list (list Z)) :
  Forall2 (λ r t, length t = length r) input_ids token_type_ids →
  Forall (Forall (λ i, i = 0)) token_type_ids →
  BgeM3Embedding.forward emb input_ids None
    = BgeM3Embedding.forward emb input_ids (Some token_type_ids)
  ∧ ∀ g : G,
      BgeM3.forward self input_ids None g
      = BgeM3.forward self input_ids (Some token_type_ids) g.
Proof.
  intros Hshape Hzero.
  rewrite (zeros_like_unique input_ids token_type_ids Hshape Hzero).
  split; [reflexivity|]. intros g. reflexivity.
Qed.

Lemma Dropout_forward_eval (d : torch.Dropout F) (x : list (list (list F))) :
  torch.training d = false →
  torch.Dropout_forward (G := G) d x = rnd_ret x.
Proof. intros Ht. unfold torch.Dropout_forward. by rewrite Ht. Qed.

Lemma FFN_forward_generator_free (ffn : FFN.t F) x :
  torch.training ffn.(FFN.output_dropout) = false →
  generator_free (FFN.forward (G := G) ffn x).
Proof.
  intros Ht. unfold FFN.forward.
  apply generator_free_bind_lift; intros out1 _.
  apply generator_free_bind_lift; intros out2 _.
  apply generator_free_bind_lift; intros out3 _.
  rewrite Dropout_forward_eval by done.
  apply generator_free_bind; [apply generator_free_ret|].
  intros out4. apply generator_free_lift.
Qed.

Lemma BgeAttention_forward_generator_free (l : BgeAttention.t F) x :
  torch.training l.(BgeAttention.ffn).(FFN.output_dropout) = false →
  generator_free (BgeAttention.forward (G := G) l x).
Proof.
  intros Ht. unfold BgeAttention.forward.
  apply generator_free_bind_lift; intros out _.
  by apply FFN_forward_generator_free.
Qed.

Lemma eval_inference_mode self : inference_mode (BgeM3.eval self).
Proof.
  intros ms. unfold BgeM3.eval. rewrite lookup_fmap.
  destruct (self !! "attentions") as [v|]; [|done]. cbn.
  destruct v; cbn; try done. intros [= <-].
  apply Forall_fmap, Forall_true. by intros l.
Qed.

(** C9. In inference mode the forward pass is a function of the model and
    its inputs: the result does not depend on the state of the random
    generator and the generator is left as it was, so a second call on the
    same inputs computes the same result (an exception included). *)
Theorem forward_deterministic self input_ids token_type_ids (g1 g2 : G) :
  inference_mode self →
  (BgeM3.forward self input_ids token_type_ids g1).1
    = (BgeM3.forward self input_ids token_type_ids g2).1
  ∧ (BgeM3.forward self input_ids token_type_ids g1).2 = g1.
Proof.
  intros Hinf.
  assert (generator_free (BgeM3.forward (G := G) self input_ids token_type_ids))
    as [r Hr].
  { unfold BgeM3.forward. apply generator_free_bind.
    - unfold BgeM3.encode.
      apply generator_free_bind_lift; intros emb _.
      apply generator_free_bind_lift; intros embed _.
      apply generator_free_bind_lift; intros ms Hms.
      apply generator_free_foldM.
      assert (self !! "attentions" = Some (BgeM3.VModuleList ms)) as Hl.
      { unfold BgeM3.getattr in Hms.
        destruct (self !! "attentions") as [v|]; [|done].
        destruct v; cbn in Hms; try done. by injection Hms as ->. }
      eapply Forall_impl; [apply (Hinf ms Hl)|].
      intros l Hl' b. by apply BgeAttention_forward_generator_free.
    - intros out.
      apply generator_free_bind_lift; intros d _.
      apply generator_free_bind_lift; intros s _.
      apply generator_free_bind_lift; intros c _.
      apply generator_free_ret. }
  by rewrite !Hr.
Qed.

End constructed.

(** ** Facts about the torch primitives *)

Section tensor_facts.
Context {F : Type} `{Scalar F} `{Tr : Transcendental F}.

Lemma map2_compose {A B C} (f : B → C) (g : A → B) (x : list (list A)) :
  torch.map2 f (torch.map2 g x) = torch.map2 (f ∘ g) x.
Proof.
  unfold torch.map2. rewrite <- list_fmap_compose.
  apply list_fmap_ext. intros _ m _. cbn. by rewrite <- list_fmap_compose.
Qed.

Lemma map3_as_map2 {A B} (f : A → B) (x : list (list (list A))) :
  torch.map3 f x = torch.map2 (fmap (M := list) f) x.
Proof. reflexivity. Qed.

Lemma Forall_map2 {A B} (P : B → Prop) (f : A → B) (x : list (list A)) :
  Forall (Forall (λ a, P (f a))) x → Forall (Forall P) (torch.map2 f x).
Proof.
  intros Hx. unfold torch.map2. apply Forall_fmap.
  eapply Forall_impl; [apply Hx|]. intros m Hm. cbn. by apply Forall_fmap.
Qed.

Lemma Forall_Forall_impl {A} (P Q : A → Prop) (x : list (list A)) :
  Forall (Forall P) x → (∀ a, P a → Q a) → Forall (Forall Q) x.
Proof.
  intros Hx HPQ. eapply Forall_impl; [apply Hx|].
  intros m Hm. eapply Forall_impl; [apply Hm|]. done.
Qed.

Lemma linear_vec_Ok (l : torch.Linear F) (x : list F) :
  length x = torch.in_features l → torch.linear_vec l x = Ok (torch.affine l x).
Proof. intros Hx. unfold torch.linear_vec. by rewrite decide_True. Qed.

Lemma Linear_forward_Ok (l : torch.Linear F) (x : list (list (list F))) :
  Forall (Forall (λ v, length v = torch.in_features l)) x →
  torch.Linear_forward l x = Ok (torch.map2 (torch.affine l) x).
Proof.
  intros Hx. unfold torch.Linear_forward, torch.map2.
  apply mapM_Ok_fmap. intros m Hm.
  apply mapM_Ok_fmap. intros v Hv. apply linear_vec_Ok.
  rewrite Forall_forall in Hx. specialize (Hx m Hm).
  rewrite Forall_forall in Hx. by apply Hx.
Qed.

Lemma length_affine (l : torch.Linear F) (x : list F) :
  wf_Linear l → length (torch.affine l x) = torch.out_features l.
Proof.
  intros [Hw Hb]. unfold torch.affine.
  rewrite length_zip_with, length_fmap. lia.
Qed.

Lemma layer_norm_vec_Ok (ln : torch.LayerNorm F) (x : list F) :
  length x = torch.normalized_shape ln →
  torch.layer_norm_vec ln x = Ok (torch.normalize ln x).
Proof. intros Hx. unfold torch.layer_norm_vec. by rewrite decide_True. Qed.

Lemma length_normalize (ln : torch.LayerNorm F) (x : list F) :
  wf_LayerNorm ln → length x = torch.normalized_shape ln →
  length (torch.normalize ln x) = torch.normalized_shape ln.
Proof.
  intros [Hw Hb] Hx. unfold torch.normalize.
  rewrite !length_zip_with, !length_fmap. lia.
Qed.

Lemma mapM_zip_fmap {A' B' A B C} (ha : A' → A) (hb : B' → B)
    (f : A → B → result C) (g : A' → B' → C) (xs : list A') (ys : list B') :
  (∀ i x y, xs !! i = Some x → ys !! i = Some y → f (ha x) (hb y) = Ok (g x y)) →
  mapM (λ p, f p.1 p.2) (zip (ha <$> xs) (hb <$> ys)) = Ok (zip_with g xs ys).
Proof.
  revert ys. induction xs as [|x xs IH]; intros [|y ys] Hf; try done.
  cbn. rewrite (Hf 0%nat x y) by done. cbn.
  rewrite (IH ys); [done|]. intros i x' y' Hx' Hy'. by apply (Hf (S i)).
Qed.

(** Two axes of the same size: the operator is applied entry by entry. *)
Lemma broadcast_zip_fmap {A' B' A B C} (ha : A' → A) (hb : B' → B)
    (f : A → B → result C) (g : A' → B' → C) (xs : list A') (ys : list B') :
  length xs = length ys →
  (∀ i x y, xs !! i = Some x → ys !! i = Some y → f (ha x) (hb y) = Ok (g x y)) →
  torch.broadcast f (ha <$> xs) (hb <$> ys) = Ok (zip_with g xs ys).
Proof.
  intros Hlen Hf. unfold torch.broadcast.
  rewrite decide_True by (by rewrite !length_fmap).
  by apply mapM_zip_fmap.
Qed.

Lemma broadcast_zip {A B C} (f : A → B → result C) (g : A → B → C)
    (xs : list A) (ys : list B) :
  length xs = length ys →
  (∀ i x y, xs !! i = Some x → ys !! i = Some y → f x y = Ok (g x y)) →
  torch.broadcast f xs ys = Ok (zip_with g xs ys).
Proof.
  intros Hlen Hf.
  rewrite <- (list_fmap_id xs) at 1. rewrite <- (list_fmap_id ys) at 1.
  by apply broadcast_zip_fmap.
Qed.

(** An axis of size one on the right is repeated along the left axis. *)
Lemma broadcast_singleton_r (f : F → F → F) (xs : list F) (y : F) :
  torch.broadcast (torch.lift2 f) xs [y] = Ok ((λ x, f x y) <$> xs).
Proof.
  unfold torch.broadcast. destruct (decide (length xs = length [y])) as [Hl|Hl].
  - destruct xs as [|x [|? ?]]; done.
  - destruct xs as [|x [|x' xs]]; [done|done|].
    by apply mapM_Ok_fmap.
Qed.

Lemma zip_with_const_r {A B C} (g : A → B → C) (g' : A → C)
    (xs : list A) (ys : list B) :
  length xs = length ys →
  (∀ i x y, xs !! i = Some x → ys !! i = Some y → g x y = g' x) →
  zip_with g xs ys = g' <$> xs.
Proof.
  revert ys. induction xs as [|x xs IH]; intros [|y ys] Hlen Hg; try done.
  cbn. rewrite (Hg 0%nat x y) by done. f_equal.
  apply IH; [by injection Hlen|]. intros i x' y' ? ?. by apply (Hg (S i)).
Qed.

(** a rectified value is zero, or the value itself, which then is not
    [<= 0]: positive, or NaN *)
Lemma relu_cases (x : F) :
  torch.relu x = fzero ∨ (torch.relu x = x ∧ fleb x fzero = false).
Proof. unfold torch.relu. destruct (fleb x fzero); [by left | by right]. Qed.

Lemma is_zero_nonneg (x : F) : is_zero x → nonneg x.
Proof.
  unfold is_zero, nonneg, feqb. intros Hx. by apply andb_prop in Hx as [_ ?].
Qed.

Lemma relu_finite_nonneg `{IsFinite F} `{!FloatLaws F} (x : F) :
  isfinite x = true →
  isfinite (torch.relu x) = true ∧ nonneg (torch.relu x).
Proof.
  intros Hx. unfold torch.relu, nonneg.
  destruct (fleb x fzero) eqn:Hle.
  - split; [apply isfinite_0 | apply fleb_0_0].
  - split; [done | by apply fleb_0_pos].
Qed.

End tensor_facts.

(** ** The position-wise transform block *)

Section ffn_facts.
Context {F G : Type} `{Scalar F} `{Tr : Transcendental F} `{Generator G F}.

Lemma init_wf_FFN (config : BgeConfig F) (init : initializer F) (layer : nat) :
  wf_FFN config.(Config.attn_output_dim) config.(Config.hidden_size)
         (FFN.__init__ config init layer).
Proof.
  unfold wf_FFN, wf_Linear, FFN.__init__. cbn.
  by rewrite !length_fmap, !length_seq.
Qed.

(** an operator applied to a tensor and to an image of the same tensor *)
Lemma broadcast_fmap_diag {A A' C} (h : A → A') (f : A' → A → result C)
    (g : A → C) (xs : list A) :
  (∀ x, x ∈ xs → f (h x) x = Ok (g x)) →
  torch.broadcast f (h <$> xs) xs = Ok (g <$> xs).
Proof.
  intros Hf. unfold torch.broadcast.
  rewrite decide_True by (by rewrite length_fmap).
  induction xs as [|x xs IH]; [done|].
  cbn. rewrite (Hf x) by left. cbn.
  rewrite IH; [done|]. intros y Hy. apply Hf. by right.
Qed.

(** the residual addition of a tensor to its own projection *)
Lemma add3_fmap_diag (h : list F → list F) (x : list (list (list F))) :
  Forall (Forall (λ v, length (h v) = length v)) x →
  torch.add3 (torch.map2 h x) x
  = Ok (torch.map2 (λ v, zip_with fadd (h v) v) x).
Proof.
  intros Hx. unfold torch.add3, torch.map2.
  apply broadcast_fmap_diag. intros m Hm.
  apply broadcast_fmap_diag. intros v Hv.
  apply broadcast_zip; [|done].
  rewrite Forall_forall in Hx. specialize (Hx m Hm).
  rewrite Forall_forall in Hx. by apply Hx.
Qed.

(** The block as a pipeline: the per-position residual, then dropout, then
    normalization. *)
Lemma FFN_forward_pipeline (o h : nat) (self : FFN.t F)
    (x : list (list (list F))) (g : G) :
  wf_FFN o h self →
  Forall (Forall (λ v, length v = o)) x →
  FFN.forward self x g
  = (d ⇐ torch.Dropout_forward self.(FFN.output_dropout)
           (torch.map2 (ffn_residual self) x) ;;
     lift (torch.LayerNorm_forward self.(FFN.LayerNorm) d))%rnd g.
Proof.
  intros (Hfc1 & Hfc2 & Hi1 & Ho1 & Hi2 & Ho2 & Hgelu) Hx.
  unfold FFN.forward.
  rewrite Linear_forward_Ok by (by rewrite Hi1).
  rewrite Hgelu. cbn [fmap result_fmap].
  rewrite rnd_bind_lift_Ok. cbv beta.
  rewrite !map3_as_map2, !map2_compose.
  rewrite Linear_forward_Ok; last first.
  { apply Forall_map2. eapply Forall_Forall_impl; [apply Hx|]. intros v Hv. cbn.
    rewrite !length_fmap, length_affine by done. congruence. }
  rewrite rnd_bind_lift_Ok. cbv beta. rewrite map2_compose.
  rewrite add3_fmap_diag; last first.
  { eapply Forall_Forall_impl; [apply Hx|]. intros v Hv. cbn.
    rewrite length_affine by done. congruence. }
  reflexivity.
Qed.

(** C8. On a (B,T,O) input the position-wise block computes, at every
    position, the projection O→H, ReLU, GELU on top of it, the projection
    H→O and the addition of the block's input; it then applies dropout to
    that tensor and layer normalization to the result of the dropout, and
    returns this one tensor.  In inference mode the dropout is the
    identity. *)
Theorem FFN_forward_stages (o h : nat) (self : FFN.t F)
    (x : list (list (list F))) (g : G) :
  wf_FFN o h self →
  Forall (Forall (λ v, length v = o)) x →
  let residual (v : list F) :=
    zip_with fadd
      (torch.affine self.(FFN.fc2)
         (fgelu <$> (torch.relu <$> torch.affine self.(FFN.fc1) v))) v in
  FFN.forward self x g
  = (d ⇐ torch.Dropout_forward self.(FFN.output_dropout)
           (torch.map2 residual x) ;;
     lift (torch.LayerNorm_forward self.(FFN.LayerNorm) d))%rnd g
  ∧ (torch.training self.(FFN.output_dropout) = false →
     FFN.forward self x g
     = (torch.LayerNorm_forward self.(FFN.LayerNorm) (torch.map2 residual x),
        g)).
Proof.
  intros Hwf Hx residual.
  assert (residual = ffn_residual self) as -> by reflexivity.
  pose proof (FFN_forward_pipeline o h self x g Hwf Hx) as Hstages.
  split; [done|]. intros Ht. rewrite Hstages.
  unfold rnd_bind. rewrite Dropout_forward_eval by done. done.
Qed.

End ffn_facts.

(** ** The multi-vector head *)

Section colbert_facts.
Context {F : Type} `{Scalar F} `{Tr : Transcendental F}.
Implicit Types self : gmap string (BgeM3.value F).

Lemma tail1_shape {A} (P : A → Prop) (x : list (list A)) :
  Forall (Forall P) x → Forall (Forall P) (torch.tail1 x).
Proof.
  intros Hx. unfold torch.tail1. apply Forall_fmap.
  eapply Forall_impl; [apply Hx|]. intros m Hm. cbn. by apply Forall_drop.
Qed.

(** The head multiplies the projection of every position but the first by
    the float of that position's mask entry. *)
Lemma colbert_embedding_spec {A} `{ToFloat A F} self (cl : torch.Linear F)
    (last_hidden_state : list (list (list F))) (mask : list (list A)) :
  self !! "colbert_linear" = Some (BgeM3.VLinear cl) →
  Forall (Forall (λ v, length v = torch.in_features cl)) last_hidden_state →
  Forall2 (λ h m, length h = length m) last_hidden_state mask →
  BgeM3._colbert_embedding self last_hidden_state mask
  = Ok (zip_with
          (zip_with (λ v a, (λ x, fmul x (to_float a)) <$> torch.affine cl v))
          (torch.tail1 last_hidden_state) (torch.tail1 mask)).
Proof.
  intros Hcl Hshape Hmask. unfold BgeM3._colbert_embedding, BgeM3.getattr.
  rewrite Hcl. cbn.
  rewrite Linear_forward_Ok by (by apply tail1_shape). cbn.
  unfold torch.mul3, torch.map3, torch.unsqueeze_last, torch.map2.
  rewrite <- !list_fmap_compose.
  apply broadcast_zip_fmap.
  { unfold torch.tail1. rewrite !length_fmap. by eapply Forall2_length. }
  intros i hm mm Hhm Hmm. cbn.
  rewrite <- !list_fmap_compose.
  apply broadcast_zip_fmap.
  { unfold torch.tail1 in Hhm, Hmm.
    rewrite list_lookup_fmap in Hhm. rewrite list_lookup_fmap in Hmm.
    destruct (last_hidden_state !! i) as [h0|] eqn:Hh0; [|done].
    destruct (mask !! i) as [m0|] eqn:Hm0; [|done].
    cbn in Hhm, Hmm. injection Hhm as <-. injection Hmm as <-.
    rewrite !length_drop.
    by rewrite (Forall2_lookup_lr _ _ _ _ _ _ Hmask Hh0 Hm0). }
  intros j v a _ _. cbn. apply broadcast_singleton_r.
Qed.

End colbert_facts.

Section colbert_masks.
Context {F : Type} `{Scalar F} `{IsFinite F} `{!FloatLaws F}.
Implicit Types self : gmap string (BgeM3.value F).

Lemma length_tail1 {A} (x : list (list A)) : length (torch.tail1 x) = length x.
Proof. unfold torch.tail1. by rewrite length_fmap. Qed.

Lemma tail1_lookup {A} (x : list (list A)) (i : nat) (r : list A) :
  torch.tail1 x !! i = Some r → ∃ r0, x !! i = Some r0 ∧ r = drop 1 r0.
Proof.
  unfold torch.tail1. rewrite list_lookup_fmap.
  destruct (x !! i) as [r0|]; [|done]. intros [= <-]. by exists r0.
Qed.

(** a mask whose entries all convert to [f0] leaves a function of the
    position alone *)
Lemma zip_with_mask_const {A} `{ToFloat A F} (f0 : F)
    (g : list F → F → list F)
    (hidden : list (list (list F))) (mask : list (list A)) :
  Forall2 (λ h m, length h = length m) hidden mask →
  Forall (Forall (λ a, to_float a = f0)) mask →
  zip_with (zip_with (λ v a, g v (to_float a)))
           (torch.tail1 hidden) (torch.tail1 mask)
  = torch.map2 (λ v, g v f0) (torch.tail1 hidden).
Proof.
  intros Hlen Hmask. unfold torch.map2.
  apply zip_with_const_r.
  { rewrite !length_tail1. by eapply Forall2_length. }
  intros i hm mm Hhm Hmm.
  destruct (tail1_lookup _ _ _ Hhm) as (h0 & Hh0 & ->).
  destruct (tail1_lookup _ _ _ Hmm) as (m0 & Hm0 & ->).
  apply zip_with_const_r.
  { rewrite !length_drop. by rewrite (Forall2_lookup_lr _ _ _ _ _ _ Hlen Hh0 Hm0). }
  intros j v b _ Hb. cbn. f_equal.
  rewrite Forall_lookup in Hmask. specialize (Hmask i m0 Hm0).
  rewrite Forall_lookup in Hmask.
  rewrite lookup_drop in Hb. by apply (Hmask _ _ Hb).
Qed.

(** C6. On a (B,T,E) hidden state and a (B,T) mask of any element type,
    the multi-vector head returns a (B,T-1,O) tensor.  When every mask
    entry converts to 0 and the projections of positions 1..T-1 are
    finite, every entry of the result is a zero; when every mask entry
    converts to 1, the result is the affine projection of positions
    1..T-1, unchanged. *)
Theorem colbert_embedding_constant_mask {A} `{ToFloat A F} self
    (cl : torch.Linear F)
    (last_hidden_state : list (list (list F))) (mask : list (list A)) :
  self !! "colbert_linear" = Some (BgeM3.VLinear cl) →
  wf_Linear cl →
  Forall (Forall (λ v, length v = torch.in_features cl)) last_hidden_state →
  Forall2 (λ h m, length h = length m) last_hidden_state mask →
  (Forall (Forall (λ a, to_float a = fzero)) mask →
   Forall (Forall (λ v, Forall (λ w, isfinite w = true) (torch.affine cl v)))
          (torch.tail1 last_hidden_state) →
   ∃ c,
     BgeM3._colbert_embedding self last_hidden_state mask = Ok c
     ∧ Forall2 (λ h row,
                  length row = (length h - 1)%nat
                  ∧ Forall (λ v, length v = torch.out_features cl
                                 ∧ Forall is_zero v) row)
               last_hidden_state c)
  ∧ (Forall (Forall (λ a, to_float a = fone)) mask →
     BgeM3._colbert_embedding self last_hidden_state mask
     = Ok (torch.map2 (torch.affine cl) (torch.tail1 last_hidden_state))
     ∧ torch.Linear_forward cl (torch.tail1 last_hidden_state)
       = Ok (torch.map2 (torch.affine cl) (torch.tail1 last_hidden_state))).
Proof.
  intros Hcl Hwf Hshape Hlen.
  pose proof (colbert_embedding_spec self cl last_hidden_state mask
                Hcl Hshape Hlen) as Hspec.
  split; intros Hmask.
  - intros Hfin.
    exists (torch.map2 (λ v, (λ x, fmul x fzero) <$> torch.affine cl v)
              (torch.tail1 last_hidden_state)).
    split.
    { rewrite Hspec. f_equal.
      by apply (zip_with_mask_const fzero
                  (λ v f, (λ x, fmul x f) <$> torch.affine cl v)). }
    apply Forall2_same_length_lookup. split.
    { unfold torch.map2. by rewrite length_fmap, length_tail1. }
    intros b h row Hh Hrow. unfold torch.map2, torch.tail1 in Hrow.
    rewrite !list_lookup_fmap, Hh in Hrow. cbn in Hrow. injection Hrow as <-.
    split; [by rewrite length_fmap, length_drop|].
    apply Forall_fmap, Forall_lookup. intros t v Hv. cbn.
    split; [by rewrite length_fmap, length_affine|].
    apply Forall_fmap.
    rewrite Forall_lookup in Hfin.
    specialize (Hfin b (drop 1 h)). unfold torch.tail1 in Hfin.
    rewrite list_lookup_fmap, Hh in Hfin. specialize (Hfin eq_refl).
    rewrite Forall_lookup in Hfin. specialize (Hfin t v Hv).
    eapply Forall_impl; [apply Hfin|]. intros w Hw. cbn.
    by apply fmul_0_r.
  - split; [|by apply Linear_forward_Ok, tail1_shape].
    rewrite Hspec. f_equal.
    rewrite (zip_with_mask_const fone
               (λ v f, (λ x, fmul x f) <$> torch.affine cl v)) by done.
    unfold torch.map2. apply list_fmap_ext. intros _ m _.
    apply list_fmap_ext. intros _ v _. cbn.
    generalize (torch.affine cl v). intros l.
    induction l as [|a l IH]; [done|]. cbn. by rewrite fmul_1_r, IH.
Qed.

End colbert_masks.

(** ** The dense head *)

Section dense.
Context {F G : Type} `{Scalar F} `{Tr : Transcendental F} `{Generator G F}.
Implicit Types self : gmap string (BgeM3.value F).

Lemma select0_Ok {A} (x : list (list A)) :
  Forall (λ m, m ≠ []) x →
  ∃ d, torch.select0 x = Ok d ∧ Forall2 (λ v m, m !! 0%nat = Some v) d x.
Proof.
  induction 1 as [|m x Hm Hx (d & Hd & Hdx)].
  - exists []. split; [done | constructor].
  - destruct m as [|v m]; [done|]. exists (v :: d). split.
    + unfold torch.select0 in *. cbn. by rewrite Hd.
    + by constructor.
Qed.

End dense.

(** ** The sparse head *)

Section scatter_facts.
Context {F : Type} `{Scalar F} `{Tr : Transcendental F}.

Lemma scatter_axis_replicate {X I V} (f : X → I → V → result X) (x0 : X)
    (g : I → V → X) (n : nat) (index : list I) (src : list V) :
  n = length index → length index = length src →
  (∀ k i s, index !! k = Some i → src !! k = Some s → f x0 i s = Ok (g i s)) →
  torch.scatter_axis f (replicate n x0) index src = Ok (zip_with g index src).
Proof.
  intros -> Hlen. revert src Hlen.
  induction index as [|i index IH]; intros [|s src] Hlen Hf; try done.
  cbn. rewrite (Hf 0%nat i s) by done. cbn.
  rewrite IH; [done | by injection Hlen |].
  intros k i' s' Hi' Hs'. by apply (Hf (S k)).
Qed.

Lemma size1_shape2 {A} (t_len : nat) (x : list (list A)) (r : list A) :
  shape2 t_len x → r ∈ x → torch.size1 x = length r.
Proof.
  intros Hx Hr. unfold shape2 in Hx. rewrite Forall_forall in Hx.
  rewrite (Hx r Hr). destruct x as [|r0 x]; [by apply elem_of_nil in Hr|].
  cbn. apply Hx. by left.
Qed.

(** What the scatter step computes: row (b,t) of the result is the zero
    vector with entry [input_ids[b,t]] overwritten by entry 0 of
    [token_weights[b,t]]. *)
Lemma scatter_step_spec (vocab_size t_len : nat) (input_ids : list (list Z))
    (token_weights : list (list (list F))) :
  shape2 t_len input_ids →
  Forall (Forall (λ i, 0 ≤ i < Z.of_nat vocab_size)) input_ids →
  Forall2 (λ r m, length r = length m ∧ Forall (λ v : list F, v ≠ []) m)
          input_ids token_weights →
  BgeM3.scatter_step vocab_size input_ids token_weights
  = Ok (zip_with
          (zip_with (λ i v, <[Z.to_nat i := default fzero (head v)]>
                              (torch.zeros vocab_size)))
          input_ids token_weights).
Proof.
  intros Hshape Hrange Htw.
  unfold BgeM3.scatter_step, torch.scatter, torch.unsqueeze_last, torch.map2.
  rewrite (scatter_axis_replicate _ _
    (λ idx m, zip_with (λ (i : list Z) v,
       match i with
       | [i0] => <[Z.to_nat i0 := default fzero (head v)]> (torch.zeros vocab_size)
       | _ => torch.zeros vocab_size
       end) idx m)).
  - f_equal. rewrite zip_with_fmap_l.
    apply zip_with_ext; [|done..]. intros r m. by rewrite zip_with_fmap_l.
  - by rewrite length_fmap.
  - rewrite length_fmap. by eapply Forall2_length.
  - intros b idx m Hidx Hm.
    rewrite list_lookup_fmap in Hidx.
    destruct (input_ids !! b) as [r|] eqn:Hr; [|done]. injection Hidx as <-.
    destruct (Forall2_lookup_lr _ _ _ _ _ _ Htw Hr Hm) as [Hlen Hne].
    apply scatter_axis_replicate.
    + rewrite length_fmap. apply (size1_shape2 t_len); [done|].
      by eapply list_elem_of_lookup_2.
    + by rewrite length_fmap.
    + intros t i v Hi Hv. rewrite list_lookup_fmap in Hi.
      destruct (r !! t) as [i0|] eqn:Hi0; [|done]. injection Hi as <-.
      rewrite Forall_lookup in Hne. specialize (Hne t v Hv).
      destruct v as [|s v]; [done|]. cbn.
      rewrite Forall_lookup in Hrange. specialize (Hrange b r Hr).
      rewrite Forall_lookup in Hrange. specialize (Hrange t i0 Hi0).
      unfold torch.zeros. rewrite length_replicate.
      by rewrite decide_True.
Qed.

End scatter_facts.

Section sparse_facts.
Context {F : Type} `{Scalar F} `{Tr : Transcendental F}.
Implicit Types self : gmap string (BgeM3.value F).
Implicit Types P : F → Prop.

Lemma row_of_zeros P (v : nat) : P fzero → row_of P v (torch.zeros v).
Proof.
  intros H0. split; [apply length_replicate | by apply Forall_replicate].
Qed.

Lemma row_of_insert P (v i : nat) (row : list F) (s : F) :
  row_of P v row → P s → row_of P v (<[i := s]> row).
Proof.
  intros [Hlen Hrow] Hs. split; [by rewrite length_insert|].
  destruct (decide (i < length row)%nat) as [Hi|Hi].
  - by apply Forall_insert.
  - by rewrite list_insert_ge by lia.
Qed.

Lemma fmax_cases P (a b : F) : P a → P b → P (torch.fmax a b).
Proof.
  intros Ha Hb. unfold torch.fmax. by destruct (fleb b b), (fleb a b).
Qed.

Lemma row_of_fmax P (v : nat) (a b : list F) :
  row_of P v a → row_of P v b → row_of P v (zip_with torch.fmax a b).
Proof.
  intros [Hla Ha] [Hlb Hb]. split; [rewrite length_zip_with; lia|].
  clear Hla Hlb. revert b Hb.
  induction Ha as [|x a Hx Ha IH]; intros b Hb; [constructor|].
  destruct Hb as [|y b Hy Hb]; [constructor|]. cbn.
  constructor; [by apply fmax_cases | by apply IH].
Qed.

Lemma max_rows_row_of P (v : nat) (rows : list (list F)) :
  rows ≠ [] → Forall (row_of P v) rows →
  ∃ r, torch.max_rows rows = Ok r ∧ row_of P v r.
Proof.
  intros Hne Hrows. destruct Hrows as [|r rs Hr Hrs]; [done|].
  exists (foldl (zip_with torch.fmax) r rs). split; [done|].
  clear Hne. revert r Hr. induction Hrs as [|r' rs Hr' Hrs IH]; intros r Hr.
  - done.
  - cbn. apply IH. by apply row_of_fmax.
Qed.

Lemma row_of_foldl_insert P (v : nat) (c : nat → F) (unused : list nat)
    (acc : list F) :
  (∀ i, P (c i)) → row_of P v acc →
  row_of P v (foldl (λ r i, <[i := c i]> r) acc unused).
Proof.
  intros Hc. revert acc.
  induction unused as [|i unused IH]; intros acc Hacc; [done|].
  cbn. apply IH. by apply row_of_insert.
Qed.

Lemma row_of_mul_zero_at P (v : nat) (unused : list nat) (row : list F) :
  (∀ x, P (fmul x fzero)) →
  row_of P v row → row_of P v (BgeM3.mul_zero_at unused row).
Proof.
  intros Hmul Hrow. unfold BgeM3.mul_zero_at.
  by apply (row_of_foldl_insert P v
              (λ i, fmul (default fzero (row !! i)) fzero)).
Qed.

Lemma length_mul_zero_at (unused : list nat) (row : list F) :
  length (BgeM3.mul_zero_at unused row) = length row.
Proof.
  destruct (row_of_mul_zero_at (λ _, True) (length row) unused row)
    as [Hlen _]; [done| |done].
  split; [done | by apply Forall_true].
Qed.

(** [x[idx] = c] for every index of a list: the entries at the listed
    indices are overwritten, the others kept *)
Lemma foldl_insert_lookup (c : nat → F) (l : list nat) (acc : list F)
    (i : nat) :
  foldl (λ r j, <[j := c j]> r) acc l !! i
  = if decide (i ∈ l) then (λ _, c i) <$> acc !! i else acc !! i.
Proof.
  revert acc. induction l as [|j l IH]; intros acc; cbn.
  - rewrite decide_False; [done|]. apply not_elem_of_nil.
  - rewrite IH.
    assert ((λ _, c i) <$> <[j := c j]> acc !! i = (λ _ : F, c i) <$> acc !! i)
      as Hsame.
    { destruct (decide (j = i)) as [->|Hne].
      - destruct (decide (i < length acc)%nat) as [Hlt|Hge].
        + rewrite list_lookup_insert_eq by done.
          by destruct (lookup_lt_is_Some_2 acc i Hlt) as [y ->].
        + by rewrite list_insert_ge by lia.
      - by rewrite list_lookup_insert_ne. }
    destruct (decide (i ∈ l)) as [Hin|Hout].
    + rewrite decide_True by (by right). done.
    + destruct (decide (j = i)) as [->|Hne].
      * rewrite decide_True by (by left).
        destruct (decide (i < length acc)%nat) as [Hlt|Hge].
        -- rewrite list_lookup_insert_eq by done.
           by destruct (lookup_lt_is_Some_2 acc i Hlt) as [y ->].
        -- rewrite list_insert_ge by lia.
           by rewrite (lookup_ge_None_2 acc i) by lia.
      * rewrite decide_False.
        -- by rewrite list_lookup_insert_ne.
        -- intros Hin. apply elem_of_cons in Hin as [->|Hin]; done.
Qed.

(** the row after [x[:, unused] *= 0.]: a listed entry is its old value
    times zero, every other entry is kept *)
Lemma mul_zero_at_lookup (unused : list nat) (row : list F) (i : nat) :
  BgeM3.mul_zero_at unused row !! i
  = if decide (i ∈ unused) then (λ y, fmul y fzero) <$> row !! i
    else row !! i.
Proof.
  unfold BgeM3.mul_zero_at.
  rewrite (foldl_insert_lookup (λ j, fmul (default fzero (row !! j)) fzero)).
  destruct (decide (i ∈ unused)); [|done]. by destruct (row !! i).
Qed.

(** the reserved ids and the indices they are normalized to *)
Lemma unused_index (vocab_size : nat) (ids : list Z) (unused : list nat)
    (i : nat) :
  Forall2 (λ r j, torch.norm_index vocab_size r = Ok j) ids unused →
  i ∈ unused ↔ ∃ r, r ∈ ids ∧ torch.norm_index vocab_size r = Ok i.
Proof.
  intros Hun. split.
  - intros Hi. apply list_elem_of_lookup in Hi as [k Hk].
    destruct (Forall2_lookup_r _ _ _ _ _ Hun Hk) as (r & Hr & Hri).
    exists r. split; [by eapply list_elem_of_lookup_2 | done].
  - intros (r & Hr & Hri). apply list_elem_of_lookup in Hr as [k Hk].
    destruct (Forall2_lookup_l _ _ _ _ _ Hun Hk) as (j & Hj & Hrj).
    rewrite Hri in Hrj. injection Hrj as <-.
    by eapply list_elem_of_lookup_2.
Qed.

Lemma norm_index_lt (n : nat) (r : Z) (i : nat) :
  torch.norm_index n r = Ok i → (i < n)%nat.
Proof.
  unfold torch.norm_index. repeat case_decide; intros [= <-]; lia.
Qed.

Lemma norm_index_Ok (n : nat) (r : Z) :
  - Z.of_nat n ≤ r < Z.of_nat n → ∃ i, torch.norm_index n r = Ok i.
Proof.
  intros Hr. unfold torch.norm_index.
  destruct (decide (0 ≤ r < Z.of_nat n)); [by eexists|].
  rewrite decide_True by lia. by eexists.
Qed.

(** the rows the scatter step builds from weights that satisfy [P] *)
Lemma scattered_rows P (vocab_size t_len : nat)
    (input_ids : list (list Z)) (tw : list (list (list F))) :
  P fzero → (0 < t_len)%nat → shape2 t_len input_ids →
  Forall2 (λ r m, length r = length m) input_ids tw →
  Forall (Forall (Forall P)) tw →
  Forall (λ rows, rows ≠ [] ∧ Forall (row_of P vocab_size) rows)
    (zip_with
       (zip_with (λ i v, <[Z.to_nat i := default fzero (head v)]>
                           (torch.zeros vocab_size)))
       input_ids tw).
Proof.
  intros H0 Ht Hshape Hlen Htw. apply Forall_lookup. intros b rows Hrows.
  apply lookup_zip_with_Some in Hrows as (r & m & -> & Hr & Hm).
  pose proof (Forall2_lookup_lr _ _ _ _ _ _ Hlen Hr Hm) as Hrm.
  cbn beta in Hrm. unfold shape2 in Hshape. rewrite Forall_lookup in Hshape.
  specialize (Hshape b r Hr).
  split.
  - intros Hnil. apply (f_equal length) in Hnil.
    rewrite length_zip_with in Hnil. cbn in Hnil. lia.
  - apply Forall_lookup. intros t row Hrow.
    apply lookup_zip_with_Some in Hrow as (i & v & -> & Hi & Hv).
    apply row_of_insert; [by apply row_of_zeros|].
    rewrite Forall_lookup in Htw. specialize (Htw b m Hm).
    rewrite Forall_lookup in Htw. specialize (Htw t v Hv).
    by destruct Htw as [|x v Hx _].
Qed.

(** Up to the scatter the head needs [vocab_size] only; [tokenizer] is
    read next, before the maximum is taken. *)
Lemma sparse_embedding_scattered self (sl : torch.Linear F)
    (vocab_size t_len : nat)
    (hidden_state : list (list (list F))) (input_ids : list (list Z)) :
  self !! "sparse_linear" = Some (BgeM3.VLinear sl) →
  self !! "vocab_size" = Some (BgeM3.VInt (Z.of_nat vocab_size)) →
  wf_Linear sl → (0 < torch.out_features sl)%nat →
  shape3 t_len (torch.in_features sl) hidden_state →
  shape2 t_len input_ids →
  length input_ids = length hidden_state →
  Forall (Forall (λ i, 0 ≤ i < Z.of_nat vocab_size)) input_ids →
  BgeM3._sparse_embedding self hidden_state input_ids true
  = (tokenizer ← BgeM3.getattr self "tokenizer" ≫= BgeM3.as_tokenizer;
     maxed ← mapM torch.max_rows
              (zip_with
                 (zip_with (λ i v, <[Z.to_nat i := default fzero (head v)]>
                                     (torch.zeros vocab_size)))
                 input_ids (token_weights_of sl hidden_state));
     unused ← mapM (torch.norm_index vocab_size) (BgeM3.unused_tokens tokenizer);
     Ok (inr (BgeM3.mul_zero_at unused <$> maxed)))
  ∧ Forall2 (λ (r : list Z) (m : list (list F)), length r = length m)
            input_ids (token_weights_of sl hidden_state).
Proof.
  intros Hsl Hvs Hwf Hout Hhid Hids Hlen Hrange.
  set (tw := token_weights_of sl hidden_state).
  (* the token weights *)
  assert (torch.map3 torch.relu <$> torch.Linear_forward sl hidden_state = Ok tw)
    as Htw.
  { rewrite Linear_forward_Ok.
    - cbn. by rewrite map3_as_map2, map2_compose.
    - eapply Forall_impl; [apply Hhid|]. by intros m [_ Hm]. }
  assert (Forall2 (λ (r : list Z) (m : list (list F)), length r = length m)
                  input_ids tw) as Hlens.
  { apply Forall2_same_length_lookup. split.
    - unfold tw, token_weights_of, torch.map2. by rewrite length_fmap.
    - intros b r m Hr Hm. unfold tw, token_weights_of, torch.map2 in Hm.
      rewrite list_lookup_fmap in Hm.
      destruct (hidden_state !! b) as [m0|] eqn:Hm0; [|done].
      injection Hm as <-. rewrite length_fmap.
      unfold shape3 in Hhid. rewrite Forall_lookup in Hhid.
      destruct (Hhid b m0 Hm0) as [-> _].
      unfold shape2 in Hids. rewrite Forall_lookup in Hids.
      by apply (Hids b r). }
  split; [|done].
  assert (Forall (Forall (λ v : list F, length v = torch.out_features sl)) tw)
    as Htwlen.
  { unfold tw, token_weights_of. apply Forall_map2.
    eapply Forall_Forall_impl with (P := λ _, True).
    - apply Forall_true. intros m. by apply Forall_true.
    - intros v _. by rewrite length_fmap, length_affine. }
  (* the scatter step *)
  assert (BgeM3.scatter_step vocab_size input_ids tw
          = Ok (zip_with
                  (zip_with (λ i v, <[Z.to_nat i := default fzero (head v)]>
                                      (torch.zeros vocab_size)))
                  input_ids tw)) as Hscatter.
  { apply (scatter_step_spec vocab_size t_len); [done..|].
    apply Forall2_same_length_lookup. split; [by eapply Forall2_length|].
    intros b r m Hr Hm. split.
    - by apply (Forall2_lookup_lr _ _ _ _ _ _ Hlens Hr Hm).
    - rewrite Forall_lookup in Htwlen. specialize (Htwlen b m Hm).
      eapply Forall_impl; [apply Htwlen|]. intros v Hv ->. cbn in Hv. lia. }
  unfold BgeM3._sparse_embedding, BgeM3.getattr.
  rewrite Hsl. cbn [mbind result_bind BgeM3.as_linear]. rewrite Htw.
  cbn [mbind result_bind negb]. rewrite Hvs.
  cbn [mbind result_bind BgeM3.as_size].
  rewrite decide_True by lia. rewrite Nat2Z.id.
  cbn [mbind result_bind]. rewrite Hscatter.
  cbn [mbind result_bind]. done.
Qed.

(** The sparse head up to the scatter, once its attributes are in place:
    what is left is the maximum over the sequence and the reserved
    entries. *)
Lemma sparse_embedding_unfold self (sl : torch.Linear F)
    (vocab_size t_len : nat) (tk : Tokenizer)
    (hidden_state : list (list (list F))) (input_ids : list (list Z)) :
  self !! "sparse_linear" = Some (BgeM3.VLinear sl) →
  self !! "vocab_size" = Some (BgeM3.VInt (Z.of_nat vocab_size)) →
  self !! "tokenizer" = Some (BgeM3.VTokenizer tk) →
  wf_Linear sl → (0 < torch.out_features sl)%nat →
  shape3 t_len (torch.in_features sl) hidden_state →
  shape2 t_len input_ids →
  length input_ids = length hidden_state →
  Forall (Forall (λ i, 0 ≤ i < Z.of_nat vocab_size)) input_ids →
  BgeM3._sparse_embedding self hidden_state input_ids true
  = (maxed ← mapM torch.max_rows
              (zip_with
                 (zip_with (λ i v, <[Z.to_nat i := default fzero (head v)]>
                                     (torch.zeros vocab_size)))
                 input_ids (token_weights_of sl hidden_state));
     unused ← mapM (torch.norm_index vocab_size) (BgeM3.unused_tokens tk);
     Ok (inr (BgeM3.mul_zero_at unused <$> maxed)))
  ∧ Forall2 (λ (r : list Z) (m : list (list F)), length r = length m)
            input_ids (token_weights_of sl hidden_state).
Proof.
  intros Hsl Hvs Htk Hwf Hout Hhid Hids Hlen Hrange.
  destruct (sparse_embedding_scattered self sl vocab_size t_len hidden_state
              input_ids Hsl Hvs Hwf Hout Hhid Hids Hlen Hrange) as [-> Hlens].
  split; [|done].
  unfold BgeM3.getattr. rewrite Htk.
  cbn [mbind result_bind BgeM3.as_tokenizer]. done.
Qed.

(** The path of the sparse head once its attributes are in place: the
    rectified weights, the scatter, the maximum over the sequence, the
    reserved entries multiplied by zero.  [P] is any property of scalars
    that zero and the rectified values have. *)
Lemma sparse_embedding_path P self (sl : torch.Linear F)
    (vocab_size t_len : nat) (tk : Tokenizer)
    (hidden_state : list (list (list F))) (input_ids : list (list Z)) :
  P fzero → Forall (Forall (Forall P)) (token_weights_of sl hidden_state) →
  self !! "sparse_linear" = Some (BgeM3.VLinear sl) →
  self !! "vocab_size" = Some (BgeM3.VInt (Z.of_nat vocab_size)) →
  self !! "tokenizer" = Some (BgeM3.VTokenizer tk) →
  wf_Linear sl → (0 < torch.out_features sl)%nat → (0 < t_len)%nat →
  shape3 t_len (torch.in_features sl) hidden_state →
  shape2 t_len input_ids →
  length input_ids = length hidden_state →
  Forall (Forall (λ i, 0 ≤ i < Z.of_nat vocab_size)) input_ids →
  Forall (λ r, - Z.of_nat vocab_size ≤ r < Z.of_nat vocab_size)
         (BgeM3.unused_tokens tk) →
  ∃ maxed unused,
    BgeM3._sparse_embedding self hidden_state input_ids true
      = Ok (inr (BgeM3.mul_zero_at unused <$> maxed))
    ∧ length maxed = length input_ids
    ∧ Forall (row_of P vocab_size) maxed
    ∧ Forall2 (λ r i, torch.norm_index vocab_size r = Ok i)
              (BgeM3.unused_tokens tk) unused.
Proof.
  intros H0 HtwP Hsl Hvs Htk Hwf Hout Ht Hhid Hids Hlen Hrange Hres.
  destruct (sparse_embedding_unfold self sl vocab_size t_len tk hidden_state
              input_ids) as [Hrun Hlens]; [done..|].
  set (tw := token_weights_of sl hidden_state) in *.
  (* the maximum over the sequence axis *)
  destruct (mapM_Ok_Forall torch.max_rows (row_of P vocab_size)
              (zip_with
                 (zip_with (λ i v, <[Z.to_nat i := default fzero (head v)]>
                                     (torch.zeros vocab_size)))
                 input_ids tw))
    as (maxed & Hmax & Hmaxlen & Hmaxrows).
  { eapply Forall_impl;
      [apply (scattered_rows P vocab_size t_len); done|].
    intros rows [Hne Hrows]. by apply max_rows_row_of. }
  (* the reserved indices *)
  destruct (mapM_Ok_Forall (torch.norm_index vocab_size) (λ _, True)
              (BgeM3.unused_tokens tk)) as (unused & Hunused & _ & _).
  { eapply Forall_impl; [apply Hres|]. intros r Hr.
    destruct (norm_index_Ok vocab_size r Hr) as [i Hi]. by exists i. }
  exists maxed, unused. split; [|split; [|split]].
  - rewrite Hrun, Hmax. cbn [mbind result_bind]. by rewrite Hunused.
  - rewrite Hmaxlen, length_zip_with.
    apply Forall2_length in Hlens. lia.
  - done.
  - by apply mapM_Ok_inv.
Qed.

End sparse_facts.

Section sparse_head.
Context {F : Type} `{Scalar F} `{IsFinite F} `{!FloatLaws F}.
Implicit Types self : gmap string (BgeM3.value F).

(** C4. With the attributes the sparse head reads in place, a (B,T,E)
    hidden state with T >= 1 whose projected weights are finite, and
    token ids within the vocabulary, the sparse head returns a (B,V)
    tensor; each of its entries is non-negative, and the entries at the
    class, end, pad and unknown token ids are zero. *)
Theorem sparse_embedding_nonneg_and_masked self (sl : torch.Linear F)
    (vocab_size t_len : nat) (tk : Tokenizer)
    (hidden_state : list (list (list F))) (input_ids : list (list Z)) :
  self !! "sparse_linear" = Some (BgeM3.VLinear sl) →
  self !! "vocab_size" = Some (BgeM3.VInt (Z.of_nat vocab_size)) →
  self !! "tokenizer" = Some (BgeM3.VTokenizer tk) →
  wf_Linear sl → (0 < torch.out_features sl)%nat → (0 < t_len)%nat →
  shape3 t_len (torch.in_features sl) hidden_state →
  shape2 t_len input_ids →
  length input_ids = length hidden_state →
  Forall (Forall (λ i, 0 ≤ i < Z.of_nat vocab_size)) input_ids →
  Forall (λ r, - Z.of_nat vocab_size ≤ r < Z.of_nat vocab_size)
         (reserved_ids tk) →
  Forall (Forall (λ h, Forall (λ w, isfinite w = true) (torch.affine sl h)))
         hidden_state →
  ∃ sparse,
    BgeM3._sparse_embedding self hidden_state input_ids true = Ok (inr sparse)
    ∧ length sparse = length input_ids
    ∧ Forall (λ row,
        length row = vocab_size
        ∧ Forall nonneg row
        ∧ ∀ r, r ∈ reserved_ids tk →
               ∃ i x, torch.norm_index vocab_size r = Ok i
                      ∧ row !! i = Some x ∧ is_zero x) sparse.
Proof.
  intros Hsl Hvs Htk Hwf Hout Ht Hhid Hids Hlen Hrange Hres Hfin.
  set (P := λ y : F, isfinite y = true ∧ nonneg y).
  destruct (sparse_embedding_path P self sl vocab_size t_len tk
              hidden_state input_ids)
    as (maxed & unused & Hrun & Hmaxlen & Hmaxrows & Hunused); try done.
  { split; [apply isfinite_0 | apply fleb_0_0]. }
  { unfold token_weights_of. apply Forall_map2.
    eapply Forall_impl; [apply Hfin|]. intros m Hm.
    eapply Forall_impl; [apply Hm|]. intros h Hh. cbn.
    apply Forall_fmap. eapply Forall_impl; [apply Hh|].
    intros w Hw. by apply relu_finite_nonneg. }
  exists (BgeM3.mul_zero_at unused <$> maxed). split; [done|]. split.
  { by rewrite length_fmap. }
  apply Forall_fmap. eapply Forall_impl; [apply Hmaxrows|].
  intros row [Hrowlen Hrow]. cbn.
  assert (∀ i y, row !! i = Some y → is_zero (fmul y fzero)) as Hzero.
  { intros i y Hy. rewrite Forall_lookup in Hrow.
    destruct (Hrow i y Hy) as [Hy' _]. by apply fmul_0_r. }
  split; [by rewrite length_mul_zero_at|]. split.
  - apply Forall_lookup. intros i x. rewrite mul_zero_at_lookup.
    destruct (decide (i ∈ unused)).
    + destruct (row !! i) as [y|] eqn:Hy; [|done]. intros [= <-].
      by eapply is_zero_nonneg, Hzero.
    + intros Hx. rewrite Forall_lookup in Hrow. by destruct (Hrow i x Hx).
  - intros r Hr.
    destruct (norm_index_Ok vocab_size r) as [i Hi].
    { rewrite Forall_forall in Hres. by apply Hres. }
    assert (i ∈ unused) as Hin.
    { apply (unused_index vocab_size (BgeM3.unused_tokens tk)); [done|].
      by exists r. }
    destruct (lookup_lt_is_Some_2 row i) as [y Hy].
    { rewrite Hrowlen. by eapply norm_index_lt. }
    exists i, (fmul y fzero). split; [done|]. split; [|by eapply Hzero].
    rewrite mul_zero_at_lookup, decide_True by done. by rewrite Hy.
Qed.

End sparse_head.

(** ** Shapes through the encoder *)

Section shape_facts.
Context {F : Type} `{Scalar F} `{Tr : Transcendental F}.

Lemma shape3_length {A} (t_len e : nat) (x : list (list (list A))) m :
  shape3 t_len e x → m ∈ x → length m = t_len.
Proof.
  intros Hx Hm. unfold shape3 in Hx. rewrite Forall_forall in Hx.
  by destruct (Hx m Hm).
Qed.

Lemma shape3_rows {A} (t_len e : nat) (x : list (list (list A))) :
  shape3 t_len e x → Forall (Forall (λ v, length v = e)) x.
Proof. intros Hx. eapply Forall_impl; [apply Hx|]. by intros m [_ Hm]. Qed.

Lemma shape3_map2 {A B} (t_len e e' : nat) (f : list A → list B)
    (x : list (list (list A))) :
  shape3 t_len e x → (∀ v, length v = e → length (f v) = e') →
  shape3 t_len e' (torch.map2 f x).
Proof.
  intros Hx Hf. unfold shape3, torch.map2. apply Forall_fmap.
  eapply Forall_impl; [apply Hx|]. intros m [Hlen Hm]. cbn.
  split; [by rewrite length_fmap|]. apply Forall_fmap.
  eapply Forall_impl; [apply Hm|]. intros v Hv. by apply Hf.
Qed.

Lemma length_map2 {A B} (f : A → B) (x : list (list A)) :
  length (torch.map2 f x) = length x.
Proof. unfold torch.map2. by rewrite length_fmap. Qed.

Lemma LayerNorm_forward_Ok (ln : torch.LayerNorm F) (x : list (list (list F))) :
  Forall (Forall (λ v, length v = torch.normalized_shape ln)) x →
  torch.LayerNorm_forward ln x = Ok (torch.map2 (torch.normalize ln) x).
Proof.
  intros Hx. unfold torch.LayerNorm_forward, torch.map2.
  apply mapM_Ok_fmap. intros m Hm.
  apply mapM_Ok_fmap. intros v Hv. apply layer_norm_vec_Ok.
  rewrite Forall_forall in Hx. specialize (Hx m Hm).
  rewrite Forall_forall in Hx. by apply Hx.
Qed.

Lemma LayerNorm_forward_shape (t_len dim : nat) (ln : torch.LayerNorm F)
    (x : list (list (list F))) :
  norm_over dim ln → shape3 t_len dim x →
  ∃ y, torch.LayerNorm_forward ln x = Ok y ∧ length y = length x
       ∧ shape3 t_len dim y.
Proof.
  intros [Hwf Hdim] Hx. exists (torch.map2 (torch.normalize ln) x).
  split; [|split].
  - apply LayerNorm_forward_Ok. rewrite Hdim. by eapply shape3_rows.
  - apply length_map2.
  - eapply shape3_map2; [done|]. intros v Hv.
    rewrite length_normalize; [done..|congruence].
Qed.

Lemma Linear_forward_shape (t_len n_in n_out : nat) (l : torch.Linear F)
    (x : list (list (list F))) :
  linear_maps n_in n_out l → shape3 t_len n_in x →
  torch.Linear_forward l x = Ok (torch.map2 (torch.affine l) x)
  ∧ shape3 t_len n_out (torch.map2 (torch.affine l) x).
Proof.
  intros (Hwf & Hin & Hout) Hx. split.
  - apply Linear_forward_Ok. rewrite Hin. by eapply shape3_rows.
  - eapply shape3_map2; [done|]. intros v _. by rewrite length_affine.
Qed.

(** broadcasting two tensors whose axes agree or are of size one on the
    right *)
Lemma broadcast_shape {A B C} (f : A → B → result C)
    (P : A → Prop) (Q : B → Prop) (R : C → Prop) (xs : list A) (ys : list B) :
  Forall P xs → Forall Q ys →
  length ys = length xs ∨ length ys = 1%nat →
  (∀ x y, P x → Q y → ∃ z, f x y = Ok z ∧ R z) →
  ∃ zs, torch.broadcast f xs ys = Ok zs ∧ length zs = length xs ∧ Forall R zs.
Proof.
  intros HP HQ Hlen Hf. unfold torch.broadcast.
  destruct (decide (length xs = length ys)) as [Heq|Hne].
  - clear Hlen. revert ys HQ Heq.
    induction HP as [|x xs Hx HP IH]; intros [|y ys] HQ Heq; try done.
    + exists []. by repeat split.
    + apply Forall_cons in HQ as [Hy HQ].
      destruct (Hf x y Hx Hy) as (z & Hz & HRz).
      destruct (IH ys HQ) as (zs & Hzs & Hl & HRzs); [by injection Heq|].
      exists (z :: zs). cbn. rewrite Hz. cbn. rewrite Hzs. cbn.
      repeat split; [by f_equal | by constructor].
  - destruct Hlen as [Hlen|Hlen]; [lia|].
    destruct ys as [|y [|? ?]]; try done.
    apply Forall_cons in HQ as [Hy _].
    assert (∃ zs, mapM (λ x, f x y) xs = Ok zs ∧ length zs = length xs
                  ∧ Forall R zs) as Hmap.
    { apply mapM_Ok_Forall. eapply Forall_impl; [apply HP|].
      intros x Hx. by apply Hf. }
    destruct xs as [|x [|x' xs]]; [done| cbn in Hne; lia |done].
Qed.

Lemma add3_shape (t_len e : nat) (x y : list (list (list F))) :
  shape3 t_len e x → shape3 t_len e y →
  length y = length x ∨ length y = 1%nat →
  ∃ z, torch.add3 x y = Ok z ∧ length z = length x ∧ shape3 t_len e z.
Proof.
  intros Hx Hy Hlen. unfold torch.add3.
  apply (broadcast_shape _ _ _ _ x y Hx Hy Hlen).
  intros m m' [Hm Hmv] [Hm' Hmv'].
  destruct (broadcast_shape (torch.broadcast (torch.lift2 fadd))
              (λ v : list F, length v = e) (λ v : list F, length v = e)
              (λ v : list F, length v = e) m m' Hmv Hmv')
    as (z & Hz & Hlz & Hzv).
  { left. congruence. }
  { intros v v' Hv Hv'.
    destruct (broadcast_shape (torch.lift2 fadd) (λ _, True) (λ _, True)
                (λ _, True) v v') as (w & Hw & Hlw & _).
    - by apply Forall_true.
    - by apply Forall_true.
    - left. congruence.
    - intros a b _ _. by eexists.
    - exists w. split; [done | congruence]. }
  exists z. split; [done|]. split; [congruence | done].
Qed.

Lemma embedding_row_Ok (num dim : nat) (e : torch.Embedding F) (i : Z) :
  wf_Embedding num dim e → 0 ≤ i < Z.of_nat num →
  ∃ row, torch.embedding_row e i = Ok row ∧ length row = dim.
Proof.
  intros [Hnum Hrows] Hi. unfold torch.embedding_row.
  rewrite decide_True by lia.
  destruct (torch.emb_weight e !! Z.to_nat i) as [row|] eqn:Hrow.
  - exists row. split; [done|].
    rewrite Forall_lookup in Hrows. by apply (Hrows _ _ Hrow).
  - apply lookup_ge_None in Hrow. lia.
Qed.

Lemma Embedding_forward_shape (num dim t_len : nat) (e : torch.Embedding F)
    (ids : list (list Z)) :
  wf_Embedding num dim e → shape2 t_len ids →
  Forall (Forall (λ i, 0 ≤ i < Z.of_nat num)) ids →
  ∃ x, torch.Embedding_forward e ids = Ok x ∧ length x = length ids
       ∧ shape3 t_len dim x.
Proof.
  intros Hwf Hshape Hrange. unfold torch.Embedding_forward.
  apply mapM_Ok_Forall. apply Forall_lookup. intros b r Hr.
  unfold shape2 in Hshape. rewrite Forall_lookup in Hshape.
  rewrite Forall_lookup in Hrange.
  destruct (mapM_Ok_Forall (torch.embedding_row e) (λ v, length v = dim) r)
    as (m & Hm & Hlen & Hrows).
  { eapply Forall_impl; [apply (Hrange b r Hr)|]. intros i Hi.
    by apply (embedding_row_Ok num). }
  exists m. split; [done|]. split; [|done].
  rewrite Hlen. by apply (Hshape b r).
Qed.

Lemma arange_range (n p : nat) :
  (n ≤ p)%nat → Forall (λ i, 0 ≤ i < Z.of_nat p) (torch.arange n).
Proof.
  intros Hn. unfold torch.arange. apply Forall_fmap, Forall_forall.
  intros i Hi. apply elem_of_seq in Hi. cbn. lia.
Qed.

Lemma length_arange (n : nat) : length (torch.arange n) = n.
Proof. unfold torch.arange. by rewrite length_fmap, length_seq. Qed.

Lemma zeros_like_shape (t_len : nat) (ids : list (list Z)) :
  shape2 t_len ids →
  shape2 t_len (torch.zeros_like ids)
  ∧ length (torch.zeros_like ids) = length ids
  ∧ Forall (Forall (λ i, 0 ≤ i < Z.of_nat 1)) (torch.zeros_like ids).
Proof.
  intros Hids. unfold torch.zeros_like, torch.map2, shape2. split; [|split].
  - apply Forall_fmap. eapply Forall_impl; [apply Hids|].
    intros r Hr. cbn. by rewrite length_fmap.
  - by rewrite length_fmap.
  - apply Forall_fmap, Forall_true. intros r. cbn.
    apply Forall_fmap, Forall_true. intros i. cbn. lia.
Qed.

(** The embedding composer returns a (B,T,E) tensor. *)
Lemma BgeM3Embedding_forward_shape (config : BgeConfig F) (t_len : nat)
    (emb : BgeM3Embedding.t F) (input_ids : list (list Z))
    (token_type_ids : option (list (list Z))) :
  wf_BgeM3Embedding config emb →
  valid_input config t_len input_ids token_type_ids →
  ∃ embed,
    BgeM3Embedding.forward emb input_ids token_type_ids = Ok embed
    ∧ length embed = length input_ids
    ∧ shape3 t_len config.(Config.embed_dim) embed.
Proof.
  intros (Hword & Hpos & Htype & Hln) (Ht & Hshape & Hrange & Htys).
  assert (BgeM3Embedding.forward emb input_ids token_type_ids
          = BgeM3Embedding.forward emb input_ids None) as ->.
  { by destruct Htys as [->| ->]. }
  unfold BgeM3Embedding.forward.
  destruct (Embedding_forward_shape _ _ t_len _ input_ids Hword Hshape Hrange)
    as (word_embed & -> & Hwl & Hws).
  cbn [mbind result_bind].
  assert (torch.size1 input_ids = t_len ∨ input_ids = []) as Hsize.
  { destruct input_ids as [|r ids]; [by right|]. left. cbn.
    unfold shape2 in Hshape. by apply Forall_cons in Hshape as [-> _]. }
  destruct (Embedding_forward_shape _ _ (torch.size1 input_ids)
              emb.(BgeM3Embedding.position_embedding)
              [torch.arange (torch.size1 input_ids)] Hpos)
    as (position_embed & -> & Hpl & Hps).
  { repeat constructor. apply length_arange. }
  { repeat constructor. apply arange_range.
    destruct Hsize as [-> | ->]; cbn; lia. }
  cbn [mbind result_bind].
  destruct (zeros_like_shape t_len input_ids Hshape) as (Hzs & Hzl & Hzr).
  destruct (Embedding_forward_shape _ _ t_len _ _ Htype Hzs Hzr)
    as (token_type_embed & -> & Htl & Hts).
  cbn [mbind result_bind].
  destruct Hsize as [Hsize | ->].
  - rewrite Hsize in Hps.
    destruct (add3_shape t_len _ word_embed position_embed Hws Hps)
      as (s & -> & Hsl & Hss); [right; by rewrite Hpl|].
    cbn [mbind result_bind].
    destruct (add3_shape t_len _ s token_type_embed Hss Hts)
      as (embed & -> & Hel & Hes); [left; congruence|].
    cbn [mbind result_bind].
    destruct (LayerNorm_forward_shape t_len _ _ embed Hln Hes)
      as (y & -> & Hyl & Hys).
    exists y. split; [done|]. split; [congruence | done].
  - (* an empty batch *)
    destruct word_embed; [|done]. destruct token_type_embed; [|done].
    destruct position_embed as [|pe [|? ?]]; try done.
    exists []. by repeat split.
Qed.

Lemma length_chunks (n hd : nat) (v : list F) :
  length (torch.chunks n hd v) = n.
Proof. revert v. induction n as [|n IH]; intros v; cbn; [done | by rewrite IH]. Qed.

Lemma length_column {A} (c : nat) (m : list (list A)) :
  Forall (λ row, (c < length row)%nat) m →
  length (torch.column c m) = length m.
Proof.
  unfold torch.column. induction 1 as [|row m Hrow _ IH]; [done|].
  cbn. destruct (lookup_lt_is_Some_2 row c Hrow) as [a ->]. cbn. by rewrite IH.
Qed.

Lemma Forall_column {A} (P : A → Prop) (c : nat) (m : list (list A)) :
  Forall (Forall P) m → Forall P (torch.column c m).
Proof.
  unfold torch.column. induction 1 as [|row m Hrow _ IH]; [constructor|].
  cbn. destruct (row !! c) as [a|] eqn:Ha; cbn; [|done].
  constructor; [|done]. rewrite Forall_lookup in Hrow. by apply (Hrow c).
Qed.

Lemma length_transpose {A} (cols : nat) (m : list (list A)) :
  length (torch.transpose cols m) = cols.
Proof. unfold torch.transpose. by rewrite length_fmap, length_seq. Qed.

Lemma transpose_shape {A} (P : A → Prop) (cols : nat) (m : list (list A)) :
  Forall (λ row, length row = cols ∧ Forall P row) m →
  Forall (λ col, length col = length m ∧ Forall P col) (torch.transpose cols m).
Proof.
  intros Hm. unfold torch.transpose. apply Forall_fmap, Forall_forall.
  intros c Hc. apply elem_of_seq in Hc. cbn. split.
  - apply length_column. eapply Forall_impl; [apply Hm|].
    intros row [Hrow _]. cbn in Hrow. lia.
  - apply Forall_column. eapply Forall_impl; [apply Hm|]. by intros row [_ ?].
Qed.

Lemma length_concat_uniform {A} (k : nat) (ls : list (list A)) :
  Forall (λ l, length l = k) ls → length (concat ls) = (length ls * k)%nat.
Proof.
  induction 1 as [|l ls Hl _ IH]; [done|].
  cbn. rewrite length_app, IH, Hl. lia.
Qed.

Lemma matmul_shape (cols : nat) (a b : list (list F)) :
  length (torch.matmul cols a b) = length a
  ∧ Forall (λ row, length row = cols) (torch.matmul cols a b).
Proof.
  unfold torch.matmul. split; [by rewrite length_fmap|].
  apply Forall_fmap, Forall_true. intros ai. cbn.
  by rewrite length_fmap, length_seq.
Qed.

Lemma zip_fmap_diag {A B C} (f : A → B) (g : A → C) (l : list A) :
  zip (f <$> l) (g <$> l) = (λ a, (f a, g a)) <$> l.
Proof. induction l as [|a l IH]; [done|]. cbn. by rewrite IH. Qed.

Lemma project_Ok (t_len n_in n hd : nat) (lin : torch.Linear F)
    (x : list (list (list F))) :
  linear_maps n_in (n * hd) lin → shape3 t_len n_in x →
  MultiHeadSelfAttention.project lin n hd x = Ok (heads_of lin n hd <$> x).
Proof.
  intros Hlin Hx. unfold MultiHeadSelfAttention.project.
  destruct (Linear_forward_shape t_len _ _ lin x Hlin Hx) as [-> Hy].
  cbn [mbind result_bind].
  rewrite (mapM_Ok_fmap _ (fmap (M := list) (torch.chunks n hd))).
  - cbn [mbind result_bind]. f_equal. unfold torch.map2, heads_of.
    rewrite <- !list_fmap_compose. apply list_fmap_ext. intros _ m _. cbn.
    by rewrite <- list_fmap_compose.
  - intros m Hm. apply mapM_Ok_fmap. intros v Hv.
    unfold torch.view_heads. rewrite decide_True; [done|].
    apply shape3_rows in Hy. rewrite Forall_forall in Hy.
    specialize (Hy m Hm). rewrite Forall_forall in Hy. by apply Hy.
Qed.

Lemma heads_of_shape (lin : torch.Linear F) (n hd : nat) (m : list (list F)) :
  Forall (λ head : list (list F), length head = length m)
         (heads_of lin n hd m)
  ∧ length (heads_of lin n hd m) = n.
Proof.
  unfold heads_of. split; [|apply length_transpose].
  eapply Forall_impl.
  - apply (transpose_shape (λ _, True)). apply Forall_fmap, Forall_true.
    intros v. cbn. split; [apply length_chunks | by apply Forall_true].
  - intros col [Hcol _]. cbn in Hcol. by rewrite length_fmap in Hcol.
Qed.

Lemma attend_shape (t_len hd : nat) (qh kh vh : list (list F)) :
  length (MultiHeadSelfAttention.attend t_len hd qh kh vh) = length qh
  ∧ Forall (λ row, length row = hd)
           (MultiHeadSelfAttention.attend t_len hd qh kh vh).
Proof.
  unfold MultiHeadSelfAttention.attend.
  destruct (matmul_shape hd
    (torch.softmax <$> torch.map2 (λ a, fdiv a (fsqrt (of_Z (Z.of_nat hd))))
       (torch.matmul t_len qh (torch.transpose hd kh))) vh) as [Hl Hr].
  split; [|done]. rewrite Hl, length_fmap, length_map2.
  by destruct (matmul_shape t_len qh (torch.transpose hd kh)).
Qed.

Lemma attend_batch_shape (t_len n hd : nat) (qb kb vb : list (list (list F))) :
  length qb = n → length kb = n → length vb = n →
  Forall (λ head, length head = t_len) qb →
  length (MultiHeadSelfAttention.attend_batch t_len hd (qb, kb, vb)) = t_len
  ∧ Forall (λ row, length row = (n * hd)%nat)
           (MultiHeadSelfAttention.attend_batch t_len hd (qb, kb, vb)).
Proof.
  intros Hq Hk Hv Hheads. unfold MultiHeadSelfAttention.attend_batch.
  set (heads := (λ h : list (list F) * list (list F) * list (list F),
                   MultiHeadSelfAttention.attend t_len hd h.1.1 h.1.2 h.2)
                <$> zip (zip qb kb) vb).
  assert (length heads = n) as Hn.
  { unfold heads. rewrite length_fmap, !length_zip. lia. }
  assert (Forall (λ head, length head = t_len
                          ∧ Forall (λ row : list F, length row = hd) head)
                 heads) as Hshape.
  { unfold heads. apply Forall_fmap, Forall_lookup. intros i [[qh kh] vh] Hi.
    unfold compose. cbn [fst snd].
    destruct (attend_shape t_len hd qh kh vh) as [Hl Hr].
    split; [|done]. rewrite Hl.
    apply lookup_zip_with_Some in Hi as (qk & vh' & [= <- <-] & Hqk & _).
    apply lookup_zip_with_Some in Hqk as (qh' & kh' & [= <- <-] & Hqh & _).
    rewrite Forall_lookup in Hheads. by apply (Hheads i). }
  split; [by rewrite length_fmap, length_transpose|].
  apply Forall_fmap.
  eapply Forall_impl; [apply (transpose_shape _ _ _ Hshape)|].
  intros col [Hcol Hrows]. cbn.
  rewrite (length_concat_uniform hd) by done. by rewrite Hcol, Hn.
Qed.

Lemma size1_shape3 {A} (t_len e : nat) (x : list (list (list A))) :
  shape3 t_len e x → x ≠ [] → torch.size1 x = t_len.
Proof.
  intros Hx Hne. destruct x as [|b x]; [done|]. cbn.
  apply (shape3_length t_len e (b :: x) b Hx). by left.
Qed.

(** the number of elements of a tensor that has some *)
Lemma numel_pos (b t_len a : nat) :
  b ≠ 0%nat → (0 < t_len)%nat → (0 < a)%nat → (b * t_len * a)%nat ≠ 0%nat.
Proof.
  intros Hb Ht Ha. apply Nat.neq_mul_0. split; [|lia].
  apply Nat.neq_mul_0. split; [done | lia].
Qed.

(** The self-attention block maps a (B,T,E) tensor with elements to a
    (B,T,O) tensor. *)
Lemma MultiHeadSelfAttention_forward_shape (config : BgeConfig F)
    (t_len : nat) (m : MultiHeadSelfAttention.t F) (x : list (list (list F))) :
  valid_config config → wf_MultiHeadSelfAttention config m →
  (0 < config.(Config.attn_dim))%nat → (0 < t_len)%nat → x ≠ [] →
  shape3 t_len config.(Config.embed_dim) x →
  ∃ y, MultiHeadSelfAttention.forward m x = Ok y ∧ length y = length x
       ∧ shape3 t_len config.(Config.attn_output_dim) y.
Proof.
  intros (Hn & Hdiv & _ & _) (Ha & Hnh & Hq & Hk & Hv & Ho & Hln)
         Hpos Ht Hne Hx.
  unfold MultiHeadSelfAttention.forward. rewrite Ha, Hnh.
  unfold MultiHeadSelfAttention.floordiv. rewrite decide_False by lia.
  cbn [mbind result_bind].
  set (n := config.(Config.num_heads)) in *.
  set (hd := (config.(Config.attn_dim) / n)%nat) in *.
  rewrite Hdiv in Hq, Hk, Hv.
  rewrite (project_Ok t_len _ _ _ _ x Hq Hx). cbn [mbind result_bind].
  rewrite (project_Ok t_len _ _ _ _ x Hk Hx). cbn [mbind result_bind].
  rewrite (project_Ok t_len _ _ _ _ x Hv Hx). cbn [mbind result_bind].
  rewrite !zip_fmap_diag, <- list_fmap_compose.
  set (out := _ <$> x).
  assert (length out = length x) as Hlen by (unfold out; by rewrite length_fmap).
  unfold torch.view_infer. rewrite decide_False.
  2:{ rewrite (size1_shape3 t_len _ x Hx Hne), <- Hdiv.
      apply numel_pos; [by destruct x | done..]. }
  cbn [mbind result_bind].
  assert (shape3 t_len config.(Config.attn_dim) out) as Hout.
  { unfold out, shape3. apply Forall_fmap, Forall_forall. intros b Hb. cbn.
    assert (torch.size1 x = t_len) as ->.
    { destruct x as [|b0 x]; [by apply elem_of_nil in Hb|]. cbn.
      apply (shape3_length t_len _ (b0 :: x) b0 Hx). by left. }
    pose proof (shape3_length _ _ _ _ Hx Hb) as Hbl.
    destruct (heads_of_shape m.(MultiHeadSelfAttention.q) n hd b) as [Hqh Hql].
    destruct (heads_of_shape m.(MultiHeadSelfAttention.k) n hd b) as [_ Hkl].
    destruct (heads_of_shape m.(MultiHeadSelfAttention.v) n hd b) as [_ Hvl].
    rewrite Hbl in Hqh.
    destruct (attend_batch_shape t_len n hd _ _ _ Hql Hkl Hvl Hqh) as [Hl Hr].
    split; [done|]. by rewrite Hdiv. }
  destruct (Linear_forward_shape t_len _ _ _ out Ho Hout) as [-> Hy].
  cbn [mbind result_bind].
  destruct (LayerNorm_forward_shape t_len _ _ _ Hln Hy) as (y & -> & Hyl & Hys).
  exists y. split; [done|]. split; [|done].
  by rewrite Hyl, length_map2.
Qed.

End shape_facts.

Section layer_shapes.
Context {F G : Type} `{Scalar F} `{Tr : Transcendental F} `{Generator G F}.
Implicit Types self : gmap string (BgeM3.value F).

Lemma rnd_mapM_Forall {A B} (f : A → rnd G B) (P : A → Prop) (Q : B → Prop)
    (l : list A) :
  Forall P l →
  (∀ x g, P x → ∃ y g', f x g = (Ok y, g') ∧ Q y) →
  ∀ g, ∃ l' g', rnd_mapM f l g = (Ok l', g') ∧ length l' = length l
                ∧ Forall Q l'.
Proof.
  intros Hl Hf. induction Hl as [|x l Hx _ IH]; intros g.
  - exists [], g. by repeat split.
  - destruct (Hf x g Hx) as (y & g1 & Hy & HQ).
    destruct (IH g1) as (l' & g2 & Hl' & Hlen & HQl).
    exists (y :: l'), g2. cbn. unfold rnd_bind at 1. rewrite Hy.
    unfold rnd_bind at 1. rewrite Hl'. unfold rnd_ret.
    repeat split; [cbn; by f_equal | by constructor].
Qed.

Lemma Dropout_forward_shape (t_len e : nat) (d : torch.Dropout F)
    (x : list (list (list F))) (g : G) :
  shape3 t_len e x →
  ∃ y g', torch.Dropout_forward d x g = (Ok y, g') ∧ length y = length x
          ∧ shape3 t_len e y.
Proof.
  intros Hx. unfold torch.Dropout_forward. cbv zeta.
  destruct (negb (torch.training d) || feqb (torch.drop_p d) fzero);
    [by exists x, g|].
  destruct (feqb (torch.drop_p d) fone).
  { eexists _, g. split; [done|]. rewrite map3_as_map2.
    split; [by rewrite length_map2|].
    apply (shape3_map2 t_len e e); [done|]. intros v Hv.
    by rewrite length_fmap. }
  - apply (rnd_mapM_Forall _ _ _ _ Hx). clear g. intros m g [Hm Hrows].
    destruct (rnd_mapM_Forall
                (rnd_mapM (torch.dropout_elem (G := G) (torch.drop_p d)))
                (λ v, length v = e) (λ v, length v = e) m Hrows) with g
      as (m' & g' & Hm' & Hlen & Hrows').
    { clear g. intros v g Hv.
      destruct (rnd_mapM_Forall (torch.dropout_elem (G := G) (torch.drop_p d))
                  (λ _, True) (λ _, True) v) with g
        as (v' & g' & Hv' & Hlen & _).
      - by apply Forall_true.
      - clear g. intros a g _. unfold torch.dropout_elem.
        destruct (draw (fsub fone (torch.drop_p d)) g) as [keep g'].
        by eexists _, _.
      - exists v', g'. split; [done | congruence]. }
    exists m', g'. split; [done|]. split; [congruence | done].
Qed.

Lemma ffn_residual_length (o h : nat) (ffn : FFN.t F) (v : list F) :
  wf_FFN o h ffn → length v = o → length (ffn_residual ffn v) = o.
Proof.
  intros (Hfc1 & Hfc2 & Hi1 & Ho1 & Hi2 & Ho2 & Hgelu) Hv.
  unfold ffn_residual. rewrite length_zip_with, length_affine by done. lia.
Qed.

(** The position-wise block maps a (B,T,O) tensor to a (B,T,O) tensor, in
    training mode as well. *)
Lemma FFN_forward_shape (t_len o h : nat) (ffn : FFN.t F)
    (x : list (list (list F))) (g : G) :
  wf_FFN o h ffn → norm_over o ffn.(FFN.LayerNorm) → shape3 t_len o x →
  ∃ y g', FFN.forward ffn x g = (Ok y, g') ∧ length y = length x
          ∧ shape3 t_len o y.
Proof.
  intros Hwf Hln Hx.
  rewrite (FFN_forward_pipeline o h) by (done || by eapply shape3_rows).
  destruct (Dropout_forward_shape t_len o ffn.(FFN.output_dropout)
              (torch.map2 (ffn_residual ffn) x) g) as (d & g' & Hd & Hdl & Hds).
  { eapply shape3_map2; [done|]. intros v Hv. by eapply ffn_residual_length. }
  unfold rnd_bind. rewrite Hd.
  destruct (LayerNorm_forward_shape t_len o _ d Hln Hds) as (y & Hy & Hyl & Hys).
  exists y, g'. unfold lift. rewrite Hy. split; [done|]. split; [|done].
  by rewrite Hyl, Hdl, length_map2.
Qed.

Lemma BgeAttention_forward_shape (config : BgeConfig F) (t_len : nat)
    (l : BgeAttention.t F) (x : list (list (list F))) (g : G) :
  valid_config config → wf_BgeAttention config l →
  (0 < config.(Config.attn_dim))%nat → (0 < t_len)%nat → x ≠ [] →
  shape3 t_len config.(Config.embed_dim) x →
  ∃ y g', BgeAttention.forward l x g = (Ok y, g') ∧ length y = length x
          ∧ shape3 t_len config.(Config.embed_dim) y.
Proof.
  intros Hcfg (Hattn & Hffn & Hln) Hpos Ht Hne Hx.
  destruct (MultiHeadSelfAttention_forward_shape config t_len _ x Hcfg Hattn
              Hpos Ht Hne Hx) as (a & Ha & Hal & Has).
  unfold BgeAttention.forward. rewrite Ha, rnd_bind_lift_Ok.
  destruct (FFN_forward_shape t_len _ _ _ a g Hffn Hln Has)
    as (y & g' & Hy & Hyl & Hys).
  exists y, g'. split; [done|]. split; [congruence|].
  destruct Hcfg as (_ & _ & <- & _). done.
Qed.

Lemma layers_forward_shape (config : BgeConfig F) (t_len : nat)
    (ms : list (BgeAttention.t F)) (x : list (list (list F))) (g : G) :
  valid_config config → Forall (wf_BgeAttention config) ms →
  (0 < config.(Config.attn_dim))%nat → (0 < t_len)%nat → x ≠ [] →
  shape3 t_len config.(Config.embed_dim) x →
  ∃ y g',
    rnd_foldM (λ out attention, BgeAttention.forward attention out) ms x g
      = (Ok y, g')
    ∧ length y = length x ∧ shape3 t_len config.(Config.embed_dim) y.
Proof.
  intros Hcfg Hms Hpos Ht. revert x g.
  induction Hms as [|l ms Hl _ IH]; intros x g Hne Hx.
  - by exists x, g.
  - destruct (BgeAttention_forward_shape config t_len l x g Hcfg Hl
                Hpos Ht Hne Hx) as (y & g1 & Hy & Hyl & Hys).
    assert (y ≠ []) as Hyne.
    { intros ->. destruct x; [done | discriminate]. }
    destruct (IH y g1 Hyne Hys) as (z & g2 & Hz & Hzl & Hzs).
    exists z, g2. cbn. unfold rnd_bind at 1. rewrite Hy.
    split; [done|]. split; [congruence | done].
Qed.

(** The encoder returns a (B,T,E) tensor on every valid input that is
    not empty. *)
Lemma encode_shape (config : BgeConfig F) (t_len : nat) self
    (input_ids : list (list Z)) (token_type_ids : option (list (list Z)))
    (g : G) :
  valid_config config → wf_BgeM3 config self →
  (0 < config.(Config.attn_dim))%nat → input_ids ≠ [] →
  valid_input config t_len input_ids token_type_ids →
  ∃ out g',
    BgeM3.encode self input_ids token_type_ids g = (Ok out, g')
    ∧ length out = length input_ids
    ∧ shape3 t_len config.(Config.embed_dim) out.
Proof.
  intros Hcfg (emb & ms & sl & cl & Hemb & Hms & _ & _ & Hwe & Hwl & _)
         Hpos Hne Hin.
  destruct (BgeM3Embedding_forward_shape config t_len emb input_ids
              token_type_ids Hwe Hin) as (embed & He & Hel & Hes).
  assert (embed ≠ []) as Hene.
  { intros ->. destruct input_ids; [done | discriminate]. }
  assert (0 < t_len)%nat as Ht by (destruct Hin as [[? _] _]; lia).
  destruct (layers_forward_shape config t_len ms embed g Hcfg Hwl
              Hpos Ht Hene Hes) as (out & g' & Hout & Hol & Hos).
  exists out, g'. split; [|split; [congruence | done]].
  unfold BgeM3.encode, BgeM3.getattr. rewrite Hemb.
  cbn [mbind result_bind BgeM3.as_embedding]. rewrite rnd_bind_lift_Ok.
  rewrite He, rnd_bind_lift_Ok. rewrite Hms.
  cbn [mbind result_bind BgeM3.as_module_list]. by rewrite rnd_bind_lift_Ok.
Qed.

Lemma mk_Embedding_wf (num dim : nat) (w : nat → nat → F) :
  wf_Embedding num dim (torch.mk_Embedding num dim w).
Proof.
  unfold wf_Embedding, torch.mk_Embedding. cbn [torch.emb_weight].
  split; [by rewrite length_fmap, length_seq|].
  apply Forall_fmap, Forall_true. intros i. cbn.
  by rewrite length_fmap, length_seq.
Qed.

Lemma mk_Linear_maps (n_in n_out : nat) (w : nat → nat → F) (b : nat → F) :
  linear_maps n_in n_out (torch.mk_Linear n_in n_out w b).
Proof.
  unfold linear_maps, wf_Linear, torch.mk_Linear. cbn.
  by rewrite !length_fmap, !length_seq.
Qed.

Lemma mk_LayerNorm_norm_over (dim : nat) (eps : F) :
  norm_over dim (torch.mk_LayerNorm dim eps).
Proof.
  unfold norm_over, wf_LayerNorm, torch.mk_LayerNorm. cbn.
  by rewrite !length_replicate.
Qed.

Lemma init_wf_BgeAttention (config : BgeConfig F) (init : initializer F)
    (layer : nat) :
  wf_BgeAttention config (BgeAttention.__init__ config init layer).
Proof.
  split; [|split].
  - unfold wf_MultiHeadSelfAttention, BgeAttention.__init__,
      MultiHeadSelfAttention.__init__. cbn.
    repeat split; apply mk_Linear_maps || apply mk_LayerNorm_norm_over.
  - apply init_wf_FFN.
  - apply mk_LayerNorm_norm_over.
Qed.

Lemma init_wf_BgeM3 (config : BgeConfig F) (init : initializer F) :
  wf_BgeM3 config (BgeM3.__init__ config init).
Proof.
  unfold wf_BgeM3, BgeM3.__init__, BgeM3.setattr.
  eexists _, _, _, _.
  split; [by simplify_map_eq|]. split; [by simplify_map_eq|].
  split; [by simplify_map_eq|]. split; [by simplify_map_eq|].
  split; [|split; [|split]].
  - unfold wf_BgeM3Embedding, BgeM3Embedding.__init__. cbn.
    repeat split; apply mk_Embedding_wf || apply mk_LayerNorm_norm_over.
  - apply Forall_fmap, Forall_true. intros layer.
    apply init_wf_BgeAttention.
  - apply mk_Linear_maps.
  - apply mk_Linear_maps.
Qed.

Lemma wf_BgeM3_setattr (config : BgeConfig F) self (name : string)
    (v : BgeM3.value F) :
  name ≠ "embedding" → name ≠ "attentions" →
  name ≠ "sparse_linear" → name ≠ "colbert_linear" →
  wf_BgeM3 config self → wf_BgeM3 config (BgeM3.setattr self name v).
Proof.
  intros ? ? ? ? (emb & ms & sl & cl & ? & ? & ? & ? & Hwf).
  exists emb, ms, sl, cl. unfold BgeM3.setattr.
  by rewrite !lookup_insert_ne.
Qed.

Lemma wf_BgeM3_eval (config : BgeConfig F) self :
  wf_BgeM3 config self → wf_BgeM3 config (BgeM3.eval self).
Proof.
  intros (emb & ms & sl & cl & He & Hm & Hs & Hc & Hwe & Hwl & Hws & Hwc).
  exists emb, (BgeM3.eval_layer <$> ms), sl, cl. unfold BgeM3.eval.
  rewrite !lookup_fmap, He, Hm, Hs, Hc. cbn.
  split_and!; try done.
  apply Forall_fmap. eapply Forall_impl; [apply Hwl|].
  by intros l (Ha & Hf & Hn).
Qed.

(** With the two missing attributes assigned, [forward] returns on every
    valid input that is not empty: the encoder output [out], its position
    0, the sparse rows, and the projections of positions 1..T-1 multiplied
    by the token ids. *)
Lemma forward_returns (config : BgeConfig F) (t_len : nat) self
    (cl : torch.Linear F) (tk : Tokenizer)
    (input_ids : list (list Z)) (token_type_ids : option (list (list Z)))
    (g : G) :
  valid_config config → wf_BgeM3 config self →
  (0 < config.(Config.attn_dim))%nat →
  self !! "colbert_linear" = Some (BgeM3.VLinear cl) →
  self !! "vocab_size"
    = Some (BgeM3.VInt (Z.of_nat config.(Config.word_size))) →
  self !! "tokenizer" = Some (BgeM3.VTokenizer tk) →
  Forall (λ r, - Z.of_nat config.(Config.word_size) ≤ r
               < Z.of_nat config.(Config.word_size))
         (BgeM3.unused_tokens tk) →
  input_ids ≠ [] →
  valid_input config t_len input_ids token_type_ids →
  ∃ out g' dense maxed unused,
    BgeM3.encode self input_ids token_type_ids g = (Ok out, g')
    ∧ length out = length input_ids
    ∧ shape3 t_len config.(Config.embed_dim) out
    ∧ torch.select0 out = Ok dense
    ∧ length maxed = length input_ids
    ∧ Forall (row_of (λ _, True) config.(Config.word_size)) maxed
    ∧ BgeM3.forward self input_ids token_type_ids g
      = (Ok (dense,
             inr (BgeM3.mul_zero_at unused <$> maxed),
             zip_with
               (zip_with (λ v a, (λ x, fmul x (of_Z a)) <$> torch.affine cl v))
               (torch.tail1 out) (torch.tail1 input_ids)),
         g').
Proof.
  intros Hcfg Hwf Hpos Hcl Hvs Htk Hres Hne Hin.
  destruct (encode_shape config t_len self input_ids token_type_ids g
              Hcfg Hwf Hpos Hne Hin) as (out & g' & Henc & Hol & Hos).
  destruct Hwf as (emb & ms & sl & cl' & _ & _ & Hsl & Hcl' & _ & _ & Hwsl & Hwcl).
  assert (cl' = cl) as -> by congruence.
  destruct Hin as ((Ht & _) & Hshape & Hrange & _).
  destruct Hcfg as (_ & _ & _ & Hv).
  destruct Hwsl as (Hwsl & Hsin & Hsout). destruct Hwcl as (Hwcl & Hcin & _).
  (* the dense head *)
  destruct (select0_Ok out) as (dense & Hdense & _).
  { eapply Forall_impl; [apply Hos|]. intros m [Hm _] ->. cbn in Hm. lia. }
  (* the sparse head *)
  destruct (sparse_embedding_path (λ _, True) self sl config.(Config.word_size)
              t_len tk out input_ids)
    as (maxed & unused & Hsparse & Hml & Hmr & _);
    [done | apply Forall_true; intros m; apply Forall_true; intros v;
            by apply Forall_true
    | done | done | done | done | lia | done
    | by rewrite Hsin | done | done | done | done |].
  (* the multi-vector head *)
  pose proof (colbert_embedding_spec self cl out input_ids Hcl) as Hcolbert.
  specialize (Hcolbert ltac:(rewrite Hcin; by eapply shape3_rows)).
  assert (Forall2 (λ (h : list (list F)) (m : list Z), length h = length m)
                  out input_ids) as Hlens.
  { apply Forall2_same_length_lookup. split; [done|].
    intros b m r Hm Hr.
    unfold shape3 in Hos. rewrite Forall_lookup in Hos.
    destruct (Hos b m Hm) as [-> _].
    unfold shape2 in Hshape. rewrite Forall_lookup in Hshape.
    by rewrite (Hshape b r Hr). }
  specialize (Hcolbert Hlens).
  exists out, g', dense, maxed, unused.
  repeat split; try done.
  rewrite (forward_unfold _ _ _ _ _ _ Henc), Hdense, Hsparse.
  cbn [mbind result_bind]. by rewrite Hcolbert.
Qed.

End layer_shapes.

(** ** The forward pass with the two attributes assigned *)

Section forward_total.
Context {F G : Type} `{Scalar F} `{Tr : Transcendental F} `{Generator G F}.
Implicit Types self : gmap string (BgeM3.value F).

(** The three tensors have the documented shapes: (B,O), (B,V) and
    (B,T-1,O). *)
Lemma forward_shapes (config : BgeConfig F) (t_len : nat) self
    (tk : Tokenizer) (input_ids : list (list Z))
    (token_type_ids : option (list (list Z))) (g : G) :
  valid_config config → wf_BgeM3 config self →
  (0 < config.(Config.attn_dim))%nat →
  self !! "vocab_size"
    = Some (BgeM3.VInt (Z.of_nat config.(Config.word_size))) →
  self !! "tokenizer" = Some (BgeM3.VTokenizer tk) →
  Forall (λ r, - Z.of_nat config.(Config.word_size) ≤ r
               < Z.of_nat config.(Config.word_size))
         (BgeM3.unused_tokens tk) →
  input_ids ≠ [] →
  valid_input config t_len input_ids token_type_ids →
  ∃ dense sparse colbert g',
    BgeM3.forward self input_ids token_type_ids g
      = (Ok (dense, inr sparse, colbert), g')
    ∧ shape2 config.(Config.attn_output_dim) dense
    ∧ length dense = length input_ids
    ∧ shape2 config.(Config.word_size) sparse
    ∧ length sparse = length input_ids
    ∧ shape3 (t_len - 1) config.(Config.attn_output_dim) colbert
    ∧ length colbert = length input_ids.
Proof.
  intros Hcfg Hwf Hpos Hvs Htk Hres Hne Hin.
  pose proof Hwf as (_ & _ & _ & cl & _ & _ & _ & Hcl & _ & _ & _ & Hwcl).
  destruct (forward_returns config t_len self cl tk input_ids token_type_ids g)
    as (out & g' & dense & maxed & unused
        & _ & Hol & Hos & Hdense & Hml & Hmr & Hfwd); [done..|].
  destruct Hcfg as (_ & _ & -> & _).
  destruct Hin as (_ & Hshape & _ & _).
  eexists _, _, _, _. split; [apply Hfwd|].
  apply mapM_Ok_inv in Hdense. split_and!.
  - apply Forall_lookup. intros b v Hv.
    destruct (Forall2_lookup_r _ _ _ _ _ Hdense Hv) as (m & Hm & Hmv).
    unfold shape3 in Hos. rewrite Forall_lookup in Hos.
    destruct (Hos b m Hm) as [_ Hrows].
    destruct m as [|v0 m]; [done|]. injection Hmv as <-.
    by apply Forall_cons in Hrows as [? _].
  - apply Forall2_length in Hdense. congruence.
  - apply Forall_fmap. eapply Forall_impl; [apply Hmr|].
    intros row [Hrow _]. cbn. by rewrite length_mul_zero_at.
  - by rewrite length_fmap.
  - apply Forall_lookup. intros b rows Hrows.
    apply lookup_zip_with_Some in Hrows as (m & r & -> & Hm & Hr).
    destruct (tail1_lookup _ _ _ Hm) as (m0 & Hm0 & ->).
    destruct (tail1_lookup _ _ _ Hr) as (r0 & Hr0 & ->).
    unfold shape3 in Hos. rewrite Forall_lookup in Hos.
    destruct (Hos b m0 Hm0) as [Hm0l _].
    unfold shape2 in Hshape. rewrite Forall_lookup in Hshape.
    specialize (Hshape b r0 Hr0). split.
    + rewrite length_zip_with, !length_drop. lia.
    + apply Forall_lookup. intros t v Hv.
      apply lookup_zip_with_Some in Hv as (v0 & a & -> & _ & _).
      destruct Hwcl as (Hwcl & _ & Hout).
      by rewrite length_fmap, length_affine.
  - rewrite length_zip_with, !length_tail1. lia.
Qed.

(** C7. On a well-shaped model with the two attributes of the sparse head
    assigned and a valid input that is not empty (at least one sequence,
    a positive attention dimension), [forward] returns, and its dense
    output is the encoder's final hidden state [out] at sequence position
    0, entry for entry: nothing is applied to it after the stack. *)
Theorem forward_dense_is_position_zero (config : BgeConfig F) (t_len : nat)
    self (tk : Tokenizer) (input_ids : list (list Z))
    (token_type_ids : option (list (list Z))) (g : G) :
  valid_config config → wf_BgeM3 config self →
  (0 < config.(Config.attn_dim))%nat →
  self !! "vocab_size"
    = Some (BgeM3.VInt (Z.of_nat config.(Config.word_size))) →
  self !! "tokenizer" = Some (BgeM3.VTokenizer tk) →
  Forall (λ r, - Z.of_nat config.(Config.word_size) ≤ r
               < Z.of_nat config.(Config.word_size))
         (BgeM3.unused_tokens tk) →
  input_ids ≠ [] →
  valid_input config t_len input_ids token_type_ids →
  ∃ out dense sparse colbert g',
    BgeM3.encode self input_ids token_type_ids g = (Ok out, g')
    ∧ BgeM3.forward self input_ids token_type_ids g
      = (Ok (dense, sparse, colbert), g')
    ∧ Forall2 (λ v m, m !! 0%nat = Some v) dense out.
Proof.
  intros Hcfg Hwf Hpos Hvs Htk Hres Hne Hin.
  pose proof Hwf as (_ & _ & _ & cl & _ & _ & _ & Hcl & _).
  destruct (forward_returns config t_len self cl tk input_ids token_type_ids g)
    as (out & g' & dense & maxed & unused
        & Henc & _ & Hos & Hdense & _ & _ & Hfwd); [done..|].
  eexists out, dense, _, _, g'. split; [done|]. split; [apply Hfwd|].
  destruct (select0_Ok out) as (d & Hd & Hdout).
  { destruct Hin as ((Ht & _) & _).
    eapply Forall_impl; [apply Hos|]. intros m [Hm _] ->. cbn in Hm. lia. }
  rewrite Hd in Hdense. by injection Hdense as <-.
Qed.

(** On every valid input that is not empty a constructed model runs its
    encoder, pools, and projects the sparse weights; the next line
    raises. *)
Lemma forward_constructed_valid_input (config : BgeConfig F)
    (init : initializer F) (t_len : nat) (input_ids : list (list Z))
    (token_type_ids : option (list (list Z))) (g : G) :
  valid_config config → (0 < config.(Config.attn_dim))%nat →
  input_ids ≠ [] →
  valid_input config t_len input_ids token_type_ids →
  ∃ g', BgeM3.forward (BgeM3.__init__ config init) input_ids token_type_ids g
        = (Err (AttributeError "vocab_size"), g').
Proof.
  intros Hcfg Hpos Hne Hin.
  pose proof (init_wf_BgeM3 config init) as Hwf.
  destruct (encode_shape config t_len _ input_ids token_type_ids g
              Hcfg Hwf Hpos Hne Hin) as (out & g' & Henc & Hol & Hos).
  exists g'. rewrite (forward_unfold _ _ _ _ _ _ Henc).
  destruct (select0_Ok out) as (dense & -> & _).
  { destruct Hin as ((Ht & _) & _).
    eapply Forall_impl; [apply Hos|]. intros m [Hm _] ->. cbn in Hm. lia. }
  cbn [mbind result_bind].
  destruct (sparse_embedding_without_vocab_size
              (BgeM3.__init__ config init) out input_ids
              (init_lacks_vocab_size config init))
    as [(tw & _ & ->)|(e & Hfalse & _)]; [done|].
  exfalso. revert Hfalse.
  destruct Hwf as (_ & _ & sl & _ & _ & _ & Hsl & _ & _ & _ & Hwsl & _).
  unfold BgeM3._sparse_embedding, BgeM3.getattr. rewrite Hsl.
  cbn [mbind result_bind BgeM3.as_linear].
  by destruct (Linear_forward_shape t_len _ _ sl out Hwsl Hos) as [-> _].
Qed.

End forward_total.

(** ** The laws on integers *)

#[global] Instance Z_laws : FloatLaws Z.
Proof.
  split; unfold feqb; cbn; try done.
  - intros x _ Hx. apply Z.leb_le. apply Z.leb_gt in Hx. lia.
  - intros x _. rewrite Z.mul_0_r. done.
  - intros x. lia.
Qed.

(** ** The laws on binary64 floats *)

Section binary64_laws.
Import PrimFloat SpecFloat FloatOps FloatAxioms.

(** a finite float is a zero or has a sign, a mantissa and an exponent *)
Lemma is_finite_SF (x : float) :
  is_finite x = true →
  (∃ s, Prim2SF x = S754_zero s) ∨ (∃ s m e, Prim2SF x = S754_finite s m e).
Proof.
  unfold is_finite, is_nan, is_infinity.
  rewrite !eqb_spec, abs_spec.
  destruct (Prim2SF x) as [s|s| |s m e] eqn:Hx; cbn.
  - intros _. left. by exists s.
  - destruct s; cbn; discriminate.
  - discriminate.
  - intros _. right. by exists s, m, e.
Qed.

Lemma float_leb_0_pos (x : float) :
  is_finite x = true → leb x 0 = false → leb 0 x = true.
Proof.
  intros Hfin. rewrite !leb_spec.
  change (Prim2SF 0) with (S754_zero false).
  destruct (is_finite_SF x Hfin) as [[s ->]|(s & m & e & ->)]; cbn.
  - done.
  - by destruct s.
Qed.

Lemma float_mul_0_r (x : float) :
  is_finite x = true → leb (mul x 0) 0 && leb 0 (mul x 0) = true.
Proof.
  intros Hfin. rewrite !leb_spec, mul_spec.
  change (Prim2SF 0) with (S754_zero false).
  destruct (is_finite_SF x Hfin) as [[s ->]|(s & m & e & ->)]; cbn; done.
Qed.

(* the mantissa of 1 is 2^52: multiplying by it appends 52 zero bits,
   which the rounding to 53 bits removes again *)
Lemma digits2_pos_shift (m : positive) :
  Z.pos (digits2_pos (Pos.mul 4503599627370496 m))
  = Z.pos (digits2_pos m) + 52.
Proof. cbv beta iota delta [Pos.mul]. cbn [digits2_pos]. lia. Qed.

Lemma shr_52 (m : positive) (e : Z) :
  shr (shr_record_of_loc (Z.pos (Pos.mul 4503599627370496 m)) loc_Exact) e 52
  = ({| shr_m := Z.pos m; shr_r := false; shr_s := false |}, e + 52).
Proof. cbv beta iota delta [Pos.mul]. reflexivity. Qed.

Lemma float_mul_1_r (x : float) : mul x 1 = x.
Proof.
  apply Prim2SF_inj. rewrite mul_spec.
  pose proof (Prim2SF_valid x) as Hv.
  change (Prim2SF 1) with (S754_finite false 4503599627370496 (-52)).
  destruct (Prim2SF x) as [s|s| |s m e]; cbn [SF64mul SFmul].
  - by destruct s.
  - by destruct s.
  - done.
  - unfold SF64mul, SFmul.
    replace (xorb s false) with s by (by destruct s).
    cbn in Hv. unfold bounded, canonical_mantissa in Hv.
    apply andb_prop in Hv as [Hc Hb].
    assert (fexp prec emax (Z.pos (digits2_pos m) + e) = e) as Hcan
      by (by apply Z.eqb_eq).
    rewrite Pos.mul_comm.
    unfold binary_round_aux, shr_fexp.
    unfold Zdigits2 at 1. rewrite digits2_pos_shift.
    replace (fexp prec emax (Z.pos (digits2_pos m) + 52 + (e + -52))
             - (e + -52)) with 52.
    2:{ replace (Z.pos (digits2_pos m) + 52 + (e + -52))
          with (Z.pos (digits2_pos m) + e) by lia.
        rewrite Hcan. lia. }
    rewrite shr_52.
    cbn [shr_m loc_of_shr_record shr_r shr_s round_nearest_even].
    replace (e + -52 + 52) with e by lia.
    unfold Zdigits2. rewrite Hcan, Z.sub_diag.
    cbn [shr shr_record_of_loc shr_m].
    by rewrite Hb.
Qed.

#[global] Instance float_laws : FloatLaws float.
Proof.
  split.
  - reflexivity.
  - reflexivity.
  - apply float_leb_0_pos.
  - apply float_mul_0_r.
  - apply float_mul_1_r.
Qed.

End binary64_laws.

(** ** The small model, evaluated *)

(** C1. [forward] does not return the three documented tensors: on the
    small constructed model and the in-vocabulary batch [[1, 2, 3]], with
    the type ids absent, the call raises [AttributeError] for
    [vocab_size] after the encoder has run. *)
Theorem forward_of_constructed_model_raises :
  BgeM3.forward Small.model [[1; 2; 3]] None 0%nat
  = (Err (AttributeError "vocab_size"), 0%nat).
Proof. vm_compute. reflexivity. Qed.

(** C3. The scatter step writes, at slot [input_ids[b,t]], entry 0 of the
    weight vector of position (b,t), not the entry indexed by the token
    id: with weights [5, 7] and token id 1 the scattered row is [0, 5],
    and so is the sparse vector that the head returns. *)
Theorem scatter_writes_entry_zero_of_weights :
  BgeM3._sparse_embedding Small.heads [[[5; 7]]] [[1]] false
    = Ok (inl [[[5; 7]]])
  ∧ BgeM3.scatter_step 2 [[1]] [[[5; 7]]] = Ok [[[0; 5]]]
  ∧ BgeM3._sparse_embedding Small.heads [[[5; 7]]] [[1]] true
    = Ok (inr [[0; 5]]).
Proof. repeat split; vm_compute; reflexivity. Qed.

(** C5. The multi-vector head multiplies by the token id itself: no
    boolean cast is applied to the ids that [forward] passes as the mask.
    With ids [7, 3] the projected vector [1, 2] of position 1 comes out
    as [3, 6]; the boolean cast of the ids would leave it [1, 2]. *)
Theorem colbert_mask_is_raw_token_id :
  BgeM3._colbert_embedding Small.heads [[[9; 9]; [1; 2]]] [[7; 3]]
    = Ok [[[3; 6]]]
  ∧ BgeM3._colbert_embedding Small.heads [[[9; 9]; [1; 2]]]
      (torch.map2 (λ i, negb (i =? 0)) [[7; 3]])
    = Ok [[[1; 2]]].
Proof. split; vm_compute; reflexivity. Qed.

Lemma forward_raises_attribute_fault_witness :
  BgeM3.forward Small.model [[1; 2; 3]] None 0%nat
  = (Err (AttributeError "vocab_size"), 0%nat).
Proof.
  refine (proj1 (proj2 (proj2
    (forward_raises_attribute_fault Small.config Small.init
       [[1; 2; 3]] None 0%nat 0%nat [[[-1; 1]; [-1; 1]; [-1; 1]]] _ _ _)))).
  - vm_compute. reflexivity.
  - exists [[-1; 1]]. vm_compute. reflexivity.
  - exists (inl [[[3; 5; 7; 9]; [3; 5; 7; 9]; [3; 5; 7; 9]]]).
    vm_compute. reflexivity.
Defined.

Lemma absent_type_ids_are_zeros_witness :
  BgeM3Embedding.forward (BgeM3Embedding.__init__ Small.config Small.init)
    [[1; 2; 3]] None
  = BgeM3Embedding.forward (BgeM3Embedding.__init__ Small.config Small.init)
      [[1; 2; 3]] (Some [[0; 0; 0]])
  ∧ ∀ g : nat,
      BgeM3.forward Small.patched [[1; 2; 3]] None g
      = BgeM3.forward Small.patched [[1; 2; 3]] (Some [[0; 0; 0]]) g.
Proof.
  refine (absent_type_ids_are_zeros
            (BgeM3Embedding.__init__ Small.config Small.init) Small.patched
            [[1; 2; 3]] [[0; 0; 0]] _ _).
  - repeat constructor.
  - repeat constructor.
Defined.

Lemma forward_deterministic_witness :
  (BgeM3.forward (BgeM3.eval Small.patched) [[1; 2; 3]] None 0%nat).1
  = (BgeM3.forward (BgeM3.eval Small.patched) [[1; 2; 3]] None 1%nat).1
  ∧ (BgeM3.forward (BgeM3.eval Small.patched) [[1; 2; 3]] None 0%nat).2
    = 0%nat.
Proof.
  apply (forward_deterministic (BgeM3.eval Small.patched)).
  apply eval_inference_mode.
Defined.

Lemma FFN_forward_stages_witness :
  FFN.forward (G := nat) (FFN.__init__ Small.config Small.init 0)
    [[[1; 2]]] 0%nat
  = (d ⇐ torch.Dropout_forward
           (FFN.__init__ Small.config Small.init 0).(FFN.output_dropout)
           (torch.map2 (ffn_residual (FFN.__init__ Small.config Small.init 0))
              [[[1; 2]]]) ;;
     lift (torch.LayerNorm_forward
             (FFN.__init__ Small.config Small.init 0).(FFN.LayerNorm) d))%rnd
      0%nat.
Proof.
  refine (proj1 (FFN_forward_stages 2 3
    (FFN.__init__ Small.config Small.init 0) [[[1; 2]]] 0%nat _ _)).
  - apply (init_wf_FFN Small.config).
  - repeat constructor.
Defined.

Lemma colbert_embedding_constant_mask_witness :
  ∃ c,
    BgeM3._colbert_embedding Binary64.heads Binary64.modest2 [[false; false]]
    = Ok c
    ∧ Forall2 (λ h row,
                 length row = (length h - 1)%nat
                 ∧ Forall (λ v, length v = 2%nat ∧ Forall is_zero v) row)
              Binary64.modest2 c.
Proof.
  refine (proj1 (colbert_embedding_constant_mask Binary64.heads
    Binary64.steep_linear Binary64.modest2 [[false; false]] _ _ _ _) _ _).
  - vm_compute. reflexivity.
  - split; reflexivity.
  - repeat constructor.
  - repeat constructor.
  - repeat constructor.
  - vm_compute. repeat constructor.
Defined.

(** On floats the all-false mask does not clear a projection that has
    overflowed: infinity times zero is NaN. *)
Lemma colbert_all_false_mask_overflow :
  ∃ c,
    BgeM3._colbert_embedding Binary64.heads Binary64.large2 [[false; false]]
    = Ok c
    ∧ ¬ Forall (Forall (Forall is_zero)) c.
Proof.
  eexists. split; [vm_compute; reflexivity|]. intros Hc.
  apply Forall_cons in Hc as [Hc _]. apply Forall_cons in Hc as [Hc _].
  apply Forall_cons in Hc as [Hc _]. vm_compute in Hc. discriminate.
Qed.

Lemma forward_dense_is_position_zero_witness :
  ∃ out dense sparse colbert g',
    BgeM3.encode Small.patched [[1; 2; 3]] None 0%nat = (Ok out, g')
    ∧ BgeM3.forward Small.patched [[1; 2; 3]] None 0%nat
      = (Ok (dense, sparse, colbert), g')
    ∧ Forall2 (λ v m, m !! 0%nat = Some v) dense out.
Proof.
  refine (forward_dense_is_position_zero Small.config 3 Small.patched
            Small.tokenizer [[1; 2; 3]] None 0%nat _ _ _ _ _ _ _ _).
  - repeat split; cbn; lia.
  - apply wf_BgeM3_setattr; [done..|].
    apply wf_BgeM3_setattr; [done..|].
    apply init_wf_BgeM3.
  - cbn. lia.
  - vm_compute. reflexivity.
  - vm_compute. reflexivity.
  - repeat constructor; cbn; lia.
  - discriminate.
  - split; [cbn; lia|]. split; [repeat constructor|].
    split; [repeat constructor; lia | by left].
Defined.

Lemma sparse_embedding_nonneg_and_masked_witness :
  ∃ sparse,
    BgeM3._sparse_embedding Binary64.heads Binary64.modest1 [[0]] true
    = Ok (inr sparse)
    ∧ length sparse = 1%nat
    ∧ Forall (λ row,
        length row = 2%nat
        ∧ Forall nonneg row
        ∧ ∀ r, r ∈ reserved_ids Small.zero_tokenizer →
               ∃ i x, torch.norm_index 2 r = Ok i
                      ∧ row !! i = Some x ∧ is_zero x) sparse.
Proof.
  refine (sparse_embedding_nonneg_and_masked Binary64.heads
            Binary64.steep_linear 2 1 Small.zero_tokenizer Binary64.modest1
            [[0]] _ _ _ _ _ _ _ _ _ _ _ _).
  - vm_compute. reflexivity.
  - vm_compute. reflexivity.
  - vm_compute. reflexivity.
  - split; reflexivity.
  - cbn. lia.
  - lia.
  - repeat constructor.
  - repeat constructor.
  - reflexivity.
  - repeat constructor; lia.
  - repeat constructor; cbn; lia.
  - vm_compute. repeat constructor.
Defined.

(** On floats a weight that has overflowed stays neither non-negative nor
    zero at a reserved slot: the slot of token 0, which all four reserved
    ids name here, holds infinity times zero. *)
Lemma sparse_reserved_entry_overflow :
  ∃ sparse,
    BgeM3._sparse_embedding Binary64.heads Binary64.large1 [[0]] true
    = Ok (inr sparse)
    ∧ ¬ Forall (Forall nonneg) sparse
    ∧ ¬ Forall (λ row, ∃ x, row !! 0%nat = Some x ∧ is_zero x) sparse.
Proof.
  eexists. split; [vm_compute; reflexivity|].
  split; intros Hs; apply Forall_cons in Hs as [Hs _].
  - apply Forall_cons in Hs as [Hs _]. vm_compute in Hs. discriminate.
  - destruct Hs as (x & Hx & Hz). injection Hx as <-.
    vm_compute in Hz. discriminate.
Qed.

(** * Further properties of the code *)

(** ** The embedding composer *)

Section composer.
Context {F : Type} `{Scalar F} `{Tr : Transcendental F}.

(** a lookup that fails somewhere fails the whole traversal, with the one
    exception the element function can raise *)
Lemma mapM_Err_uniform {A B} (f : A → result B) (e : exn) (l : list A) :
  (∀ x e', f x = Err e' → e' = e) →
  (∃ x, x ∈ l ∧ ¬ is_Ok (f x)) →
  mapM f l = Err e.
Proof.
  intros Hu. induction l as [|x l IH]; intros (y & Hy & Hfy).
  - by apply elem_of_nil in Hy.
  - cbn. destruct (f x) as [b|e'] eqn:Hx; cbn.
    + apply elem_of_cons in Hy as [->|Hy].
      * exfalso. apply Hfy. rewrite Hx. by exists b.
      * rewrite IH; [done|]. by exists y.
    + by rewrite (Hu x e' Hx).
Qed.

Lemma embedding_row_Err (e : torch.Embedding F) (i : Z) (e' : exn) :
  torch.embedding_row e i = Err e' → e' = IndexError.
Proof.
  unfold torch.embedding_row. case_decide; [|by intros [= <-]].
  destruct (torch.emb_weight e !! Z.to_nat i); [done | by intros [= <-]].
Qed.

Lemma embedding_row_out_of_range (e : torch.Embedding F) (i : Z) :
  ¬ (0 ≤ i < Z.of_nat (length (torch.emb_weight e))) →
  torch.embedding_row e i = Err IndexError.
Proof.
  intros Hi. unfold torch.embedding_row. case_decide; [|done].
  rewrite (proj2 (lookup_ge_None _ _)); [done | lia].
Qed.

Lemma mapM_Err_only {A B} (f : A → result B) (e : exn) (l : list A) (e' : exn) :
  (∀ x e', f x = Err e' → e' = e) → mapM f l = Err e' → e' = e.
Proof.
  intros Hu. induction l as [|x l IH]; cbn; [done|].
  destruct (f x) as [b|e''] eqn:Hx; cbn.
  - destruct (mapM f l); cbn; [done|]. intros [= <-]. by apply IH.
  - intros [= <-]. by eapply Hu.
Qed.

Lemma mapM2_Err_uniform {A B} (f : A → result B) (e : exn)
    (x : list (list A)) (m : list A) (a : A) :
  (∀ a e', f a = Err e' → e' = e) →
  m ∈ x → a ∈ m → ¬ is_Ok (f a) →
  mapM (mapM f) x = Err e.
Proof.
  intros Hu Hm Ha Hfa. apply mapM_Err_uniform.
  - intros l e'. by apply mapM_Err_only.
  - exists m. split; [done|]. intros [r Hr].
    rewrite (mapM_Err_uniform f e) in Hr; [done | done |].
    by exists a.
Qed.

Lemma Embedding_forward_out_of_range (e : torch.Embedding F)
    (ids : list (list Z)) (r : list Z) (i : Z) :
  r ∈ ids → i ∈ r →
  ¬ (0 ≤ i < Z.of_nat (length (torch.emb_weight e))) →
  torch.Embedding_forward e ids = Err IndexError.
Proof.
  intros Hr Hi Hrange. unfold torch.Embedding_forward.
  apply (mapM2_Err_uniform _ _ _ r i); [|done|done|].
  - intros x e'. apply embedding_row_Err.
  - rewrite embedding_row_out_of_range by done. by intros [? ?].
Qed.

(** X2. A token id outside the word table makes the composer raise
    [IndexError], whatever the type ids are. *)
Theorem composer_token_id_out_of_range (emb : BgeM3Embedding.t F)
    (input_ids : list (list Z)) (token_type_ids : option (list (list Z)))
    (r : list Z) (i : Z) :
  r ∈ input_ids → i ∈ r →
  ¬ (0 ≤ i < Z.of_nat (length
       (torch.emb_weight emb.(BgeM3Embedding.word_embedding)))) →
  BgeM3Embedding.forward emb input_ids token_type_ids = Err IndexError.
Proof.
  intros Hr Hi Hrange. unfold BgeM3Embedding.forward.
  by rewrite (Embedding_forward_out_of_range _ input_ids r i).
Qed.

Lemma arange_elem (n k : nat) : (k < n)%nat → Z.of_nat k ∈ torch.arange n.
Proof.
  intros Hk. unfold torch.arange. apply list_elem_of_fmap.
  exists k. split; [done|]. apply elem_of_seq. lia.
Qed.

(** X3. A batch whose sequences are longer than the position table makes
    the composer raise [IndexError], although every token id is valid. *)
Theorem composer_sequence_longer_than_table (config : BgeConfig F)
    (emb : BgeM3Embedding.t F) (t_len : nat) (input_ids : list (list Z))
    (token_type_ids : option (list (list Z))) :
  wf_BgeM3Embedding config emb →
  input_ids ≠ [] → shape2 t_len input_ids →
  Forall (Forall (λ i, 0 ≤ i < Z.of_nat config.(Config.word_size))) input_ids →
  (config.(Config.position_size) < t_len)%nat →
  BgeM3Embedding.forward emb input_ids token_type_ids = Err IndexError.
Proof.
  intros (Hword & Hpos & _) Hne Hshape Hrange Hlong.
  unfold BgeM3Embedding.forward.
  destruct (Embedding_forward_shape _ _ t_len _ input_ids Hword Hshape Hrange)
    as (word_embed & -> & _).
  cbn [mbind result_bind].
  assert (torch.size1 input_ids = t_len) as ->.
  { destruct input_ids as [|r ids]; [congruence|]. cbn.
    unfold shape2 in Hshape. by apply Forall_cons in Hshape as [-> _]. }
  rewrite (Embedding_forward_out_of_range
             emb.(BgeM3Embedding.position_embedding) [torch.arange t_len]
             (torch.arange t_len) (Z.of_nat config.(Config.position_size)));
    [reflexivity| | |].
  - by left.
  - by apply arange_elem.
  - destruct Hpos as [-> _]. lia.
Qed.

(** X4. The type table has a single row: any type id other than 0 makes
    the composer raise [IndexError] on an otherwise valid input. *)
Theorem composer_type_id_nonzero (config : BgeConfig F)
    (emb : BgeM3Embedding.t F) (t_len : nat) (input_ids : list (list Z))
    (type_ids : list (list Z)) (r : list Z) (i : Z) :
  wf_BgeM3Embedding config emb →
  (t_len ≤ config.(Config.position_size))%nat →
  shape2 t_len input_ids →
  Forall (Forall (λ i, 0 ≤ i < Z.of_nat config.(Config.word_size))) input_ids →
  r ∈ type_ids → i ∈ r → i ≠ 0 →
  BgeM3Embedding.forward emb input_ids (Some type_ids) = Err IndexError.
Proof.
  intros (Hword & Hpos & Htype & _) Ht Hshape Hrange Hr Hi Hi0.
  unfold BgeM3Embedding.forward.
  destruct (Embedding_forward_shape _ _ t_len _ input_ids Hword Hshape Hrange)
    as (word_embed & -> & _).
  cbn [mbind result_bind].
  destruct (Embedding_forward_shape _ _ (torch.size1 input_ids)
              emb.(BgeM3Embedding.position_embedding)
              [torch.arange (torch.size1 input_ids)] Hpos)
    as (position_embed & -> & _).
  { repeat constructor. apply length_arange. }
  { repeat constructor. apply arange_range.
    destruct input_ids as [|r0 ids]; cbn; [lia|].
    unfold shape2 in Hshape. apply Forall_cons in Hshape as [-> _]. lia. }
  cbn [mbind result_bind].
  rewrite (Embedding_forward_out_of_range
             emb.(BgeM3Embedding.token_type_embedding) type_ids r i);
    [reflexivity | done | done |].
  destruct Htype as [-> _]. lia.
Qed.

Lemma embedding_row_Ok_default (num dim : nat) (e : torch.Embedding F) (i : Z) :
  wf_Embedding num dim e → 0 ≤ i < Z.of_nat num →
  torch.embedding_row e i = Ok (default [] (torch.emb_weight e !! Z.to_nat i))
  ∧ length (default [] (torch.emb_weight e !! Z.to_nat i)) = dim.
Proof.
  intros Hwf Hi. destruct (embedding_row_Ok num dim e i Hwf Hi) as (row & Hrow & Hl).
  unfold torch.embedding_row in *. rewrite decide_True in * by lia.
  destruct (torch.emb_weight e !! Z.to_nat i); [|done].
  by injection Hrow as ->.
Qed.

Lemma Embedding_forward_form (num dim : nat) (e : torch.Embedding F)
    (ids : list (list Z)) :
  wf_Embedding num dim e →
  Forall (Forall (λ i, 0 ≤ i < Z.of_nat num)) ids →
  torch.Embedding_forward e ids
  = Ok (torch.map2 (λ i, default [] (torch.emb_weight e !! Z.to_nat i)) ids).
Proof.
  intros Hwf Hrange. unfold torch.Embedding_forward, torch.map2.
  apply mapM_Ok_fmap. intros r Hr. apply mapM_Ok_fmap. intros i Hi.
  rewrite Forall_forall in Hrange. specialize (Hrange r Hr).
  rewrite Forall_forall in Hrange.
  by destruct (embedding_row_Ok_default num dim e i Hwf (Hrange i Hi)).
Qed.

(** an axis of size one on the right, for any operator *)
Lemma broadcast_singleton_r_fmap {A B C} (f : A → B → result C) (g : A → C)
    (xs : list A) (y : B) :
  (∀ x, x ∈ xs → f x y = Ok (g x)) →
  torch.broadcast f xs [y] = Ok (g <$> xs).
Proof.
  intros Hf. unfold torch.broadcast.
  destruct (decide (length xs = length [y])) as [Hl|Hl].
  - destruct xs as [|x [|? ?]]; try done. cbn.
    rewrite (Hf x) by left. done.
  - destruct xs as [|x [|x' xs]]; [done | done |].
    by apply mapM_Ok_fmap.
Qed.

Lemma add_rows_Ok (a b : list (list F)) :
  Forall2 (λ x y : list F, length x = length y) a b →
  torch.broadcast (torch.broadcast (torch.lift2 fadd)) a b
  = Ok (zip_with (zip_with fadd) a b).
Proof.
  intros Hab. apply broadcast_zip; [by eapply Forall2_length|].
  intros i x y Hx Hy. apply broadcast_zip; [|done].
  by apply (Forall2_lookup_lr _ _ _ _ _ _ Hab Hx Hy).
Qed.

Lemma zip_with_fmap_diag {A B C D} (f : B → C → D) (g : A → B) (h : A → C)
    (l : list A) :
  zip_with f (g <$> l) (h <$> l) = (λ x, f (g x) (h x)) <$> l.
Proof. induction l as [|x l IH]; [done|]. cbn. by rewrite IH. Qed.

Lemma arange_lookup (n t : nat) :
  (t < n)%nat → torch.arange n !! t = Some (Z.of_nat t).
Proof.
  intros Ht. unfold torch.arange.
  by rewrite list_lookup_fmap, lookup_seq_lt.
Qed.

(** On a valid input the composer returns, for every sequence of the
    batch, the normalized sum of the three looked-up rows. *)
Lemma composer_form (config : BgeConfig F) (t_len : nat)
    (emb : BgeM3Embedding.t F) (input_ids : list (list Z))
    (token_type_ids : option (list (list Z))) :
  wf_BgeM3Embedding config emb →
  valid_input config t_len input_ids token_type_ids →
  BgeM3Embedding.forward emb input_ids token_type_ids
  = Ok (composer_entry emb <$> input_ids).
Proof.
  intros (Hword & Hpos & Htype & Hln) (Ht & Hshape & Hrange & Htys).
  assert (BgeM3Embedding.forward emb input_ids token_type_ids
          = BgeM3Embedding.forward emb input_ids None) as ->.
  { by destruct Htys as [->| ->]. }
  unfold BgeM3Embedding.forward.
  set (wrow := λ i : Z, default []
     (torch.emb_weight emb.(BgeM3Embedding.word_embedding) !! Z.to_nat i)).
  set (prow := λ i : Z, default []
     (torch.emb_weight emb.(BgeM3Embedding.position_embedding) !! Z.to_nat i)).
  set (tyrow := λ i : Z, default []
     (torch.emb_weight emb.(BgeM3Embedding.token_type_embedding) !! Z.to_nat i)).
  set (e := config.(Config.embed_dim)) in *.
  rewrite (Embedding_forward_form _ _ _ input_ids Hword Hrange).
  cbn [mbind result_bind].
  destruct (decide (input_ids = [])) as [->|Hne]; [done|].
  assert (torch.size1 input_ids = t_len) as ->.
  { destruct input_ids as [|r ids]; [done|]. cbn.
    unfold shape2 in Hshape. by apply Forall_cons in Hshape as [-> _]. }
  rewrite (Embedding_forward_form _ _ _ [torch.arange t_len] Hpos); last first.
  { repeat constructor. apply arange_range. lia. }
  cbn [mbind result_bind].
  destruct (zeros_like_shape t_len input_ids Hshape) as (_ & _ & Hzr).
  rewrite (Embedding_forward_form _ _ _ _ Htype Hzr).
  cbn [mbind result_bind].
  fold wrow prow tyrow.
  (* the rows have [e] entries *)
  assert (∀ r i, r ∈ input_ids → i ∈ r → length (wrow i) = e) as Hwl.
  { intros r i Hr Hi. rewrite Forall_forall in Hrange.
    specialize (Hrange r Hr). rewrite Forall_forall in Hrange.
    by destruct (embedding_row_Ok_default _ _ _ i Hword (Hrange i Hi)). }
  assert (∀ t, (t < t_len)%nat → length (prow (Z.of_nat t)) = e) as Hpl.
  { intros t Hlt.
    by destruct (embedding_row_Ok_default _ _ _ (Z.of_nat t) Hpos ltac:(lia)). }
  assert (length (tyrow 0) = e) as Htl.
  { by destruct (embedding_row_Ok_default _ _ _ 0 Htype ltac:(lia)). }
  assert (∀ r, r ∈ input_ids → length r = t_len) as Hrl.
  { intros r Hr. unfold shape2 in Hshape. rewrite Forall_forall in Hshape.
    by apply Hshape. }
  (* word + position *)
  change (torch.map2 prow [torch.arange t_len])
    with [prow <$> torch.arange t_len].
  unfold torch.add3.
  rewrite (broadcast_singleton_r_fmap _
    (λ m, zip_with (zip_with fadd) m (prow <$> torch.arange t_len)));
    last first.
  { intros m Hm. apply add_rows_Ok.
    unfold torch.map2 in Hm. apply list_elem_of_fmap in Hm as (r & -> & Hr).
    apply Forall2_same_length_lookup. split.
    - rewrite !length_fmap, length_arange. by apply Hrl.
    - intros t x y Hx Hy. rewrite list_lookup_fmap in Hx, Hy.
      destruct (r !! t) as [i|] eqn:Hi; [|done]. injection Hx as <-.
      pose proof (lookup_lt_Some _ _ _ Hi) as Hlt. rewrite (Hrl r Hr) in Hlt.
      rewrite (arange_lookup _ _ Hlt) in Hy. injection Hy as <-.
      rewrite Hpl by done. eapply Hwl; [done|].
      by eapply list_elem_of_lookup_2. }
  cbn [mbind result_bind].
  (* + type *)
  unfold torch.zeros_like. rewrite map2_compose. unfold torch.map2.
  rewrite <- list_fmap_compose.
  rewrite (broadcast_zip_fmap _ _ _
    (λ r r' : list Z,
       zip_with (zip_with fadd)
         (zip_with (zip_with fadd) (wrow <$> r) (prow <$> torch.arange t_len))
         ((λ _, tyrow 0) <$> r'))); [|done|]; last first.
  { intros b r r' Hr Hr'. assert (r' = r) as -> by congruence.
    apply list_elem_of_lookup_2 in Hr. unfold compose.
    apply add_rows_Ok. apply Forall2_same_length_lookup. split.
    - rewrite length_zip_with, !length_fmap, length_arange, (Hrl r Hr). lia.
    - intros t x y Hx Hy.
      apply lookup_zip_with_Some in Hx as (w & p & -> & Hw & Hp).
      rewrite list_lookup_fmap in Hw, Hp, Hy.
      destruct (r !! t) as [i|] eqn:Hi; [|done].
      injection Hw as <-. injection Hy as <-.
      pose proof (lookup_lt_Some _ _ _ Hi) as Hlt. rewrite (Hrl r Hr) in Hlt.
      rewrite (arange_lookup _ _ Hlt) in Hp. injection Hp as <-.
      rewrite length_zip_with, Hpl, Htl by done.
      rewrite (Hwl r i Hr) by (by eapply list_elem_of_lookup_2). lia. }
  cbn [mbind result_bind].
  (* LayerNorm *)
  rewrite zip_with_diag.
  rewrite LayerNorm_forward_Ok; last first.
  { apply Forall_fmap, Forall_forall. intros r Hr. cbn.
    apply Forall_lookup. intros t x Hx.
    apply lookup_zip_with_Some in Hx as (wp & ty & -> & Hwp & Hty).
    apply lookup_zip_with_Some in Hwp as (w & p & -> & Hw & Hp).
    rewrite list_lookup_fmap in Hw, Hp, Hty.
    destruct (r !! t) as [i|] eqn:Hi; [|done].
    injection Hw as <-. injection Hty as <-.
    pose proof (lookup_lt_Some _ _ _ Hi) as Hlt. rewrite (Hrl r Hr) in Hlt.
    rewrite (arange_lookup _ _ Hlt) in Hp. injection Hp as <-.
    rewrite !length_zip_with, Hpl, Htl by done.
    rewrite (Hwl r i Hr) by (by eapply list_elem_of_lookup_2).
    destruct Hln as [_ ->]. fold e. lia. }
  f_equal. unfold torch.map2. rewrite <- list_fmap_compose.
  apply list_fmap_ext. intros _ r Hr%list_elem_of_lookup_2. cbn.
  unfold composer_entry. apply list_eq. intros t.
  rewrite list_lookup_fmap, !lookup_zip_with, !list_lookup_fmap,
    list_lookup_imap.
  destruct (r !! t) as [i|] eqn:Hi; [|done]. cbn.
  pose proof (lookup_lt_Some _ _ _ Hi) as Hlt. rewrite (Hrl r Hr) in Hlt.
  rewrite (arange_lookup _ _ Hlt). cbn.
  unfold composer_row, wrow, prow, tyrow. by rewrite Nat2Z.id.
Qed.

(** X1. On a valid input the composer returns a (B,T,E) tensor whose
    vector at (b,t) is the layer normalization of the sum of three rows:
    the word row of the token id, the position row of [t] and row 0 of
    the type table. *)
Theorem composer_returns_normalized_sum (config : BgeConfig F) (t_len : nat)
    (emb : BgeM3Embedding.t F) (input_ids : list (list Z))
    (token_type_ids : option (list (list Z))) :
  wf_BgeM3Embedding config emb →
  valid_input config t_len input_ids token_type_ids →
  ∃ embed,
    BgeM3Embedding.forward emb input_ids token_type_ids = Ok embed
    ∧ length embed = length input_ids
    ∧ shape3 t_len config.(Config.embed_dim) embed
    ∧ ∀ b r t i, input_ids !! b = Some r → r !! t = Some i →
        ∃ w p ty,
          torch.emb_weight emb.(BgeM3Embedding.word_embedding) !! Z.to_nat i
            = Some w
          ∧ torch.emb_weight emb.(BgeM3Embedding.position_embedding) !! t
            = Some p
          ∧ torch.emb_weight emb.(BgeM3Embedding.token_type_embedding) !! 0%nat
            = Some ty
          ∧ embed !! b ≫= (.!! t)
            = Some (torch.normalize emb.(BgeM3Embedding.LayerNorm)
                      (zip_with fadd (zip_with fadd w p) ty)).
Proof.
  intros Hwf Hin.
  destruct (BgeM3Embedding_forward_shape config t_len emb input_ids
              token_type_ids Hwf Hin) as (embed & Hrun & Hlen & Hshape).
  exists embed. split; [done|]. split; [done|]. split; [done|].
  rewrite (composer_form config t_len) in Hrun by done.
  injection Hrun as <-.
  destruct Hwf as ([Hwn _] & [Hpn _] & [Htn _] & _).
  destruct Hin as ((_ & Ht) & Hids & Hrange & _).
  intros b r t i Hr Hi.
  rewrite Forall_lookup in Hrange. specialize (Hrange b r Hr).
  rewrite Forall_lookup in Hrange. specialize (Hrange t i Hi).
  unfold shape2 in Hids. rewrite Forall_lookup in Hids.
  pose proof (lookup_lt_Some _ _ _ Hi) as Hlt. rewrite (Hids b r Hr) in Hlt.
  destruct (lookup_lt_is_Some_2
              (torch.emb_weight emb.(BgeM3Embedding.word_embedding))
              (Z.to_nat i)) as [w Hw]; [lia|].
  destruct (lookup_lt_is_Some_2
              (torch.emb_weight emb.(BgeM3Embedding.position_embedding)) t)
    as [p Hp]; [lia|].
  destruct (lookup_lt_is_Some_2
              (torch.emb_weight emb.(BgeM3Embedding.token_type_embedding))
              0%nat) as [ty Hty]; [lia|].
  exists w, p, ty. split; [done|]. split; [done|]. split; [done|].
  rewrite list_lookup_fmap, Hr. cbn. unfold composer_entry.
  rewrite list_lookup_imap, Hi. cbn. unfold composer_row.
  by rewrite Hw, Hp, Hty.
Qed.

End composer.

(** ** The self-attention block *)

Section attention.
Context {F : Type} `{Scalar F} `{Tr : Transcendental F}.

Lemma attention_form (config : BgeConfig F) (t_len : nat)
    (m : MultiHeadSelfAttention.t F) (x : list (list (list F))) :
  valid_config config → wf_MultiHeadSelfAttention config m →
  (0 < config.(Config.attn_dim))%nat → (0 < t_len)%nat → x ≠ [] →
  shape3 t_len config.(Config.embed_dim) x →
  MultiHeadSelfAttention.forward m x = Ok (attention_entry m t_len <$> x).
Proof.
  intros (Hn & Hdiv & _ & _) (Ha & Hnh & Hq & Hk & Hv & Ho & Hln)
         Hpos Ht Hne Hx.
  unfold MultiHeadSelfAttention.forward, attention_entry. rewrite Ha, Hnh.
  unfold MultiHeadSelfAttention.floordiv. rewrite decide_False by lia.
  cbn [mbind result_bind].
  set (n := config.(Config.num_heads)) in *.
  set (hd := (config.(Config.attn_dim) / n)%nat) in *.
  rewrite Hdiv in Hq, Hk, Hv.
  rewrite (project_Ok t_len _ _ _ _ x Hq Hx). cbn [mbind result_bind].
  rewrite (project_Ok t_len _ _ _ _ x Hk Hx). cbn [mbind result_bind].
  rewrite (project_Ok t_len _ _ _ _ x Hv Hx). cbn [mbind result_bind].
  rewrite !zip_fmap_diag, <- list_fmap_compose.
  rewrite (size1_shape3 t_len _ x Hx Hne).
  set (out := _ <$> x).
  unfold torch.view_infer. rewrite decide_False.
  2:{ rewrite <- Hdiv. apply numel_pos; [by destruct x | done..]. }
  cbn [mbind result_bind].
  assert (shape3 t_len config.(Config.attn_dim) out) as Hout.
  { unfold out, shape3. apply Forall_fmap, Forall_forall. intros b Hb. cbn.
    pose proof (shape3_length _ _ _ _ Hx Hb) as Hbl.
    destruct (heads_of_shape m.(MultiHeadSelfAttention.q) n hd b) as [Hqh Hql].
    destruct (heads_of_shape m.(MultiHeadSelfAttention.k) n hd b) as [_ Hkl].
    destruct (heads_of_shape m.(MultiHeadSelfAttention.v) n hd b) as [_ Hvl].
    rewrite Hbl in Hqh.
    destruct (attend_batch_shape t_len n hd _ _ _ Hql Hkl Hvl Hqh) as [Hl Hr].
    split; [done|]. by rewrite Hdiv. }
  destruct (Linear_forward_shape t_len _ _ _ out Ho Hout) as [-> Hy].
  cbn [mbind result_bind].
  rewrite LayerNorm_forward_Ok; last first.
  { destruct Hln as [_ ->]. by eapply shape3_rows. }
  f_equal. rewrite map2_compose. unfold torch.map2, out.
  rewrite <- list_fmap_compose. by apply list_fmap_ext.
Qed.

(** X6. A head count of zero raises [ZeroDivisionError] before anything is
    computed; a head count that does not divide the attention dimension
    raises [RuntimeError] at the [view], on any non-empty input. *)
Theorem attention_head_count_faults (config : BgeConfig F) (t_len : nat)
    (m : MultiHeadSelfAttention.t F) (x : list (list (list F)))
    (b : list (list F)) (v : list F) :
  wf_MultiHeadSelfAttention config m →
  shape3 t_len config.(Config.embed_dim) x → b ∈ x → v ∈ b →
  (config.(Config.num_heads) = 0%nat →
   MultiHeadSelfAttention.forward m x = Err ZeroDivisionError)
  ∧ ((0 < config.(Config.num_heads))%nat →
     (config.(Config.attn_dim) `mod` config.(Config.num_heads) ≠ 0)%nat →
     MultiHeadSelfAttention.forward m x = Err RuntimeError).
Proof.
  intros (Ha & Hnh & Hq & _) Hx Hb Hv.
  unfold MultiHeadSelfAttention.forward, MultiHeadSelfAttention.floordiv.
  rewrite Ha, Hnh. split.
  - intros ->. by rewrite decide_True.
  - intros Hn Hmod.
    rewrite decide_False by lia. cbn [mbind result_bind].
    unfold MultiHeadSelfAttention.project.
    destruct (Linear_forward_shape t_len _ _ _ x Hq Hx) as [-> Hy].
    cbn [mbind result_bind].
    set (n := config.(Config.num_heads)) in *.
    set (hd := (config.(Config.attn_dim) / n)%nat).
    rewrite (mapM2_Err_uniform (torch.view_heads n hd) RuntimeError _
               (torch.affine m.(MultiHeadSelfAttention.q) <$> b)
               (torch.affine m.(MultiHeadSelfAttention.q) v)); [done| | | |].
    + intros a e'. unfold torch.view_heads. by case_decide; [|intros [= <-]].
    + unfold torch.map2. apply list_elem_of_fmap. by exists b.
    + apply list_elem_of_fmap. by exists v.
    + unfold torch.view_heads. destruct Hq as (Hwf & _ & Hout).
      rewrite decide_False; [by intros [? ?]|].
      rewrite length_affine by done. rewrite Hout. unfold hd.
      pose proof (Nat.div_mod_eq config.(Config.attn_dim) n). lia.
Qed.

(** X5. The self-attention block maps a non-empty (B,T,E) tensor to a
    (B,T,O) tensor, and treats the entries of a batch independently: on
    the concatenation of two batches it returns the concatenation of what
    it returns on each.  (On a tensor without elements torch refuses the
    final [view(.., -1)]; the hypotheses keep away from it.) *)
Theorem attention_batch_entries_independent (config : BgeConfig F)
    (t_len : nat) (m : MultiHeadSelfAttention.t F)
    (x1 x2 : list (list (list F))) :
  valid_config config → wf_MultiHeadSelfAttention config m →
  (0 < config.(Config.attn_dim))%nat → (0 < t_len)%nat →
  x1 ≠ [] → x2 ≠ [] →
  shape3 t_len config.(Config.embed_dim) x1 →
  shape3 t_len config.(Config.embed_dim) x2 →
  ∃ y1 y2,
    MultiHeadSelfAttention.forward m x1 = Ok y1
    ∧ MultiHeadSelfAttention.forward m x2 = Ok y2
    ∧ MultiHeadSelfAttention.forward m (x1 ++ x2)%list = Ok (y1 ++ y2)%list
    ∧ length y1 = length x1 ∧ length y2 = length x2
    ∧ shape3 t_len config.(Config.attn_output_dim) (y1 ++ y2)%list.
Proof.
  intros Hcfg Hwf Hpos Ht Hne1 Hne2 Hx1 Hx2.
  assert (shape3 t_len config.(Config.embed_dim) (x1 ++ x2)%list) as Hx
    by (by apply Forall_app).
  assert ((x1 ++ x2)%list ≠ []) as Hne by (by destruct x1).
  destruct (MultiHeadSelfAttention_forward_shape config t_len m (x1 ++ x2)%list
              Hcfg Hwf Hpos Ht Hne Hx) as (y & Hy & _ & Hys).
  rewrite (attention_form config t_len) in Hy by done. injection Hy as <-.
  exists (attention_entry m t_len <$> x1), (attention_entry m t_len <$> x2).
  rewrite !(attention_form config t_len) by done.
  rewrite fmap_app in Hys. rewrite fmap_app, !length_fmap. done.
Qed.

End attention.

(** ** The encoder in inference mode *)

Section inference.
Context {F G : Type} `{Scalar F} `{Tr : Transcendental F} `{Generator G F}.
Implicit Types self : gmap string (BgeM3.value F).

Lemma FFN_forward_eval_form (t_len o h : nat) (ffn : FFN.t F)
    (x : list (list (list F))) (g : G) :
  wf_FFN o h ffn → norm_over o ffn.(FFN.LayerNorm) → shape3 t_len o x →
  torch.training ffn.(FFN.output_dropout) = false →
  FFN.forward ffn x g
  = (Ok (torch.map2 (λ v, torch.normalize ffn.(FFN.LayerNorm)
                            (ffn_residual ffn v)) x), g).
Proof.
  intros Hwf [Hln Hdim] Hx Htr.
  rewrite (FFN_forward_pipeline o h) by (done || by eapply shape3_rows).
  unfold rnd_bind. rewrite Dropout_forward_eval by done.
  unfold rnd_ret, lift. rewrite LayerNorm_forward_Ok.
  - by rewrite map2_compose.
  - rewrite Hdim. eapply shape3_rows, shape3_map2; [done|].
    intros v Hv. by eapply ffn_residual_length.
Qed.

Lemma layer_form (config : BgeConfig F) (t_len : nat) (l : BgeAttention.t F)
    (x : list (list (list F))) (g : G) :
  valid_config config → wf_BgeAttention config l →
  (0 < config.(Config.attn_dim))%nat → (0 < t_len)%nat → x ≠ [] →
  shape3 t_len config.(Config.embed_dim) x →
  torch.training l.(BgeAttention.ffn).(FFN.output_dropout) = false →
  BgeAttention.forward l x g = (Ok (layer_entry l t_len <$> x), g).
Proof.
  intros Hcfg (Hattn & Hffn & Hln) Hpos Ht Hne Hx Htr.
  destruct (MultiHeadSelfAttention_forward_shape config t_len _ x Hcfg Hattn
              Hpos Ht Hne Hx) as (a & Ha & _ & Has).
  rewrite (attention_form config t_len) in Ha by done. injection Ha as <-.
  unfold BgeAttention.forward.
  rewrite (attention_form config t_len) by done. rewrite rnd_bind_lift_Ok.
  rewrite (FFN_forward_eval_form t_len _ _ _ _ g Hffn Hln Has Htr).
  f_equal. f_equal. unfold torch.map2, layer_entry.
  by rewrite <- list_fmap_compose.
Qed.

Lemma layers_form (config : BgeConfig F) (t_len : nat)
    (ms : list (BgeAttention.t F)) (x : list (list (list F))) (g : G) :
  valid_config config → Forall (wf_BgeAttention config) ms →
  Forall (λ l, torch.training l.(BgeAttention.ffn).(FFN.output_dropout) = false)
         ms →
  (0 < config.(Config.attn_dim))%nat → (0 < t_len)%nat → x ≠ [] →
  shape3 t_len config.(Config.embed_dim) x →
  rnd_foldM (λ out attention, BgeAttention.forward attention out) ms x g
  = (Ok ((λ b, foldl (λ b l, layer_entry l t_len b) b ms) <$> x), g).
Proof.
  intros Hcfg Hms Htr Hpos Ht. revert x.
  induction Hms as [|l ms Hl _ IH]; intros x Hne Hx.
  - cbn. unfold rnd_ret. by rewrite list_fmap_id.
  - apply Forall_cons in Htr as [Htl Htr].
    destruct (BgeAttention_forward_shape config t_len l x g Hcfg Hl
                Hpos Ht Hne Hx) as (y & g1 & Hy & _ & Hys).
    rewrite (layer_form config t_len) in Hy by done.
    injection Hy as <- <-.
    cbn. unfold rnd_bind at 1. rewrite (layer_form config t_len) by done.
    rewrite (IH Htr); [by rewrite <- list_fmap_compose | by destruct x | done].
Qed.

Lemma encode_form (config : BgeConfig F) (t_len : nat) self
    (emb : BgeM3Embedding.t F) (ms : list (BgeAttention.t F))
    (input_ids : list (list Z)) (token_type_ids : option (list (list Z)))
    (g : G) :
  valid_config config → wf_BgeM3 config self → inference_mode self →
  self !! "embedding" = Some (BgeM3.VEmbedding emb) →
  self !! "attentions" = Some (BgeM3.VModuleList ms) →
  (0 < config.(Config.attn_dim))%nat → input_ids ≠ [] →
  valid_input config t_len input_ids token_type_ids →
  BgeM3.encode self input_ids token_type_ids g
  = (Ok (encoder_entry emb ms t_len <$> input_ids), g).
Proof.
  intros Hcfg (emb' & ms' & _ & _ & He' & Hm' & _ & _ & Hwe & Hwl & _)
         Hinf Hemb Hms Hpos Hne Hin.
  assert (0 < t_len)%nat as Ht by (destruct Hin as [[? _] _]; lia).
  assert (emb' = emb) as -> by congruence.
  assert (ms' = ms) as -> by congruence.
  destruct (BgeM3Embedding_forward_shape config t_len emb input_ids
              token_type_ids Hwe Hin) as (embed & He & _ & Hes).
  rewrite (composer_form config t_len) in He by done. injection He as <-.
  unfold BgeM3.encode, BgeM3.getattr. rewrite Hemb.
  cbn [mbind result_bind BgeM3.as_embedding]. rewrite rnd_bind_lift_Ok.
  rewrite (composer_form config t_len) by done. rewrite rnd_bind_lift_Ok.
  rewrite Hms. cbn [mbind result_bind BgeM3.as_module_list].
  rewrite rnd_bind_lift_Ok.
  rewrite (layers_form config t_len);
    [by rewrite <- list_fmap_compose | done | done | by apply Hinf
    | done | done | by destruct input_ids | done].
Qed.

(** X7. An encoder layer maps a non-empty (B,T,E) tensor to a (B,T,E)
    tensor and does not raise, in training mode as well; out of training
    mode it leaves the random generator as it was. *)
Theorem encoder_layer_keeps_shape (config : BgeConfig F) (t_len : nat)
    (l : BgeAttention.t F) (x : list (list (list F))) (g : G) :
  valid_config config → wf_BgeAttention config l →
  (0 < config.(Config.attn_dim))%nat → (0 < t_len)%nat → x ≠ [] →
  shape3 t_len config.(Config.embed_dim) x →
  ∃ y g',
    BgeAttention.forward l x g = (Ok y, g')
    ∧ length y = length x
    ∧ shape3 t_len config.(Config.embed_dim) y
    ∧ (torch.training l.(BgeAttention.ffn).(FFN.output_dropout) = false →
       g' = g).
Proof.
  intros Hcfg Hwf Hpos Ht Hne Hx.
  destruct (BgeAttention_forward_shape config t_len l x g Hcfg Hwf
              Hpos Ht Hne Hx) as (y & g' & Hy & Hyl & Hys).
  exists y, g'. split; [done|]. split; [done|]. split; [done|].
  intros Htr.
  destruct (BgeAttention_forward_generator_free (G := G) l x Htr) as [r Hr].
  rewrite Hr in Hy. by injection Hy.
Qed.

(** X17. In inference mode the encoder treats the sequences of a batch
    independently: on the concatenation of two batches of T-long
    sequences it returns the concatenation of what it returns on each,
    so no sequence influences the vectors of another. *)
Theorem encoder_batch_entries_independent (config : BgeConfig F)
    (t_len : nat) self (ids1 ids2 : list (list Z)) (g : G) :
  valid_config config → wf_BgeM3 config self → inference_mode self →
  (0 < config.(Config.attn_dim))%nat → ids1 ≠ [] → ids2 ≠ [] →
  valid_input config t_len (ids1 ++ ids2)%list None →
  ∃ out1 out2,
    BgeM3.encode self ids1 None g = (Ok out1, g)
    ∧ BgeM3.encode self ids2 None g = (Ok out2, g)
    ∧ BgeM3.encode self (ids1 ++ ids2)%list None g = (Ok (out1 ++ out2)%list, g)
    ∧ length out1 = length ids1 ∧ length out2 = length ids2.
Proof.
  intros Hcfg Hwf Hinf Hpos Hne1 Hne2 (Ht & Hshape & Hrange & _).
  pose proof Hwf as (emb & ms & _ & _ & Hemb & Hms & _).
  apply Forall_app in Hshape as [Hs1 Hs2].
  apply Forall_app in Hrange as [Hr1 Hr2].
  assert (valid_input config t_len ids1 None) as Hin1
    by (split; [done|]; split; [done|]; split; [done | by left]).
  assert (valid_input config t_len ids2 None) as Hin2
    by (split; [done|]; split; [done|]; split; [done | by left]).
  assert (valid_input config t_len (ids1 ++ ids2)%list None) as Hin.
  { split; [done|]. split; [by apply Forall_app|].
    split; [by apply Forall_app | by left]. }
  exists (encoder_entry emb ms t_len <$> ids1),
         (encoder_entry emb ms t_len <$> ids2).
  rewrite !(encode_form config t_len self emb ms)
    by (done || by destruct ids1).
  by rewrite fmap_app, !length_fmap.
Qed.

End inference.

(** ** Construction and the whole forward pass *)

Section construction.
Context {F G : Type} `{Scalar F} `{Tr : Transcendental F} `{Generator G F}.
Implicit Types self : gmap string (BgeM3.value F).

(** X8. [__init__] builds as many encoder layers as the configuration
    asks for, each in training mode, with parameters of the configured
    shapes; hence the encoder of a fresh model returns a (B,T,E) tensor on
    every valid non-empty input. *)
Theorem constructed_model_is_well_shaped (config : BgeConfig F)
    (init : initializer F) :
  wf_BgeM3 config (BgeM3.__init__ config init)
  ∧ (∃ ms,
       BgeM3.__init__ config init !! "attentions" = Some (BgeM3.VModuleList ms)
       ∧ length ms = config.(Config.num_of_attn_layers)
       ∧ Forall (λ l, torch.training l.(BgeAttention.ffn).(FFN.output_dropout)
                      = true) ms)
  ∧ (valid_config config → (0 < config.(Config.attn_dim))%nat →
     ∀ t_len input_ids token_type_ids (g : G),
       input_ids ≠ [] →
       valid_input config t_len input_ids token_type_ids →
       ∃ out g',
         BgeM3.encode (BgeM3.__init__ config init) input_ids token_type_ids g
           = (Ok out, g')
         ∧ length out = length input_ids
         ∧ shape3 t_len config.(Config.embed_dim) out).
Proof.
  pose proof (init_wf_BgeM3 config init) as Hwf.
  split; [done|]. split.
  - eexists. split.
    + unfold BgeM3.__init__, BgeM3.setattr. by simplify_map_eq.
    + split; [by rewrite length_fmap, length_seq|].
      apply Forall_fmap, Forall_true. by intros layer.
  - intros Hcfg Hpos t_len input_ids token_type_ids g Hne Hin.
    by apply encode_shape.
Qed.

(** X9. Once [vocab_size] (the configured vocabulary size) and a
    [tokenizer] with reserved ids inside the vocabulary are assigned to a
    constructed model, [forward] returns on every valid non-empty input
    a (B,O) dense, a (B,V) sparse and a (B,T-1,O) multi-vector tensor. *)
Theorem forward_shapes_after_assignment (config : BgeConfig F)
    (init : initializer F) (tk : Tokenizer) (t_len : nat)
    (input_ids : list (list Z)) (token_type_ids : option (list (list Z)))
    (g : G) :
  let self :=
    BgeM3.setattr
      (BgeM3.setattr (BgeM3.__init__ config init) "vocab_size"
         (BgeM3.VInt (Z.of_nat config.(Config.word_size))))
      "tokenizer" (BgeM3.VTokenizer tk) in
  valid_config config → (0 < config.(Config.attn_dim))%nat →
  Forall (λ r, - Z.of_nat config.(Config.word_size) ≤ r
               < Z.of_nat config.(Config.word_size))
         (BgeM3.unused_tokens tk) →
  input_ids ≠ [] →
  valid_input config t_len input_ids token_type_ids →
  ∃ dense sparse colbert g',
    BgeM3.forward self input_ids token_type_ids g
      = (Ok (dense, inr sparse, colbert), g')
    ∧ shape2 config.(Config.attn_output_dim) dense
    ∧ length dense = length input_ids
    ∧ shape2 config.(Config.word_size) sparse
    ∧ length sparse = length input_ids
    ∧ shape3 (t_len - 1) config.(Config.attn_output_dim) colbert
    ∧ length colbert = length input_ids.
Proof.
  intros self Hcfg Hpos Hres Hne Hin. subst self.
  apply (forward_shapes config t_len _ tk); [done| |done| | |done|done|done].
  - apply wf_BgeM3_setattr; [done..|].
    apply wf_BgeM3_setattr; [done..|].
    apply init_wf_BgeM3.
  - unfold BgeM3.setattr. by simplify_map_eq.
  - unfold BgeM3.setattr. by simplify_map_eq.
Qed.

End construction.

Section token_weights.
Context {F : Type} `{Scalar F} `{Tr : Transcendental F}.
Implicit Types self : gmap string (BgeM3.value F).

(** X10. With [return_embedding=False] the sparse head returns the
    rectified projection of the hidden state, a (B,T,V) tensor each of
    whose weights is zero or is not [<= 0] (positive, or NaN).  It reads
    neither [vocab_size] nor [tokenizer] nor the token ids, so it works
    on a model as constructed. *)
Theorem token_weights_need_no_attributes (config : BgeConfig F)
    (init : initializer F) (t_len : nat)
    (hidden_state : list (list (list F))) (input_ids : list (list Z)) :
  shape3 t_len config.(Config.embed_dim) hidden_state →
  ∃ sl tw,
    BgeM3.__init__ config init !! "sparse_linear" = Some (BgeM3.VLinear sl)
    ∧ BgeM3._sparse_embedding (BgeM3.__init__ config init) hidden_state
        input_ids false = Ok (inl tw)
    ∧ tw = torch.map2 (λ v, torch.relu <$> torch.affine sl v) hidden_state
    ∧ length tw = length hidden_state
    ∧ shape3 t_len config.(Config.word_size) tw
    ∧ Forall (Forall (Forall (λ w, w = fzero ∨ fleb w fzero = false))) tw.
Proof.
  intros Hx.
  destruct (init_wf_BgeM3 config init)
    as (_ & _ & sl & _ & _ & _ & Hsl & _ & _ & _ & Hwsl & _).
  exists sl, (torch.map2 (λ v, torch.relu <$> torch.affine sl v) hidden_state).
  split; [done|]. split; [|split; [done|split; [|split]]].
  - unfold BgeM3._sparse_embedding, BgeM3.getattr. rewrite Hsl.
    cbn [mbind result_bind BgeM3.as_linear].
    destruct (Linear_forward_shape t_len _ _ sl hidden_state Hwsl Hx) as [-> _].
    cbn. by rewrite map3_as_map2, map2_compose.
  - apply length_map2.
  - eapply shape3_map2; [done|]. intros v _.
    destruct Hwsl as (Hwf & _ & Hout). by rewrite length_fmap, length_affine.
  - apply Forall_map2, Forall_true. intros m. apply Forall_true. intros v.
    apply Forall_fmap, Forall_true. intros x.
    cbn. unfold torch.relu.
    destruct (fleb x fzero) eqn:Hle; [by left | by right].
Qed.

End token_weights.

(** ** The multi-vector head, any mask *)

Section colbert_any_mask.
Context {F : Type} `{Scalar F} `{Tr : Transcendental F}.
Implicit Types self : gmap string (BgeM3.value F).

Lemma broadcast_mismatch {A B C} (f : A → B → result C)
    (xs : list A) (ys : list B) :
  length xs ≠ length ys → length xs ≠ 1%nat → length ys ≠ 1%nat →
  torch.broadcast f xs ys = Err RuntimeError.
Proof.
  intros Hne Hx Hy. unfold torch.broadcast. rewrite decide_False by done.
  destruct xs as [|x [|? ?]]; [|done|]; by destruct ys as [|y [|? ?]].
Qed.

(** X14. For a mask of any element type aligned with the hidden state,
    the multi-vector head returns, at output position [t] of batch entry
    [b], the projection of input position [t+1] multiplied by the float
    of mask entry [t+1]: position 0 is dropped and the remaining
    positions keep their place, whatever their mask entry. *)
Theorem colbert_scales_positions_by_mask {A} `{ToFloat A F} self
    (cl : torch.Linear F) (last_hidden_state : list (list (list F)))
    (mask : list (list A)) :
  self !! "colbert_linear" = Some (BgeM3.VLinear cl) →
  Forall (Forall (λ v, length v = torch.in_features cl)) last_hidden_state →
  Forall2 (λ h m, length h = length m) last_hidden_state mask →
  ∃ c,
    BgeM3._colbert_embedding self last_hidden_state mask = Ok c
    ∧ Forall2 (λ h row, length row = (length h - 1)%nat) last_hidden_state c
    ∧ ∀ b t h m v a,
        last_hidden_state !! b = Some h → mask !! b = Some m →
        h !! S t = Some v → m !! S t = Some a →
        c !! b ≫= (.!! t)
        = Some ((λ x, fmul x (to_float a)) <$> torch.affine cl v).
Proof.
  intros Hcl Hshape Hlen.
  eexists. split; [by apply colbert_embedding_spec|]. split.
  - apply Forall2_same_length_lookup. split.
    + rewrite length_zip_with, !length_tail1.
      apply Forall2_length in Hlen. lia.
    + intros b h row Hh Hrow.
      apply lookup_zip_with_Some in Hrow as (h' & m' & -> & Hh' & Hm').
      destruct (tail1_lookup _ _ _ Hh') as (h0 & Hh0 & ->).
      destruct (tail1_lookup _ _ _ Hm') as (m0 & Hm0 & ->).
      assert (h0 = h) as -> by congruence.
      pose proof (Forall2_lookup_lr _ _ _ _ _ _ Hlen Hh Hm0) as Hl.
      cbn beta in Hl. rewrite length_zip_with, !length_drop. lia.
  - intros b t h m v a Hh Hm Hv Ha.
    rewrite lookup_zip_with. unfold torch.tail1.
    rewrite !list_lookup_fmap, Hh, Hm. cbn.
    rewrite lookup_zip_with, !lookup_drop. cbn.
    rewrite Hv. cbn. by rewrite Ha.
Qed.

(** X15. A mask whose sequence axis neither matches the hidden state nor
    broadcasts (no axis of size one) makes the head raise
    [RuntimeError]. *)
Theorem colbert_misaligned_mask {A} `{ToFloat A F} self
    (cl : torch.Linear F) (t_len t_mask e : nat)
    (last_hidden_state : list (list (list F))) (mask : list (list A)) :
  self !! "colbert_linear" = Some (BgeM3.VLinear cl) →
  torch.in_features cl = e →
  shape3 t_len e last_hidden_state → shape2 t_mask mask →
  last_hidden_state ≠ [] → length last_hidden_state = length mask →
  (t_len - 1 ≠ t_mask - 1)%nat → (t_len - 1 ≠ 1)%nat → (t_mask - 1 ≠ 1)%nat →
  BgeM3._colbert_embedding self last_hidden_state mask = Err RuntimeError.
Proof.
  intros Hcl He Hx Hm Hne Hlen Hdiff Ht Htm.
  unfold BgeM3._colbert_embedding, BgeM3.getattr. rewrite Hcl.
  cbn [mbind result_bind BgeM3.as_linear].
  rewrite Linear_forward_Ok; last first.
  { apply tail1_shape. rewrite He. by eapply shape3_rows. }
  cbn [mbind result_bind].
  destruct last_hidden_state as [|h hs]; [done|].
  destruct mask as [|m ms]; [done|].
  apply Forall_cons in Hx as [[Hh _] _]. apply Forall_cons in Hm as [Hm _].
  unfold torch.mul3, torch.broadcast at 1.
  rewrite decide_True; last first.
  { unfold torch.map3, torch.unsqueeze_last, torch.map2, torch.tail1.
    rewrite !length_fmap. done. }
  cbn. rewrite broadcast_mismatch; [done|..].
  - rewrite length_map2, !length_fmap, !length_drop. lia.
  - rewrite !length_fmap, !length_drop. lia.
  - rewrite length_map2, !length_fmap, !length_drop. lia.
Qed.

End colbert_any_mask.

(** ** The sparse head: values and faults *)

Section sparse_values.
Context {F : Type} `{Scalar F} `{Tr : Transcendental F}.
Implicit Types self : gmap string (BgeM3.value F).

Lemma max_rows_lookup (Q : nat → F → Prop) (rows : list (list F))
    (r : list F) :
  (∀ row v x, row ∈ rows → row !! v = Some x → Q v x) →
  torch.max_rows rows = Ok r →
  ∀ v x, r !! v = Some x → Q v x.
Proof.
  intros HQ. destruct rows as [|r0 rs]; [done|]. cbn. intros [= <-].
  assert (∀ row v x, row ∈ rs → row !! v = Some x → Q v x) as Hrs.
  { intros row v x Hrow. apply HQ. by right. }
  assert (∀ v x, r0 !! v = Some x → Q v x) as Hr0.
  { intros v x. apply HQ. by left. }
  clear HQ. revert r0 Hr0.
  induction rs as [|r1 rs IH]; intros r0 Hr0; [done|].
  cbn. apply IH.
  - intros row v x Hrow. apply Hrs. by right.
  - intros v x Hx. apply lookup_zip_with_Some in Hx as (a & b & -> & Ha & Hb).
    apply fmax_cases; [by apply Hr0|]. apply (Hrs r1); [by left | done].
Qed.

Lemma scatter_row_Err_only (row : list F) (index : list Z) (src : list F)
    (e : exn) :
  torch.scatter_row row index src = Err e → e = RuntimeError.
Proof.
  revert row src. induction index as [|i index IH]; intros row src; cbn; [done|].
  destruct src as [|s src]; [by intros [= <-]|].
  case_decide; [apply IH | by intros [= <-]].
Qed.

Lemma scatter_axis_Err_only {X I W} (f : X → I → W → result X)
    (self : list X) (index : list I) (src : list W) (e : exn) :
  (∀ x i s e', f x i s = Err e' → e' = RuntimeError) →
  torch.scatter_axis f self index src = Err e → e = RuntimeError.
Proof.
  intros Hf. revert self src.
  induction index as [|i index IH]; intros self src;
    [by destruct self|].
  destruct self as [|x self]; cbn; [by intros [= <-]|].
  destruct src as [|s src]; cbn; [by intros [= <-]|].
  destruct (f x i s) as [x'|e'] eqn:Hx; cbn.
  - destruct (torch.scatter_axis f self index src) as [rest|e'] eqn:Hrest;
      cbn; [done|]. intros [= <-]. by eapply IH.
  - intros [= <-]. by eapply Hf.
Qed.

Lemma scatter_axis_Ok_inv {X I W} (f : X → I → W → result X)
    (self : list X) (index : list I) (src : list W) (out : list X)
    (k : nat) (i : I) :
  torch.scatter_axis f self index src = Ok out → index !! k = Some i →
  ∃ x s, self !! k = Some x ∧ is_Ok (f x i s).
Proof.
  revert self src out k.
  induction index as [|i0 index IH]; intros self src out k; [done|].
  destruct self as [|x self]; cbn; [done|].
  destruct src as [|s src]; cbn; [done|].
  destruct (f x i0 s) as [x'|] eqn:Hx; cbn; [|done].
  destruct (torch.scatter_axis f self index src) as [rest|] eqn:Hrest;
    cbn; [|done].
  intros _ Hk. destruct k as [|k]; cbn in Hk.
  - injection Hk as ->. exists x, s. split; [done|]. rewrite Hx. by eexists.
  - destruct (IH _ _ _ _ Hrest Hk) as (x0 & s0 & Hx0 & Hok). by exists x0, s0.
Qed.

Lemma scatter_step_out_of_range (vocab_size : nat) (input_ids : list (list Z))
    (tw : list (list (list F))) (r : list Z) (i : Z) :
  r ∈ input_ids → i ∈ r → ¬ (0 ≤ i < Z.of_nat vocab_size) →
  BgeM3.scatter_step vocab_size input_ids tw = Err RuntimeError.
Proof.
  intros Hr Hi Hrange.
  destruct (BgeM3.scatter_step vocab_size input_ids tw) as [out|e] eqn:Hrun.
  - exfalso. unfold BgeM3.scatter_step, torch.scatter in Hrun.
    apply list_elem_of_lookup in Hr as [b Hb].
    apply list_elem_of_lookup in Hi as [t Ht].
    destruct (scatter_axis_Ok_inv _ _ _ _ _ b ((λ a, [a]) <$> r) Hrun)
      as (x & m & Hx & [x' Hx']).
    { unfold torch.unsqueeze_last, torch.map2.
      by rewrite list_lookup_fmap, Hb. }
    apply lookup_replicate in Hx as [-> _].
    destruct (scatter_axis_Ok_inv _ _ _ _ _ t [i] Hx') as (z & w & Hz & [z' Hz']).
    { by rewrite list_lookup_fmap, Ht. }
    apply lookup_replicate in Hz as [-> _].
    cbn in Hz'. destruct w as [|s w]; [done|].
    unfold torch.zeros in Hz'. rewrite length_replicate in Hz'.
    by rewrite decide_False in Hz'.
  - f_equal. unfold BgeM3.scatter_step, torch.scatter in Hrun.
    eapply scatter_axis_Err_only; [|apply Hrun].
    intros x idx m e'. apply scatter_axis_Err_only.
    intros row idx' w e''. apply scatter_row_Err_only.
Qed.

(** X12. When [vocab_size] is smaller than some token id of the batch, the
    scatter of the sparse head raises [RuntimeError]. *)
Theorem sparse_token_id_beyond_vocab_size self (sl : torch.Linear F)
    (vocab_size t_len : nat)
    (hidden_state : list (list (list F))) (input_ids : list (list Z))
    (r : list Z) (i : Z) :
  self !! "sparse_linear" = Some (BgeM3.VLinear sl) →
  self !! "vocab_size" = Some (BgeM3.VInt (Z.of_nat vocab_size)) →
  shape3 t_len (torch.in_features sl) hidden_state →
  r ∈ input_ids → i ∈ r → ¬ (0 ≤ i < Z.of_nat vocab_size) →
  BgeM3._sparse_embedding self hidden_state input_ids true = Err RuntimeError.
Proof.
  intros Hsl Hvs Hhid Hr Hi Hrange.
  unfold BgeM3._sparse_embedding, BgeM3.getattr.
  rewrite Hsl. cbn [mbind result_bind BgeM3.as_linear].
  rewrite Linear_forward_Ok by (by eapply shape3_rows).
  cbn [fmap result_fmap mbind result_bind negb]. rewrite Hvs.
  cbn [mbind result_bind BgeM3.as_size].
  rewrite decide_True by lia. rewrite Nat2Z.id. cbn [mbind result_bind].
  by rewrite (scatter_step_out_of_range vocab_size input_ids _ r i).
Qed.


(** X18. With [vocab_size] assigned but no [tokenizer], the sparse head
    raises [AttributeError] for [tokenizer]: the attribute is read after
    the scatter has succeeded and before the maximum is taken. *)
Theorem sparse_embedding_without_tokenizer self (sl : torch.Linear F)
    (vocab_size t_len : nat)
    (hidden_state : list (list (list F))) (input_ids : list (list Z)) :
  self !! "sparse_linear" = Some (BgeM3.VLinear sl) →
  self !! "vocab_size" = Some (BgeM3.VInt (Z.of_nat vocab_size)) →
  self !! "tokenizer" = None →
  wf_Linear sl → (0 < torch.out_features sl)%nat →
  shape3 t_len (torch.in_features sl) hidden_state →
  shape2 t_len input_ids →
  length input_ids = length hidden_state →
  Forall (Forall (λ i, 0 ≤ i < Z.of_nat vocab_size)) input_ids →
  BgeM3._sparse_embedding self hidden_state input_ids true
  = Err (AttributeError "tokenizer").
Proof.
  intros Hsl Hvs Htk Hwf Hout Hhid Hids Hlen Hrange.
  destruct (sparse_embedding_scattered self sl vocab_size t_len hidden_state
              input_ids Hsl Hvs Hwf Hout Hhid Hids Hlen Hrange) as [-> _].
  unfold BgeM3.getattr. by rewrite Htk.
Qed.

End sparse_values.

Section sparse_values_origin.
Context {F : Type} `{Scalar F} `{Tr : Transcendental F}.
Implicit Types self : gmap string (BgeM3.value F).

(** X11. Every entry of the sparse vector comes from the sequence: at
    slot [v] stands a value [y], multiplied by zero when [v] is one of
    the reserved slots, and [y] is the initial zero or entry 0 of the
    rectified weights of a position that holds the token id [v].  For a
    token that does not occur in the sequence [y] is the initial zero. *)
Theorem sparse_entries_come_from_the_sequence self (sl : torch.Linear F)
    (vocab_size t_len : nat) (tk : Tokenizer)
    (hidden_state : list (list (list F))) (input_ids : list (list Z)) :
  self !! "sparse_linear" = Some (BgeM3.VLinear sl) →
  self !! "vocab_size" = Some (BgeM3.VInt (Z.of_nat vocab_size)) →
  self !! "tokenizer" = Some (BgeM3.VTokenizer tk) →
  wf_Linear sl → (0 < torch.out_features sl)%nat → (0 < t_len)%nat →
  shape3 t_len (torch.in_features sl) hidden_state →
  shape2 t_len input_ids →
  length input_ids = length hidden_state →
  Forall (Forall (λ i, 0 ≤ i < Z.of_nat vocab_size)) input_ids →
  Forall (λ r, - Z.of_nat vocab_size ≤ r < Z.of_nat vocab_size)
         (reserved_ids tk) →
  ∃ sparse,
    BgeM3._sparse_embedding self hidden_state input_ids true = Ok (inr sparse)
    ∧ ∀ b r row v x,
        input_ids !! b = Some r → sparse !! b = Some row → row !! v = Some x →
        ∃ y,
          ((∃ s, s ∈ reserved_ids tk ∧ torch.norm_index vocab_size s = Ok v) →
           x = fmul y fzero)
          ∧ ((∀ s, s ∈ reserved_ids tk →
                   torch.norm_index vocab_size s ≠ Ok v) → x = y)
          ∧ (y = fzero
             ∨ ∃ t i h,
                 r !! t = Some i ∧ Z.to_nat i = v
                 ∧ hidden_state !! b ≫= (.!! t) = Some h
                 ∧ head (torch.relu <$> torch.affine sl h) = Some y)
          ∧ ((∀ t i, r !! t = Some i → Z.to_nat i ≠ v) → y = fzero).
Proof.
  intros Hsl Hvs Htk Hwf Hout Ht Hhid Hids Hlen Hrange Hres.
  destruct (sparse_embedding_path (λ _, True) self sl vocab_size t_len tk
              hidden_state input_ids)
    as (maxed & unused & Hrun & _ & _ & Hunused); try done.
  { apply Forall_true. intros m. apply Forall_true. intros v.
    by apply Forall_true. }
  destruct (sparse_embedding_unfold self sl vocab_size t_len tk hidden_state
              input_ids) as [Hunf _]; [done..|].
  exists (BgeM3.mul_zero_at unused <$> maxed). split; [done|].
  rewrite Hunf in Hrun. clear Hunf.
  destruct (mapM torch.max_rows _) as [maxed'|] eqn:Hmax; [|done].
  cbn [mbind result_bind] in Hrun.
  destruct (mapM (torch.norm_index vocab_size) _) as [unused'|] eqn:Hun;
    [|done].
  cbn [mbind result_bind] in Hrun.
  injection Hrun as Hrun.
  apply mapM_Ok_inv in Hmax.
  (* what the maximum over the sequence holds at slot [v] *)
  assert (∀ b r mrow v y,
    input_ids !! b = Some r → maxed' !! b = Some mrow → mrow !! v = Some y →
    y = fzero
    ∨ ∃ t i h,
        r !! t = Some i ∧ Z.to_nat i = v
        ∧ hidden_state !! b ≫= (.!! t) = Some h
        ∧ head (torch.relu <$> torch.affine sl h) = Some y) as Hmem.
  { intros b r mrow v y Hr Hmrow Hy.
    destruct (Forall2_lookup_r _ _ _ _ _ Hmax Hmrow) as (rows & Hrows & Hmr).
    apply lookup_zip_with_Some in Hrows as (r' & m & -> & Hr' & Hm).
    assert (r' = r) as -> by congruence.
    revert v y Hy. refine (max_rows_lookup _ _ mrow _ Hmr).
    intros srow v x Hsrow Hx.
    apply list_elem_of_lookup in Hsrow as [t Hsrow].
    apply lookup_zip_with_Some in Hsrow as (i & w & -> & Hi & Hw).
    destruct (decide (Z.to_nat i = v)) as [<-|Hne].
    - destruct (decide (Z.to_nat i < length (torch.zeros (F := F) vocab_size))%nat)
        as [Hlt|Hge].
      + rewrite list_lookup_insert_eq in Hx by done. injection Hx as <-.
        unfold token_weights_of, torch.map2 in Hm.
        rewrite list_lookup_fmap in Hm.
        destruct (hidden_state !! b) as [hm|] eqn:Hhm; [|done].
        injection Hm as <-. rewrite list_lookup_fmap in Hw.
        destruct (hm !! t) as [h|] eqn:Hh; [|done]. injection Hw as <-.
        destruct (head (torch.relu <$> torch.affine sl h)) as [x|] eqn:Hhd.
        * right. exists t, i, h. cbn. by rewrite Hh.
        * by left.
      + rewrite list_insert_ge in Hx by lia.
        apply lookup_replicate in Hx as [-> _]. by left.
    - rewrite list_lookup_insert_ne in Hx by done.
      apply lookup_replicate in Hx as [-> _]. by left. }
  intros b r row v x Hr Hrow Hx. rewrite <- Hrun in Hrow.
  rewrite list_lookup_fmap in Hrow.
  destruct (maxed' !! b) as [mrow|] eqn:Hmrow; [|done].
  injection Hrow as <-. rewrite mul_zero_at_lookup in Hx.
  assert (Forall2 (λ s j, torch.norm_index vocab_size s = Ok j)
                  (reserved_ids tk) unused') as Hres'
    by (by apply mapM_Ok_inv).
  pose proof (unused_index vocab_size (reserved_ids tk) unused' v Hres')
    as Hin.
  assert (∃ y, mrow !! v = Some y
               ∧ x = if decide (v ∈ unused') then fmul y fzero else y)
    as (y & Hy & Hxy).
  { destruct (decide (v ∈ unused')).
    - destruct (mrow !! v) as [y|]; [|done]. injection Hx as <-. by exists y.
    - by exists x. }
  exists y. split_and!.
  - intros Hs. apply Hin in Hs. by rewrite decide_True in Hxy.
  - intros Hs. rewrite decide_False in Hxy; [done|].
    intros Hv. apply Hin in Hv as (s & Hs1 & Hs2). by apply (Hs s).
  - by eapply Hmem.
  - intros Hoff. destruct (Hmem b r mrow v y Hr Hmrow Hy)
      as [->|(t & i & h & Hi & Hv & _)]; [done|].
    by destruct (Hoff t i Hi).
Qed.

End sparse_values_origin.

(** ** Index faults of the whole forward pass *)

Section index_faults.
Context {F G : Type} `{Scalar F} `{Tr : Transcendental F} `{Generator G F}.
Implicit Types self : gmap string (BgeM3.value F).

(** a token id outside the word table, or more positions than the
    position table has rows: one of the two lookups fails *)
Lemma composer_index_fault (config : BgeConfig F) (emb : BgeM3Embedding.t F)
    (t_len : nat) (input_ids : list (list Z))
    (token_type_ids : option (list (list Z))) :
  wf_BgeM3Embedding config emb →
  input_ids ≠ [] → shape2 t_len input_ids →
  (config.(Config.position_size) < t_len)%nat
  ∨ (∃ r i, r ∈ input_ids ∧ i ∈ r
            ∧ ¬ (0 ≤ i < Z.of_nat config.(Config.word_size))) →
  BgeM3Embedding.forward emb input_ids token_type_ids = Err IndexError.
Proof.
  intros (Hword & Hpos & _) Hne Hshape Hcase.
  assert (∀ r i, r ∈ input_ids → i ∈ r →
            ¬ (0 ≤ i < Z.of_nat config.(Config.word_size)) →
            BgeM3Embedding.forward emb input_ids token_type_ids
            = Err IndexError) as Hbad.
  { intros r i Hr Hi Hrange. unfold BgeM3Embedding.forward.
    rewrite (Embedding_forward_out_of_range
               emb.(BgeM3Embedding.word_embedding) input_ids r i);
      [reflexivity|done|done|].
    destruct Hword as [-> _]. done. }
  destruct Hcase as [Hlong|(r & i & Hr & Hi & Hrange)]; [|by eapply Hbad].
  destruct (decide (Forall (Forall
              (λ i, 0 ≤ i < Z.of_nat config.(Config.word_size))) input_ids))
    as [Hrange|Hrange].
  - unfold BgeM3Embedding.forward.
    destruct (Embedding_forward_shape _ _ t_len _ input_ids Hword Hshape Hrange)
      as (word_embed & -> & _).
    cbn [mbind result_bind].
    assert (torch.size1 input_ids = t_len) as ->.
    { destruct input_ids as [|r ids]; [congruence|]. cbn.
      unfold shape2 in Hshape. by apply Forall_cons in Hshape as [-> _]. }
    rewrite (Embedding_forward_out_of_range
               emb.(BgeM3Embedding.position_embedding) [torch.arange t_len]
               (torch.arange t_len) (Z.of_nat config.(Config.position_size)));
      [reflexivity| | |].
    + by left.
    + by apply arange_elem.
    + destruct Hpos as [-> _]. lia.
  - apply not_Forall_Exists in Hrange; [|apply _].
    apply Exists_exists in Hrange as (r & Hr & Hrow).
    apply not_Forall_Exists in Hrow; [|apply _].
    apply Exists_exists in Hrow as (i & Hi & Hrange).
    by eapply Hbad.
Qed.

(** X16. An index fault of the composer is what [forward] raises, before
    anything else is looked at: with a token id outside the vocabulary,
    or with sequences longer than the position table, the call raises
    [IndexError] and draws nothing from the generator.  This holds for a
    model as constructed as well, where a valid input ends in
    [AttributeError]. *)
Theorem forward_index_faults_come_first (config : BgeConfig F) self
    (t_len : nat) (input_ids : list (list Z))
    (token_type_ids : option (list (list Z))) (g : G) :
  wf_BgeM3 config self →
  input_ids ≠ [] → shape2 t_len input_ids →
  (config.(Config.position_size) < t_len)%nat
  ∨ (∃ r i, r ∈ input_ids ∧ i ∈ r
            ∧ ¬ (0 ≤ i < Z.of_nat config.(Config.word_size))) →
  BgeM3.forward self input_ids token_type_ids g = (Err IndexError, g).
Proof.
  intros (emb & ms & _ & _ & Hemb & _ & _ & _ & Hwe & _) Hne Hshape Hcase.
  apply forward_encode_Err.
  unfold BgeM3.encode, BgeM3.getattr. rewrite Hemb.
  cbn [mbind result_bind BgeM3.as_embedding]. rewrite rnd_bind_lift_Ok.
  by rewrite (composer_index_fault config emb t_len).
Qed.

End index_faults.

(** ** The further properties on the small model *)

Section init_facts.
Context {F : Type} `{Scalar F} `{Tr : Transcendental F}.

Lemma init_wf_BgeM3Embedding (config : BgeConfig F) (init : initializer F) :
  wf_BgeM3Embedding config (BgeM3Embedding.__init__ config init).
Proof.
  unfold wf_BgeM3Embedding, BgeM3Embedding.__init__. cbn.
  repeat split; apply mk_Embedding_wf || apply mk_LayerNorm_norm_over.
Qed.

End init_facts.

Lemma small_valid_config : valid_config Small.config.
Proof. repeat split; cbn; lia. Qed.

Lemma composer_returns_normalized_sum_witness :
  ∃ embed,
    BgeM3Embedding.forward (BgeM3Embedding.__init__ Small.config Small.init)
      [[1; 2; 3]] None = Ok embed
    ∧ length embed = 1%nat
    ∧ shape3 3 2 embed
    ∧ ∀ b r t i, [[1; 2; 3]] !! b = Some r → r !! t = Some i →
        ∃ w p ty,
          torch.emb_weight
            (BgeM3Embedding.__init__ Small.config Small.init).(BgeM3Embedding.word_embedding)
            !! Z.to_nat i = Some w
          ∧ torch.emb_weight
              (BgeM3Embedding.__init__ Small.config Small.init).(BgeM3Embedding.position_embedding)
              !! t = Some p
          ∧ torch.emb_weight
              (BgeM3Embedding.__init__ Small.config Small.init).(BgeM3Embedding.token_type_embedding)
              !! 0%nat = Some ty
          ∧ embed !! b ≫= (.!! t)
            = Some (torch.normalize
                      (BgeM3Embedding.__init__ Small.config Small.init).(BgeM3Embedding.LayerNorm)
                      (zip_with fadd (zip_with fadd w p) ty)).
Proof.
  refine (composer_returns_normalized_sum Small.config 3
            (BgeM3Embedding.__init__ Small.config Small.init)
            [[1; 2; 3]] None _ _).
  - apply init_wf_BgeM3Embedding.
  - split; [cbn; lia|]. split; [repeat constructor|].
    split; [repeat constructor; lia | by left].
Defined.

Lemma composer_token_id_out_of_range_witness :
  BgeM3Embedding.forward (BgeM3Embedding.__init__ Small.config Small.init)
    [[1; 7]] None = Err IndexError.
Proof.
  refine (composer_token_id_out_of_range
            (BgeM3Embedding.__init__ Small.config Small.init)
            [[1; 7]] None [1; 7] 7 _ _ _).
  - repeat constructor.
  - repeat constructor.
  - cbn. lia.
Defined.

Lemma composer_sequence_longer_than_table_witness :
  BgeM3Embedding.forward (BgeM3Embedding.__init__ Small.config Small.init)
    [[1; 2; 3; 0; 1]] None = Err IndexError.
Proof.
  refine (composer_sequence_longer_than_table Small.config
            (BgeM3Embedding.__init__ Small.config Small.init) 5
            [[1; 2; 3; 0; 1]] None _ _ _ _ _).
  - apply init_wf_BgeM3Embedding.
  - discriminate.
  - repeat constructor.
  - repeat constructor; cbn; lia.
  - cbn. lia.
Defined.

Lemma composer_type_id_nonzero_witness :
  BgeM3Embedding.forward (BgeM3Embedding.__init__ Small.config Small.init)
    [[1; 2; 3]] (Some [[0; 1; 0]]) = Err IndexError.
Proof.
  refine (composer_type_id_nonzero Small.config
            (BgeM3Embedding.__init__ Small.config Small.init) 3
            [[1; 2; 3]] [[0; 1; 0]] [0; 1; 0] 1 _ _ _ _ _ _ _).
  - apply init_wf_BgeM3Embedding.
  - cbn. lia.
  - repeat constructor.
  - repeat constructor; cbn; lia.
  - repeat constructor.
  - repeat constructor.
  - lia.
Defined.

Lemma attention_batch_entries_independent_witness :
  ∃ y1 y2,
    MultiHeadSelfAttention.forward
      (MultiHeadSelfAttention.__init__ Small.config Small.init 0)
      [[[1; 2]]] = Ok y1
    ∧ MultiHeadSelfAttention.forward
        (MultiHeadSelfAttention.__init__ Small.config Small.init 0)
        [[[3; 4]]] = Ok y2
    ∧ MultiHeadSelfAttention.forward
        (MultiHeadSelfAttention.__init__ Small.config Small.init 0)
        ([[[1; 2]]] ++ [[[3; 4]]])%list = Ok (y1 ++ y2)%list
    ∧ length y1 = 1%nat ∧ length y2 = 1%nat
    ∧ shape3 1 2 (y1 ++ y2)%list.
Proof.
  refine (attention_batch_entries_independent Small.config 1
            (MultiHeadSelfAttention.__init__ Small.config Small.init 0)
            [[[1; 2]]] [[[3; 4]]] _ _ _ _ _ _ _ _).
  - apply small_valid_config.
  - apply (init_wf_BgeAttention Small.config Small.init 0).
  - cbn. lia.
  - lia.
  - discriminate.
  - discriminate.
  - repeat constructor.
  - repeat constructor.
Defined.

Lemma attention_head_count_faults_witness :
  MultiHeadSelfAttention.forward
    (MultiHeadSelfAttention.__init__ Cases.uneven_config Small.init 0)
    [[[1; 2]]] = Err RuntimeError.
Proof.
  refine (proj2 (attention_head_count_faults Cases.uneven_config 1
            (MultiHeadSelfAttention.__init__ Cases.uneven_config Small.init 0)
            [[[1; 2]]] [[1; 2]] [1; 2] _ _ _ _) _ _).
  - apply (init_wf_BgeAttention Cases.uneven_config Small.init 0).
  - repeat constructor.
  - repeat constructor.
  - repeat constructor.
  - cbn. lia.
  - cbn. lia.
Defined.

Lemma encoder_layer_keeps_shape_witness :
  ∃ y g',
    BgeAttention.forward (BgeAttention.__init__ Small.config Small.init 0)
      [[[1; 2]]] 0%nat = (Ok y, g')
    ∧ length y = 1%nat
    ∧ shape3 1 2 y
    ∧ (torch.training
         (BgeAttention.__init__ Small.config Small.init 0).(BgeAttention.ffn).(FFN.output_dropout)
       = false → g' = 0%nat).
Proof.
  refine (encoder_layer_keeps_shape Small.config 1
            (BgeAttention.__init__ Small.config Small.init 0)
            [[[1; 2]]] 0%nat _ _ _ _ _ _).
  - apply small_valid_config.
  - apply init_wf_BgeAttention.
  - cbn. lia.
  - lia.
  - discriminate.
  - repeat constructor.
Defined.

Lemma encoder_batch_entries_independent_witness :
  ∃ out1 out2,
    BgeM3.encode (BgeM3.eval Small.model) [[1; 2]] None 0%nat
      = (Ok out1, 0%nat)
    ∧ BgeM3.encode (BgeM3.eval Small.model) [[3; 0]] None 0%nat
      = (Ok out2, 0%nat)
    ∧ BgeM3.encode (BgeM3.eval Small.model) ([[1; 2]] ++ [[3; 0]])%list
        None 0%nat = (Ok (out1 ++ out2)%list, 0%nat)
    ∧ length out1 = 1%nat ∧ length out2 = 1%nat.
Proof.
  refine (encoder_batch_entries_independent Small.config 2
            (BgeM3.eval Small.model) [[1; 2]] [[3; 0]] 0%nat
            _ _ _ _ _ _ _).
  - apply small_valid_config.
  - apply wf_BgeM3_eval, init_wf_BgeM3.
  - apply eval_inference_mode.
  - cbn. lia.
  - discriminate.
  - discriminate.
  - split; [cbn; lia|]. split; [repeat constructor|].
    split; [repeat constructor; cbn; lia | by left].
Defined.

Lemma constructed_model_is_well_shaped_witness :
  ∃ out g',
    BgeM3.encode (BgeM3.__init__ Small.config Small.init) [[1; 2; 3]] None
      0%nat = (Ok out, g')
    ∧ length out = 1%nat
    ∧ shape3 3 2 out.
Proof.
  refine (proj2 (proj2 (constructed_model_is_well_shaped (G := nat)
            Small.config Small.init)) _ _ 3%nat [[1; 2; 3]] None 0%nat _ _).
  - apply small_valid_config.
  - cbn. lia.
  - discriminate.
  - split; [cbn; lia|]. split; [repeat constructor|].
    split; [repeat constructor; cbn; lia | by left].
Defined.

Lemma forward_shapes_after_assignment_witness :
  ∃ dense sparse colbert g',
    BgeM3.forward Small.patched [[1; 2; 3]] None 0%nat
      = (Ok (dense, inr sparse, colbert), g')
    ∧ shape2 2 dense
    ∧ length dense = 1%nat
    ∧ shape2 4 sparse
    ∧ length sparse = 1%nat
    ∧ shape3 2 2 colbert
    ∧ length colbert = 1%nat.
Proof.
  refine (forward_shapes_after_assignment Small.config Small.init
            Small.tokenizer 3 [[1; 2; 3]] None 0%nat _ _ _ _ _).
  - apply small_valid_config.
  - cbn. lia.
  - repeat constructor; cbn; lia.
  - discriminate.
  - split; [cbn; lia|]. split; [repeat constructor|].
    split; [repeat constructor; cbn; lia | by left].
Defined.

Lemma token_weights_need_no_attributes_witness :
  ∃ sl tw,
    Small.model !! "sparse_linear" = Some (BgeM3.VLinear sl)
    ∧ BgeM3._sparse_embedding Small.model [[[1; 2]]] [[1]] false
      = Ok (inl tw)
    ∧ tw = torch.map2 (λ v, torch.relu <$> torch.affine sl v) [[[1; 2]]]
    ∧ length tw = 1%nat
    ∧ shape3 1 4 tw
    ∧ Forall (Forall (Forall (λ w, w = 0 ∨ (w <=? 0) = false))) tw.
Proof.
  refine (token_weights_need_no_attributes Small.config Small.init 1
            [[[1; 2]]] [[1]] _).
  repeat constructor.
Defined.

Lemma colbert_scales_positions_by_mask_witness :
  ∃ c,
    BgeM3._colbert_embedding Small.heads [[[9; 9]; [1; 2]]] [[7; 3]] = Ok c
    ∧ Forall2 (λ h row, length row = (length h - 1)%nat)
        [[[9; 9]; [1; 2]]] c
    ∧ ∀ b t h m v a,
        [[[9; 9]; [1; 2]]] !! b = Some h → [[7; 3]] !! b = Some m →
        h !! S t = Some v → m !! S t = Some a →
        c !! b ≫= (.!! t)
        = Some ((λ x, fmul x (to_float a)) <$> torch.affine Small.id_linear v).
Proof.
  refine (colbert_scales_positions_by_mask Small.heads Small.id_linear
            [[[9; 9]; [1; 2]]] [[7; 3]] _ _ _).
  - vm_compute. reflexivity.
  - repeat constructor.
  - repeat constructor.
Defined.

Lemma colbert_misaligned_mask_witness :
  BgeM3._colbert_embedding Small.heads
    [[[1; 2]; [1; 2]; [1; 2]; [1; 2]]] [[1; 1; 1]] = Err RuntimeError.
Proof.
  refine (colbert_misaligned_mask Small.heads Small.id_linear 4 3 2
            [[[1; 2]; [1; 2]; [1; 2]; [1; 2]]] [[1; 1; 1]]
            _ _ _ _ _ _ _ _ _).
  - vm_compute. reflexivity.
  - reflexivity.
  - repeat constructor.
  - repeat constructor.
  - discriminate.
  - reflexivity.
  - lia.
  - lia.
  - lia.
Defined.

Lemma sparse_token_id_beyond_vocab_size_witness :
  BgeM3._sparse_embedding Small.heads [[[5; 7]]] [[5]] true
  = Err RuntimeError.
Proof.
  refine (sparse_token_id_beyond_vocab_size Small.heads Small.id_linear
            2 1 [[[5; 7]]] [[5]] [5] 5 _ _ _ _ _ _).
  - vm_compute. reflexivity.
  - vm_compute. reflexivity.
  - repeat constructor.
  - repeat constructor.
  - repeat constructor.
  - lia.
Defined.


Lemma sparse_entries_come_from_the_sequence_witness :
  ∃ sparse,
    BgeM3._sparse_embedding Binary64.heads Binary64.modest1 [[0]] true
    = Ok (inr sparse)
    ∧ ∀ b r row v x,
        [[0]] !! b = Some r → sparse !! b = Some row → row !! v = Some x →
        ∃ y,
          ((∃ s, s ∈ reserved_ids Small.zero_tokenizer
                 ∧ torch.norm_index 2 s = Ok v) →
           x = fmul y fzero)
          ∧ ((∀ s, s ∈ reserved_ids Small.zero_tokenizer →
                   torch.norm_index 2 s ≠ Ok v) → x = y)
          ∧ (y = fzero
             ∨ ∃ t i h,
                 r !! t = Some i ∧ Z.to_nat i = v
                 ∧ Binary64.modest1 !! b ≫= (.!! t) = Some h
                 ∧ head (torch.relu <$> torch.affine Binary64.steep_linear h)
                   = Some y)
          ∧ ((∀ t i, r !! t = Some i → Z.to_nat i ≠ v) → y = fzero).
Proof.
  refine (sparse_entries_come_from_the_sequence Binary64.heads
            Binary64.steep_linear 2 1 Small.zero_tokenizer Binary64.modest1
            [[0]] _ _ _ _ _ _ _ _ _ _ _).
  - vm_compute. reflexivity.
  - vm_compute. reflexivity.
  - vm_compute. reflexivity.
  - split; reflexivity.
  - cbn. lia.
  - lia.
  - repeat constructor.
  - repeat constructor.
  - reflexivity.
  - repeat constructor; lia.
  - repeat constructor; cbn; lia.
Defined.

Lemma sparse_embedding_without_tokenizer_witness :
  BgeM3._sparse_embedding Cases.no_tokenizer [[[5; 7]]] [[1]] true
  = Err (AttributeError "tokenizer").
Proof.
  refine (sparse_embedding_without_tokenizer Cases.no_tokenizer
            Small.id_linear 2 1 [[[5; 7]]] [[1]] _ _ _ _ _ _ _ _ _).
  - vm_compute. reflexivity.
  - vm_compute. reflexivity.
  - vm_compute. reflexivity.
  - split; reflexivity.
  - cbn. lia.
  - repeat constructor.
  - repeat constructor.
  - reflexivity.
  - repeat constructor; lia.
Defined.

Lemma forward_index_faults_come_first_witness :
  BgeM3.forward Small.model [[1; 7]] None 0%nat = (Err IndexError, 0%nat).
Proof.
  refine (forward_index_faults_come_first Small.config Small.model 2
            [[1; 7]] None 0%nat _ _ _ _).
  - apply init_wf_BgeM3.
  - discriminate.
  - repeat constructor.
  - right. exists [1; 7], 7. split; [repeat constructor|].
    split; [repeat constructor|]. cbn. lia.
Defined.
